(** * AutonomousVault: credential custody, signing and scheduling

    A shallow embedding of the SQL helper functions of the migrations
    [20240101000002_cron_schedules.sql] and
    [20240101000004_execution_sessions.sql], and of the edge-function
    modules [_shared/execution-session.ts], [_shared/hyperliquid-adapter.ts]
    and [cron-trigger/index.ts], followed by the properties proved of them. *)

From Stdlib Require Import ZArith String Ascii List Bool Lia Floats Uint63 DecimalString.
From Stdlib.Strings Require Import Byte.
Import ListNotations.
Local Open Scope string_scope.
Local Open Scope list_scope.
Local Open Scope Z_scope.

(* ===================================================================== *)
(** * PostgreSQL values *)
(* ===================================================================== *)

Module Pg.

(** [UUID] and [TEXT] columns are strings; a [TIMESTAMPTZ] is its number
    of microseconds since the epoch (the resolution PostgreSQL stores),
    and an [INTERVAL] a number of microseconds.  A nullable column is an
    [option]: [None] is SQL [NULL]. *)
Definition uuid := string.
Definition timestamptz := Z.
Definition interval := Z.

Definition USECS_PER_SEC : Z := 1000000.

(** [n * INTERVAL '1 second'] *)
Definition seconds (n : Z) : interval := n * USECS_PER_SEC.

(** [timestamptz + interval].  The clock is taken far enough from the
    end of the timestamp range (year 294276) for the sum to exist. *)
Definition timestamptz_pl_interval (t : timestamptz) (i : interval) : timestamptz :=
  t + i.

(** A statement either completes or raises; a raise aborts the whole
    function call. *)
Inductive result (A : Type) : Type :=
| Ok (a : A)
| Raise (sqlstate : string).
Arguments Ok {A} a.
Arguments Raise {A} sqlstate.

Definition bind {A B} (m : result A) (k : A -> result B) : result B :=
  match m with
  | Ok a => k a
  | Raise e => Raise e
  end.

Fixpoint mapM {A B} (f : A -> result B) (l : list A) : result (list B) :=
  match l with
  | [] => Ok []
  | x :: xs =>
      bind (f x) (fun y => bind (mapM f xs) (fun ys => Ok (y :: ys)))
  end.

(** [INTEGER] is a signed 32-bit integer; [+] raises
    [22003 integer out of range] instead of wrapping. *)
Definition INT4_MIN : Z := -2147483648.
Definition INT4_MAX : Z := 2147483647.

Definition int4_in_range (n : Z) : bool :=
  (INT4_MIN <=? n) && (n <=? INT4_MAX).

Definition int4pl (a b : Z) : result Z :=
  if int4_in_range (a + b) then Ok (a + b) else Raise "22003".

(** Operators are strict: a [NULL] operand gives [NULL]. *)
Definition int4pl_null (a b : option Z) : result (option Z) :=
  match a, b with
  | Some x, Some y => bind (int4pl x y) (fun s => Ok (Some s))
  | _, _ => Ok None
  end.

Definition strict2 {A B C} (f : A -> B -> C) (a : option A) (b : option B) : option C :=
  match a, b with
  | Some x, Some y => Some (f x y)
  | _, _ => None
  end.

Definition sql_lt : option Z -> option Z -> option bool := strict2 Z.ltb.
Definition sql_le : option Z -> option Z -> option bool := strict2 Z.leb.
Definition sql_gt : option Z -> option Z -> option bool := strict2 Z.gtb.
Definition sql_ge : option Z -> option Z -> option bool := strict2 Z.geb.
Definition sql_booleq : option bool -> option bool -> option bool := strict2 Bool.eqb.
Definition sql_texteq : option string -> option string -> option bool := strict2 String.eqb.

(** Three-valued [AND] and [OR]. *)
Definition sql_and (a b : option bool) : option bool :=
  match a, b with
  | Some false, _ | _, Some false => Some false
  | Some true, Some true => Some true
  | _, _ => None
  end.

Definition sql_or (a b : option bool) : option bool :=
  match a, b with
  | Some true, _ | _, Some true => Some true
  | Some false, Some false => Some false
  | _, _ => None
  end.

Definition is_null {A} (a : option A) : option bool :=
  match a with
  | None => Some true
  | Some _ => Some false
  end.

(** A [WHERE] clause keeps a row, and a [CASE WHEN] takes its branch,
    only when the condition is true: [NULL] counts as not true. *)
Definition is_true (c : option bool) : bool :=
  match c with
  | Some true => true
  | _ => false
  end.

(** [UPDATE tbl SET ... WHERE cond], with a [BEFORE UPDATE ... FOR EACH
    ROW] trigger applied to each new row. *)
Definition update {R} (cond : R -> option bool) (set : R -> result R)
           (before_update : R -> R) (tbl : list R) : result (list R) :=
  mapM (fun r =>
          if is_true (cond r)
          then bind (set r) (fun r' => Ok (before_update r'))
          else Ok r)
       tbl.

(** What the table holds once the call has returned: a raise rolls the
    call back. *)
Definition commit {T} (before : T) (r : result T) : T :=
  match r with
  | Ok after => after
  | Raise _ => before
  end.

End Pg.

Notation "x <- m ;; k" := (Pg.bind m (fun x => k))
  (at level 61, m at next level, right associativity, only parsing).

(* ===================================================================== *)
(** * Migration 20240101000002: cron_schedules *)
(* ===================================================================== *)

Module CronSchedules.
Import Pg.

(** [CREATE TABLE cron_schedules]: [enabled] and [interval_seconds] are
    [NOT NULL], the other data columns are nullable. *)
Record row : Type := mkRow {
  id : uuid;
  user_id : uuid;
  schedule_name : string;
  enabled : bool;
  interval_seconds : Z;
  coins : option (list string);
  last_run_at : option timestamptz;
  next_run_at : option timestamptz;
  run_count : option Z;
  last_error : option string;
  consecutive_errors : option Z;
  max_consecutive_errors : option Z;
  created_at : option timestamptz;
  updated_at : option timestamptz
}.

Definition table := list row.

(** The columns of an [INSERT]: [user_id] has no default and must be
    given; any other column may be left out ([None]) and then takes its
    [DEFAULT].  A nullable column that is given may be given [NULL]. *)
Record insert_columns : Type := mkInsert {
  ins_id : option uuid;
  ins_user_id : uuid;
  ins_schedule_name : option string;
  ins_enabled : option bool;
  ins_interval_seconds : option Z;
  ins_coins : option (option (list string));
  ins_last_run_at : option (option timestamptz);
  ins_next_run_at : option (option timestamptz);
  ins_run_count : option (option Z);
  ins_last_error : option (option string);
  ins_consecutive_errors : option (option Z);
  ins_max_consecutive_errors : option (option Z);
  ins_created_at : option (option timestamptz);
  ins_updated_at : option (option timestamptz)
}.

Definition or_default {A} (given : option A) (default : A) : A :=
  match given with
  | Some a => a
  | None => default
  end.

(** The row an [INSERT] builds; [fresh] is [gen_random_uuid()] and
    [now] is [NOW()]. *)
Definition new_row (fresh : uuid) (now : timestamptz) (c : insert_columns) : row :=
  {| id := or_default (ins_id c) fresh;
     user_id := ins_user_id c;
     schedule_name := or_default (ins_schedule_name c) "default";
     enabled := or_default (ins_enabled c) false;
     interval_seconds := or_default (ins_interval_seconds c) 300;
     coins := or_default (ins_coins c) (Some []);
     last_run_at := or_default (ins_last_run_at c) None;
     next_run_at := or_default (ins_next_run_at c) None;
     run_count := or_default (ins_run_count c) (Some 0);
     last_error := or_default (ins_last_error c) None;
     consecutive_errors := or_default (ins_consecutive_errors c) (Some 0);
     max_consecutive_errors := or_default (ins_max_consecutive_errors c) (Some 5);
     created_at := or_default (ins_created_at c) (Some now);
     updated_at := or_default (ins_updated_at c) (Some now) |}.

(** [update_updated_at_column()], the [BEFORE UPDATE] trigger. *)
Definition update_updated_at_column (now : timestamptz) (new : row) : row :=
  {| id := id new;
     user_id := user_id new;
     schedule_name := schedule_name new;
     enabled := enabled new;
     interval_seconds := interval_seconds new;
     coins := coins new;
     last_run_at := last_run_at new;
     next_run_at := next_run_at new;
     run_count := run_count new;
     last_error := last_error new;
     consecutive_errors := consecutive_errors new;
     max_consecutive_errors := max_consecutive_errors new;
     created_at := created_at new;
     updated_at := Some now |}.

(** ** get_due_schedules *)

Record due_schedule : Type := mkDue {
  schedule_id : uuid;
  due_user_id : uuid;
  due_coins : option (list string);
  due_interval_seconds : Z
}.

Definition due_columns (cs : row) : due_schedule :=
  {| schedule_id := id cs;
     due_user_id := user_id cs;
     due_coins := coins cs;
     due_interval_seconds := interval_seconds cs |}.

(** [WHERE cs.enabled = true
      AND cs.consecutive_errors < cs.max_consecutive_errors
      AND (cs.next_run_at IS NULL OR cs.next_run_at <= NOW())] *)
Definition due_where (now : timestamptz) (cs : row) : option bool :=
  sql_and
    (sql_and (sql_booleq (Some (enabled cs)) (Some true))
             (sql_lt (consecutive_errors cs) (max_consecutive_errors cs)))
    (sql_or (is_null (next_run_at cs))
            (sql_le (next_run_at cs) (Some now))).

Definition get_due_schedules (tbl : table) (now : timestamptz) : list due_schedule :=
  map due_columns (filter (fun cs => is_true (due_where now cs)) tbl).

(** ** record_schedule_success *)

Definition id_is (p_schedule_id : uuid) (cs : row) : option bool :=
  sql_texteq (Some (id cs)) (Some p_schedule_id).

Definition success_set (now : timestamptz) (cs : row) : result row :=
  run_count' <- int4pl_null (run_count cs) (Some 1) ;;
  Ok {| id := id cs;
        user_id := user_id cs;
        schedule_name := schedule_name cs;
        enabled := enabled cs;
        interval_seconds := interval_seconds cs;
        coins := coins cs;
        last_run_at := Some now;
        next_run_at :=
          Some (timestamptz_pl_interval now (seconds (interval_seconds cs)));
        run_count := run_count';
        last_error := None;
        consecutive_errors := Some 0;
        max_consecutive_errors := max_consecutive_errors cs;
        created_at := created_at cs;
        updated_at := Some now |}.

Definition record_schedule_success (tbl : table) (now : timestamptz)
           (p_schedule_id : uuid) : result table :=
  update (id_is p_schedule_id) (success_set now)
         (update_updated_at_column now) tbl.

(** ** record_schedule_error *)

(** Every expression of the [SET] list reads the row as it was before
    the update, so the [CASE] compares the incremented count. *)
Definition error_set (now : timestamptz) (p_error : string) (cs : row) : result row :=
  consecutive_errors' <- int4pl_null (consecutive_errors cs) (Some 1) ;;
  Ok {| id := id cs;
        user_id := user_id cs;
        schedule_name := schedule_name cs;
        enabled :=
          if is_true (sql_ge consecutive_errors' (max_consecutive_errors cs))
          then false
          else enabled cs;
        interval_seconds := interval_seconds cs;
        coins := coins cs;
        last_run_at := last_run_at cs;
        next_run_at :=
          Some (timestamptz_pl_interval now (seconds (interval_seconds cs)));
        run_count := run_count cs;
        last_error := Some p_error;
        consecutive_errors := consecutive_errors';
        max_consecutive_errors := max_consecutive_errors cs;
        created_at := created_at cs;
        updated_at := Some now |}.

(** The [SELECT * INTO v_schedule] that precedes the update reads a
    row into a variable that is not used afterwards. *)
Definition record_schedule_error (tbl : table) (now : timestamptz)
           (p_schedule_id : uuid) (p_error : string) : result table :=
  let v_schedule := find (fun cs => is_true (id_is p_schedule_id cs)) tbl in
  update (id_is p_schedule_id) (error_set now p_error)
         (update_updated_at_column now) tbl.

(** ** Calls made by the server *)

Inductive call : Type :=
| GetDueSchedules
| RecordSuccess (p_schedule_id : uuid)
| RecordError (p_schedule_id : uuid) (p_error : string).

(** The table after one call made at time [now]. *)
Definition exec (now : timestamptz) (c : call) (tbl : table) : table :=
  match c with
  | GetDueSchedules => tbl
  | RecordSuccess sid => commit tbl (record_schedule_success tbl now sid)
  | RecordError sid msg => commit tbl (record_schedule_error tbl now sid msg)
  end.

Fixpoint run (calls : list (timestamptz * call)) (tbl : table) : table :=
  match calls with
  | [] => tbl
  | (now, c) :: rest => run rest (exec now c tbl)
  end.

End CronSchedules.

(* ===================================================================== *)
(** * Migration 20240101000004: execution_sessions *)
(* ===================================================================== *)

Module ExecutionSessions.
Import Pg.

(** [CREATE TABLE execution_sessions]: only [user_id],
    [encrypted_session_token] and [expires_at] are [NOT NULL]. *)
Record row : Type := mkRow {
  id : uuid;
  user_id : uuid;
  encrypted_session_token : string;
  created_at : option timestamptz;
  expires_at : timestamptz;
  revoked : option bool;
  last_used_at : option timestamptz;
  use_count : option Z
}.

Definition table := list row.

(** [ORDER BY key DESC]: an insertion sort.  SQL leaves the order of
    rows with equal keys open; here the earlier row stays first. *)
Fixpoint insert_desc {A} (key : A -> Z) (x : A) (sorted : list A) : list A :=
  match sorted with
  | [] => [x]
  | y :: ys =>
      if key y <=? key x then x :: sorted else y :: insert_desc key x ys
  end.

Definition order_by_desc {A} (key : A -> Z) (l : list A) : list A :=
  fold_right (insert_desc key) [] l.

(** ** get_active_session *)

Record active_session : Type := mkActive {
  session_id : uuid;
  active_token : string;
  active_expires_at : timestamptz
}.

Definition active_columns (es : row) : active_session :=
  {| session_id := id es;
     active_token := encrypted_session_token es;
     active_expires_at := expires_at es |}.

(** [WHERE es.user_id = p_user_id AND es.revoked = false
      AND es.expires_at > NOW()] *)
Definition active_where (p_user_id : uuid) (now : timestamptz) (es : row) : option bool :=
  sql_and
    (sql_and (sql_texteq (Some (user_id es)) (Some p_user_id))
             (sql_booleq (revoked es) (Some false)))
    (sql_gt (Some (expires_at es)) (Some now)).

(** [... ORDER BY es.expires_at DESC LIMIT 1] *)
Definition get_active_session (tbl : table) (p_user_id : uuid)
           (now : timestamptz) : list active_session :=
  map active_columns
      (firstn 1
         (order_by_desc expires_at
            (filter (fun es => is_true (active_where p_user_id now es)) tbl))).

(** ** record_session_usage *)

Definition id_is (p_session_id : uuid) (es : row) : option bool :=
  sql_texteq (Some (id es)) (Some p_session_id).

Definition usage_set (now : timestamptz) (es : row) : result row :=
  use_count' <- int4pl_null (use_count es) (Some 1) ;;
  Ok {| id := id es;
        user_id := user_id es;
        encrypted_session_token := encrypted_session_token es;
        created_at := created_at es;
        expires_at := expires_at es;
        revoked := revoked es;
        last_used_at := Some now;
        use_count := use_count' |}.

(** The table has no trigger. *)
Definition record_session_usage (tbl : table) (now : timestamptz)
           (p_session_id : uuid) : result table :=
  update (id_is p_session_id) (usage_set now) (fun es => es) tbl.

(** ** cleanup_expired_sessions *)

(** [INTERVAL '7 days'], the session time zone being UTC. *)
Definition seven_days : interval := seconds (7 * 86400).

(** [WHERE expires_at < NOW() - INTERVAL '7 days' OR revoked = true] *)
Definition cleanup_where (now : timestamptz) (es : row) : option bool :=
  sql_or (sql_lt (Some (expires_at es)) (Some (now - seven_days)))
         (sql_booleq (revoked es) (Some true)).

(** [DELETE FROM execution_sessions WHERE ...], with [ROW_COUNT]. *)
Definition cleanup_expired_sessions (tbl : table) (now : timestamptz) : table * Z :=
  let kept := filter (fun es => negb (is_true (cleanup_where now es))) tbl in
  (kept, Z.of_nat (length tbl) - Z.of_nat (length kept)).

(** ** The update [revokeSession] sends *)

(** [UPDATE execution_sessions SET revoked = true WHERE id = sessionId] *)
Definition revoke_set (es : row) : result row :=
  Ok {| id := id es;
        user_id := user_id es;
        encrypted_session_token := encrypted_session_token es;
        created_at := created_at es;
        expires_at := expires_at es;
        revoked := Some true;
        last_used_at := last_used_at es;
        use_count := use_count es |}.

Definition update_revoked (tbl : table) (p_session_id : uuid) : result table :=
  update (id_is p_session_id) revoke_set (fun es => es) tbl.

(** ** Calls made by the server *)

Inductive call : Type :=
| GetActiveSession (p_user_id : uuid)
| RecordSessionUsage (p_session_id : uuid)
| CleanupExpiredSessions
| RevokeSession (p_session_id : uuid).

Definition exec (now : timestamptz) (c : call) (tbl : table) : table :=
  match c with
  | GetActiveSession _ => tbl
  | RecordSessionUsage sid => commit tbl (record_session_usage tbl now sid)
  | CleanupExpiredSessions => fst (cleanup_expired_sessions tbl now)
  | RevokeSession sid => commit tbl (update_revoked tbl sid)
  end.

Fixpoint run (calls : list (timestamptz * call)) (tbl : table) : table :=
  match calls with
  | [] => tbl
  | (now, c) :: rest => run rest (exec now c tbl)
  end.

End ExecutionSessions.

(* ===================================================================== *)
(** * JavaScript values, exceptions and byte arrays *)
(* ===================================================================== *)

Module Js.

(** The values [JSON.parse] produces, [undefined], and the built-in
    functions, each known by its [name]; a number is an IEEE 754
    double. *)
#[warnings="-register-all"]
Inductive value : Type :=
| Undefined
| Null
| Bool (b : bool)
| Num (x : float)
| Str (s : string)
| Arr (items : list value)
| Obj (props : list (string * value))
| Fun (name : string).

(** What a [throw] carries: an [Error] object with its message; an
    [EdgeFunctionError] of [_shared/errors.ts] (or of a subclass), which
    adds a code and a status; or a value that is no [Error]. *)
Inductive thrown : Type :=
| Error (name message : string)
| EdgeFunctionError (name message code : string) (statusCode : Z)
| NotAnError (v : value).

Definition TypeError (message : string) : thrown := Error "TypeError" message.
Definition RangeError (message : string) : thrown := Error "RangeError" message.

(** [e instanceof Error ? e.message : 'Unknown error'] *)
Definition message_or_unknown (e : thrown) : string :=
  match e with
  | Error _ message => message
  | EdgeFunctionError _ message _ _ => message
  | NotAnError _ => "Unknown error"
  end.

(** The completion of a function body, or of an awaited promise. *)
Inductive outcome (A : Type) : Type :=
| Return (a : A)
| Throw (e : thrown).
Arguments Return {A} a.
Arguments Throw {A} e.

Definition bind {A B} (m : outcome A) (k : A -> outcome B) : outcome B :=
  match m with
  | Return a => k a
  | Throw e => Throw e
  end.

(** [try { body } catch (e) { handler }] *)
Definition try_catch {A} (body : outcome A) (handler : thrown -> outcome A) : outcome A :=
  match body with
  | Return a => Return a
  | Throw e => handler e
  end.

(** ToBoolean *)
Definition truthy (v : value) : bool :=
  match v with
  | Undefined | Null => false
  | Bool b => b
  | Num x => negb (PrimFloat.eqb x 0 || PrimFloat.is_nan x)
  | Str s => negb (String.eqb s "")
  | Arr _ | Obj _ | Fun _ => true
  end.

Fixpoint lookup (k : string) (props : list (string * value)) : value :=
  match props with
  | [] => Undefined
  | (k', v) :: rest => if String.eqb k' k then v else lookup k rest
  end.

Definition has_own (k : string) (props : list (string * value)) : bool :=
  existsb (fun kv => String.eqb (fst kv) k) props.

(** [v?.k], for a name [k] that no built-in prototype defines (every
    name the code below reads is one): the own property of an object,
    the [name] of a function, and [undefined] on any other value. *)
Definition opt_prop (v : value) (k : string) : value :=
  match v with
  | Obj props => lookup k props
  | Fun name => if String.eqb k "name" then Str name else Undefined
  | _ => Undefined
  end.

(** The message of the [TypeError] of V8 for [v.k] on [undefined] and
    on [null]. *)
Definition cannot_read (v : value) (k : string) : string :=
  ("Cannot read properties of "
     ++ match v with
        | Null => "null"
        | _ => "undefined"
        end
     ++ " (reading '" ++ k ++ "')")%string.

(** [v.k], for such a name: as [v?.k], but a [TypeError] on
    [undefined] and [null]. *)
Definition prop (v : value) (k : string) : outcome value :=
  match v with
  | Undefined | Null => Throw (TypeError (cannot_read v k))
  | _ => Return (opt_prop v k)
  end.

(** [v?.[0]] *)
Definition opt_first (v : value) : value :=
  match v with
  | Arr (x :: _) => x
  | Str (String c _) => Str (String c "")
  | Obj props => lookup "0" props
  | _ => Undefined
  end.

(** [v === s] for a string [s] *)
Definition is_string (v : value) (s : string) : bool :=
  match v with
  | Str t => String.eqb t s
  | _ => false
  end.

(** [v === x] for a number [x] *)
Definition is_number (v : value) (x : float) : bool :=
  match v with
  | Num y => PrimFloat.eqb y x
  | _ => false
  end.

(** [v !== undefined] *)
Definition defined (v : value) : bool :=
  match v with
  | Undefined => false
  | _ => true
  end.

(** A number that holds an integer (exact below 2^53). *)
Definition number_of_Z (z : Z) : float :=
  if z <? 0
  then PrimFloat.opp (PrimFloat.of_uint63 (Uint63.of_Z (- z)))
  else PrimFloat.of_uint63 (Uint63.of_Z z).

Section ToString.

(** [Number.prototype.toString], of the engine. *)
Variable number_to_string : float -> string.

(** ToString of an array element inside [join]. *)
Definition joined (to_string : value -> outcome string) (v : value) : outcome string :=
  match v with
  | Undefined | Null => Return ""
  | _ => to_string v
  end.

(** ToString.  An object from [JSON.parse] that has a [toString]
    property of its own has one that cannot be called, and [valueOf]
    gives no primitive value: ToPrimitive throws. *)
Fixpoint ToString (v : value) : outcome string :=
  match v with
  | Undefined => Return "undefined"
  | Null => Return "null"
  | Bool true => Return "true"
  | Bool false => Return "false"
  | Num x => Return (number_to_string x)
  | Str s => Return s
  | Arr items =>
      (fix join (l : list value) : outcome string :=
         match l with
         | [] => Return ""
         | [x] => joined ToString x
         | x :: rest =>
             bind (joined ToString x) (fun a =>
             bind (join rest) (fun b =>
             Return (a ++ "," ++ b)%string))
         end) items
  | Obj props =>
      if has_own "toString" props
      then Throw (TypeError "Cannot convert object to primitive value")
      else Return "[object Object]"
  | Fun name => Return ("function " ++ name ++ "() { [native code] }")%string
  end.

(** [v.toString()], the call written [callee] in the source, for [v]
    other than [undefined] and [null]: a [toString] property of the
    object's own cannot be called. *)
Definition to_string (callee : string) (v : value) : outcome string :=
  match v with
  | Undefined | Null => Throw (TypeError (cannot_read v "toString"))
  | Obj props =>
      if has_own "toString" props
      then Throw (TypeError (callee ++ " is not a function"))
      else Return "[object Object]"
  | _ => ToString v
  end.

(** [v?.toString()] *)
Definition opt_to_string (callee : string) (v : value) : outcome value :=
  match v with
  | Undefined | Null => Return Undefined
  | _ => bind (to_string callee v) (fun s => Return (Str s))
  end.

End ToString.

(** ** Typed arrays *)

(** The relative index of [TypedArray.prototype.slice]. *)
Definition relative_index (len i : Z) : Z :=
  if i <? 0 then Z.max (len + i) 0 else Z.min i len.

(** [array.slice(start, stop)]; [stop] may be left out. *)
Definition slice {A} (start : Z) (stop : option Z) (array : list A) : list A :=
  let len := Z.of_nat (length array) in
  let k := relative_index len start in
  let final := match stop with
               | None => len
               | Some e => relative_index len e
               end in
  let count := Z.max (final - k) 0 in
  firstn (Z.to_nat count) (skipn (Z.to_nat k) array).

(** [buffer.writeBigUInt64BE(BigInt(n), 0)] on [Buffer.alloc(8)]: the
    eight bytes of [n], most significant first; a [RangeError] outside
    of [0 .. 2^64 - 1]. *)
Definition byte_at (n : Z) (i : Z) : byte :=
  match Byte.of_N (Z.to_N (Z.land (Z.shiftr n (8 * i)) 255)) with
  | Some b => b
  | None => Byte.x00
  end.

Definition writeBigUInt64BE (n : Z) : outcome (list byte) :=
  if (0 <=? n) && (n <? 2 ^ 64)
  then Return (map (byte_at n) [7; 6; 5; 4; 3; 2; 1; 0])
  else Throw (RangeError "The value of value is out of range").

End Js.

(* ===================================================================== *)
(** * Keccak-256 and MessagePack

    The adapter takes its digest from [ethers] and its encoder from
    [msgpack-lite]; the properties below hold whatever the two compute.
    The instances at the end of the file run the adapter on the functions
    of this section, written after the Keccak and MessagePack
    specifications. *)
(* ===================================================================== *)

Module Keccak.

Definition lane_mask : Z := 2 ^ 64 - 1.

Definition rotl (x n : Z) : Z :=
  Z.land (Z.lor (Z.shiftl x n) (Z.shiftr x (64 - n))) lane_mask.

(** The state is its 25 lanes, lane [(x, y)] at position [x + 5 y]. *)
Definition lane (st : list Z) (x y : Z) : Z :=
  nth (Z.to_nat (x mod 5 + 5 * (y mod 5))) st 0.

Definition coordinates : list (Z * Z) :=
  flat_map (fun y => map (fun x => (x, y)) [0; 1; 2; 3; 4]) [0; 1; 2; 3; 4].

Definition rotation_offsets : list Z :=
  [ 0;  1; 62; 28; 27;
   36; 44;  6; 55; 20;
    3; 10; 43; 25; 39;
   41; 45; 15; 21;  8;
   18;  2; 61; 56; 14].

Definition round_constants : list Z :=
  [0x0000000000000001; 0x0000000000008082; 0x800000000000808A;
   0x8000000080008000; 0x000000000000808B; 0x0000000080000001;
   0x8000000080008081; 0x8000000000008009; 0x000000000000008A;
   0x0000000000000088; 0x0000000080008009; 0x000000008000000A;
   0x000000008000808B; 0x800000000000008B; 0x8000000000008089;
   0x8000000000008003; 0x8000000000008002; 0x8000000000000080;
   0x000000000000800A; 0x800000008000000A; 0x8000000080008081;
   0x8000000000008080; 0x0000000080000001; 0x8000000080008008].

Definition theta (st : list Z) : list Z :=
  let C x := fold_left Z.lxor (map (lane st x) [0; 1; 2; 3; 4]) 0 in
  let D x := Z.lxor (C (x - 1)) (rotl (C (x + 1)) 1) in
  map (fun '(x, y) => Z.lxor (lane st x y) (D x)) coordinates.

(** [B[y, 2x + 3y] = rotl A[x, y] r[x, y]]: lane [(X, Y)] of the result
    comes from [x = X + 3 Y] and [y = X]. *)
Definition rho_pi (st : list Z) : list Z :=
  map (fun '(X, Y) =>
         let x := (X + 3 * Y) mod 5 in
         let y := X in
         rotl (lane st x y) (nth (Z.to_nat (x + 5 * y)) rotation_offsets 0))
      coordinates.

Definition chi (st : list Z) : list Z :=
  map (fun '(x, y) =>
         Z.lxor (lane st x y)
                (Z.land (Z.lxor (lane st (x + 1) y) lane_mask)
                        (lane st (x + 2) y)))
      coordinates.

Definition iota (rc : Z) (st : list Z) : list Z :=
  match st with
  | [] => []
  | a :: rest => Z.lxor a rc :: rest
  end.

Definition round (st : list Z) (rc : Z) : list Z :=
  iota rc (chi (rho_pi (theta st))).

Definition keccak_f (st : list Z) : list Z :=
  fold_left round round_constants st.

(** 1088 bits of rate, 512 of capacity. *)
Definition rate : nat := 136.

Definition byte_value (b : byte) : Z := Z.of_N (Byte.to_N b).

Definition byte_of_Z (z : Z) : byte :=
  match Byte.of_N (Z.to_N (Z.land z 255)) with
  | Some b => b
  | None => x00
  end.

(** The lanes of a block, least significant byte first. *)
Fixpoint lanes_of (count : nat) (block : list Z) : list Z :=
  match count with
  | O => []
  | S count' =>
      fold_right (fun b acc => b + 256 * acc) 0 (firstn 8 block)
      :: lanes_of count' (skipn 8 block)
  end.

Definition absorb (st : list Z) (block : list Z) : list Z :=
  keccak_f (map (fun '(a, b) => Z.lxor a b) (combine st (lanes_of 25 block))).

(** pad10*1 after the Keccak suffix: [0x01 ... 0x80]. *)
Definition pad (message : list Z) : list Z :=
  let q := (rate - (length message mod rate))%nat in
  if Nat.eqb q 1 then message ++ [0x81]
  else message ++ [0x01] ++ repeat 0 (q - 2) ++ [0x80].

Fixpoint absorb_all (fuel : nat) (st : list Z) (padded : list Z) : list Z :=
  match fuel with
  | O => st
  | S fuel' =>
      match padded with
      | [] => st
      | _ => absorb_all fuel' (absorb st (firstn rate padded)) (skipn rate padded)
      end
  end.

Definition lane_bytes (l : Z) : list byte :=
  map (fun i => byte_of_Z (Z.shiftr l (8 * i))) [0; 1; 2; 3; 4; 5; 6; 7].

Definition keccak256 (message : list byte) : list byte :=
  let padded := pad (map byte_value message) in
  let st := absorb_all (S (length padded)) (repeat 0 25) padded in
  flat_map lane_bytes (firstn 4 st).

Definition hex_digit_of (n : Z) : ascii :=
  nth (Z.to_nat n) (list_ascii_of_string "0123456789abcdef") "0"%char.

Definition hex (bytes : list byte) : string :=
  string_of_list_ascii
    (flat_map (fun b => [hex_digit_of (byte_value b / 16);
                         hex_digit_of (byte_value b mod 16)]) bytes).

(** [ethers.keccak256]: the digest as a [0x] string. *)
Definition keccak256_hex (message : list byte) : string :=
  ("0x" ++ hex (keccak256 message))%string.

End Keccak.

Module MessagePack.
Import Js.

Definition big_endian (width : nat) (n : Z) : list byte :=
  map (fun i => Keccak.byte_of_Z (Z.shiftr n (8 * Z.of_nat i))) (rev (seq 0 width)).

(** The integer a number holds, if it holds one. *)
Definition integer_of (x : float) : option Z :=
  match Prim2SF x with
  | S754_zero _ => Some 0
  | S754_finite sign m e =>
      let magnitude :=
        if 0 <=? e then Some (Z.pos m * 2 ^ e)
        else if Z.pos m mod 2 ^ (- e) =? 0 then Some (Z.pos m / 2 ^ (- e))
        else None in
      option_map (fun z => if sign then - z else z) magnitude
  | _ => None
  end.

(** The 64 bits of a double. *)
Definition double_bits (x : float) : Z :=
  let sign_bit (sign : bool) := if sign then 2 ^ 63 else 0 in
  match Prim2SF x with
  | S754_zero sign => sign_bit sign
  | S754_infinity sign => sign_bit sign + 2047 * 2 ^ 52
  | S754_nan => 2047 * 2 ^ 52 + 2 ^ 51
  | S754_finite sign m e =>
      if 2 ^ 52 <=? Z.pos m
      then sign_bit sign + (e + 1075) * 2 ^ 52 + (Z.pos m - 2 ^ 52)
      else sign_bit sign + Z.pos m
  end.

(** A number that [value | 0] keeps, an integer of 32 bits with its
    sign, goes out as the shortest integer; any other number, the
    integers from 2^31 on among them, as a float 64. *)
Definition encode_number (x : float) : list byte :=
  match integer_of x with
  | Some i =>
      if (-32 <=? i) && (i <=? 127) then big_endian 1 i
      else if (128 <=? i) && (i <=? 255) then xcc :: big_endian 1 i
      else if (256 <=? i) && (i <=? 65535) then xcd :: big_endian 2 i
      else if (65536 <=? i) && (i <=? 2147483647) then xce :: big_endian 4 i
      else if (-128 <=? i) && (i <? -32) then xd0 :: big_endian 1 i
      else if (-32768 <=? i) && (i <? -128) then xd1 :: big_endian 2 i
      else if (-2147483648 <=? i) && (i <? -32768) then xd2 :: big_endian 4 i
      else xcb :: big_endian 8 (double_bits x)
  | None => xcb :: big_endian 8 (double_bits x)
  end.

Definition header (fix_base : Z) (fix_limit : Z) (wide : list byte)
           (count : nat) : list byte :=
  let n := Z.of_nat count in
  if n <? fix_limit then big_endian 1 (fix_base + n)
  else
    match wide with
    | [w8; w16; w32] =>
        if n <? 256 then w8 :: big_endian 1 n
        else if n <? 65536 then w16 :: big_endian 2 n
        else w32 :: big_endian 4 n
    | [w16; w32] =>
        if n <? 65536 then w16 :: big_endian 2 n
        else w32 :: big_endian 4 n
    | _ => []
    end.

Definition encode_string (str : string) : list byte :=
  let bytes := list_byte_of_string str in
  header 160 32 [xd9; xda; xdb] (length bytes) ++ bytes.

(** [undefined] and a function go out as nil, like [null]; an object
    keeps every key, in order. *)
Fixpoint encode (v : value) : list byte :=
  match v with
  | Undefined | Null | Fun _ => [xc0]
  | Bool false => [xc2]
  | Bool true => [xc3]
  | Num x => encode_number x
  | Str str => encode_string str
  | Arr items =>
      header 144 16 [xdc; xdd] (length items)
        ++ (fix each (l : list value) : list byte :=
              match l with
              | [] => []
              | x :: rest => encode x ++ each rest
              end) items
  | Obj props =>
      header 128 16 [xde; xdf] (length props)
        ++ (fix each (l : list (string * value)) : list byte :=
              match l with
              | [] => []
              | (k, x) :: rest => encode_string k ++ encode x ++ each rest
              end) props
  end.

End MessagePack.

(** Base64, as [atob] and [btoa] of the web platform read and write it;
    it serves the instances, like the two modules above. *)

Module Base64.

Definition alphabet : list ascii :=
  list_ascii_of_string
    "ABCDEFGHIJKLMNOPQRSTUVWXYZabcdefghijklmnopqrstuvwxyz0123456789+/".

Fixpoint position (c : ascii) (l : list ascii) (i : Z) : option Z :=
  match l with
  | [] => None
  | x :: rest => if Ascii.eqb x c then Some i else position c rest (i + 1)
  end.

Fixpoint sextets (text : list ascii) : option (list Z) :=
  match text with
  | [] => Some []
  | c :: rest =>
      match position c alphabet 0, sextets rest with
      | Some v, Some vs => Some (v :: vs)
      | _, _ => None
      end
  end.

Fixpoint octets (fuel : nat) (l : list Z) : list Z :=
  match fuel, l with
  | S fuel', a :: b :: c :: d :: rest =>
      let n := ((a * 64 + b) * 64 + c) * 64 + d in
      n / 65536 :: (n / 256) mod 256 :: n mod 256 :: octets fuel' rest
  | _, [a; b; c] =>
      let n := ((a * 64 + b) * 64 + c) * 64 in
      [n / 65536; (n / 256) mod 256]
  | _, [a; b] =>
      let n := (a * 64 + b) * 4096 in
      [n / 65536]
  | _, _ => []
  end.

Definition is_space (c : ascii) : bool :=
  existsb (N.eqb (N_of_ascii c)) [9; 10; 12; 13; 32]%N.

Definition strip_padding (text : list ascii) : list ascii :=
  if Nat.eqb (length text mod 4) 0
  then match rev text with
       | "="%char :: "="%char :: rest => rev rest
       | "="%char :: rest => rev rest
       | _ => text
       end
  else text.

(** Forgiving decoding: [None] is the [InvalidCharacterError]. *)
Definition decode (text : string) : option (list byte) :=
  let stripped :=
    strip_padding (filter (fun c => negb (is_space c)) (list_ascii_of_string text)) in
  if Nat.eqb (length stripped mod 4) 1 then None
  else option_map (fun vs => map Keccak.byte_of_Z (octets (length vs) vs))
                  (sextets stripped).

Definition letter (v : Z) : ascii := nth (Z.to_nat v) alphabet "="%char.

Fixpoint encode_octets (fuel : nat) (l : list Z) : list ascii :=
  match fuel, l with
  | S fuel', a :: b :: c :: rest =>
      let n := (a * 256 + b) * 256 + c in
      letter (n / 262144) :: letter ((n / 4096) mod 64)
        :: letter ((n / 64) mod 64) :: letter (n mod 64) :: encode_octets fuel' rest
  | _, [a; b] =>
      let n := (a * 256 + b) * 256 in
      [letter (n / 262144); letter ((n / 4096) mod 64); letter ((n / 64) mod 64); "="%char]
  | _, [a] =>
      let n := a * 65536 in
      [letter (n / 262144); letter ((n / 4096) mod 64); "="%char; "="%char]
  | _, _ => []
  end.

Definition encode (bytes : list byte) : string :=
  string_of_list_ascii (encode_octets (length bytes) (map Keccak.byte_value bytes)).

End Base64.

(* ===================================================================== *)
(** * functions/_shared/hyperliquid-adapter.ts *)
(* ===================================================================== *)

Module HyperliquidAdapter.
Import Js.

Definition IS_MAINNET : bool := false.
Definition API_URL : string := "https://api.hyperliquid-testnet.xyz/exchange".
Definition INFO_URL : string := "https://api.hyperliquid-testnet.xyz/info".

Record OrderOptions : Type := mkOptions {
  orderType : option string;
  price : option float;
  reduceOnly : option bool;
  cloid : option string
}.

Record TradeResult : Type := mkResult {
  success : bool;
  orderId : option string;
  error : option value;
  filledSize : option float;
  filledPrice : option float
}.

(** ** What the module imports *)

Record request : Type := mkRequest {
  url : string;
  method : string;
  headers : list (string * string);
  body : string
}.

(** A [Response]: [text()] and [json()] are promises that may reject. *)
Record response : Type := mkResponse {
  ok : bool;
  status : Z;
  text : outcome string;
  json : outcome value
}.

Record TypedDataDomain : Type := mkDomain {
  name : string;
  version : string;
  chainId : Z;
  verifyingContract : string
}.

Record PhantomAgent : Type := mkAgent {
  source : string;
  connectionId : string
}.

Record Signature : Type := mkSignature {
  r : string;
  s : string;
  v : float
}.

(** [ethers], [msgpack-lite], [fetch], [JSON], the clock and
    [Object.prototype], as one call of the adapter finds them.
    [Object_prototype name] is the member that an object literal
    inherits under [name], and [undefined] when there is none. *)
Record Platform (Wallet : Type) : Type := mkPlatform {
  msgpack_encode : value -> list byte;
  keccak256 : list byte -> string;
  signTypedData :
    Wallet -> TypedDataDomain -> list (string * list (string * string)) ->
    PhantomAgent -> outcome string;
  Signature_from : string -> outcome Signature;
  fetch : request -> outcome response;
  JSON_stringify : value -> string;
  toFixed : float -> Z -> string;
  number_to_string : float -> string;
  Date_now : Z;
  Object_prototype : string -> value
}.
Arguments msgpack_encode {Wallet} _ _.
Arguments keccak256 {Wallet} _ _.
Arguments signTypedData {Wallet} _ _ _ _ _.
Arguments Signature_from {Wallet} _ _.
Arguments fetch {Wallet} _ _.
Arguments JSON_stringify {Wallet} _ _.
Arguments toFixed {Wallet} _ _ _.
Arguments number_to_string {Wallet} _ _.
Arguments Date_now {Wallet} _.
Arguments Object_prototype {Wallet} _ _.

(** The decimal digits of an integer. *)
Definition decimal (z : Z) : string :=
  DecimalString.NilZero.string_of_int (Z.to_int z).

(** [s.replace(/\.?0+$/, '')]: the leftmost match takes every trailing
    zero and the point before them, if there is one. *)
Fixpoint drop_zeros (reversed : list ascii) : list ascii :=
  match reversed with
  | "0"%char :: rest => drop_zeros rest
  | _ => reversed
  end.

Definition strip_trailing_zeros (str : string) : string :=
  match rev (list_ascii_of_string str) with
  | "0"%char :: rest =>
      match drop_zeros rest with
      | "."%char :: before => string_of_list_ascii (rev before)
      | kept => string_of_list_ascii (rev kept)
      end
  | _ => str
  end.

Section Adapter.

Context {Wallet : Type}.
Variable P : Platform Wallet.

(** ** Helpers *)

Definition asset_map : list (string * float) :=
  [("BTC", 0%float); ("ETH", 1%float); ("SOL", 4%float)].

Fixpoint own_entry (coin : string) (map : list (string * float)) : option float :=
  match map with
  | [] => None
  | (k, i) :: rest => if String.eqb k coin then Some i else own_entry coin rest
  end.

(** [universe.find((a) => a.name === coin)] followed by
    [universe.indexOf(asset)]: [find] stops at the first element whose
    [name] is the coin, and that element, an object of the parsed
    array, sits at that position and nowhere before it.  Reading
    [name] of a [null] element throws. *)
Fixpoint find_index (coin : string) (universe : list value) (index : Z)
  : outcome (option Z) :=
  match universe with
  | [] => Return None
  | a :: rest =>
      bind (prop a "name") (fun a_name =>
      if is_string a_name coin
      then Return (Some index)
      else find_index coin rest (index + 1))
  end.

(** [map[coin]]: the entry of the literal, or else the member that
    the literal inherits under that name. *)
Definition map_entry (coin : string) : value :=
  match own_entry coin asset_map with
  | Some index => Num index
  | None => Object_prototype P coin
  end.

Definition getAssetIndex (coin : string) : outcome value :=
  if defined (map_entry coin)
  then Return (map_entry coin)
  else
    try_catch
      (bind (fetch P {| url := INFO_URL;
                        method := "POST";
                        headers := [];
                        body := JSON_stringify P (Obj [("type", Str "meta")]) |})
            (fun res =>
       bind (json res) (fun meta =>
       bind (prop meta "universe") (fun universe =>
       match universe with
       | Arr items =>
           bind (find_index coin items 0) (fun asset =>
           match asset with
           | Some index => Return (Num (number_of_Z index))
           | None => Return (Num (-1))
           end)
       | _ => Throw (TypeError "meta.universe.find is not a function")
       end))))
      (fun _ => Return (Num (-1))).

Definition floatToWire (x : float) : string :=
  if PrimFloat.eqb x 0 then "0"
  else strip_trailing_zeros (toFixed P x 8).

Definition actionHashFn (action : value) (vaultAddress : option string)
           (nonce : Z) : outcome string :=
  let data := msgpack_encode P action in
  bind (writeBigUInt64BE nonce) (fun nonceBuffer =>
  let data := data ++ nonceBuffer in
  let data :=
    match vaultAddress with
    | None => data ++ [x00]
    | Some _ => data ++ [x00] (* Placeholder *)
    end in
  Return (keccak256 P data)).

Definition exchange_domain : TypedDataDomain :=
  {| name := "Exchange";
     version := "1";
     chainId := 1337;
     verifyingContract := "0x0000000000000000000000000000000000000000" |}.

Definition agent_types : list (string * list (string * string)) :=
  [("Agent", [("source", "string"); ("connectionId", "bytes32")])].

Definition signL1Action (wallet : Wallet) (action : value)
           (vaultAddress : option string) (nonce : Z) : outcome Signature :=
  bind (actionHashFn action vaultAddress nonce) (fun actionHash =>
  let phantomAgent := {| source := "b"; connectionId := actionHash |} in
  bind (signTypedData P wallet exchange_domain agent_types phantomAgent) (fun sig =>
  bind (Signature_from P sig) (fun rsv =>
  Return {| r := r rsv; s := s rsv; v := v rsv |}))).

(** ** executeTrade *)

Definition order_action (assetIndex : value) (isBuy : bool)
           (size price : float) (options : OrderOptions) : value :=
  Obj [("type", Str "order");
       ("orders",
        Arr [Obj [("a", assetIndex);
                  ("b", Bool isBuy);
                  ("p", Str (floatToWire price));
                  ("s", Str (floatToWire size));
                  ("r", Bool (match reduceOnly options with
                              | Some true => true
                              | _ => false
                              end));
                  ("t", Obj [("limit", Obj [("tif", Str "Gtc")])]);
                  ("c", match cloid options with
                        | Some c => Str c
                        | None => Undefined
                        end)]]);
       ("grouping", Str "na")].

Definition failed (message : value) : TradeResult :=
  {| success := false; orderId := None; error := Some message;
     filledSize := None; filledPrice := None |}.

Definition placed (oid : string) : TradeResult :=
  {| success := true; orderId := Some oid; error := None;
     filledSize := None; filledPrice := None |}.

Definition order_payload (action : value) (nonce : Z) (signature : Signature) : value :=
  Obj [("action", action);
       ("nonce", Num (number_of_Z nonce));
       ("signature", Obj [("r", Str (r signature));
                          ("s", Str (s signature));
                          ("v", Num (v signature))]);
       ("vaultAddress", Null)].

Definition order_request (payload : value) : request :=
  {| url := API_URL;
     method := "POST";
     headers := [("Content-Type", "application/json")];
     body := JSON_stringify P payload |}.

(** [data.response?.data?.statuses?.[0]] *)
Definition first_status (data_response : value) : value :=
  opt_first (opt_prop (opt_prop data_response "data") "statuses").

(** The callee of the call of [toString], as V8 prints it. *)
Definition oid_toString : string :=
  "data.response?.data?.statuses?.[0]?.resting?.oid?.toString".

(** [...?.resting?.oid?.toString() || 'filled'] *)
Definition shown_or_filled (oid_string : value) : string :=
  match oid_string with
  | Str shown => if truthy oid_string then shown else "filled"
  | _ => "filled"
  end.

Definition executeTrade (wallet : Wallet) (coin : string) (isBuy : bool)
           (size price : float) (options : OrderOptions) : outcome TradeResult :=
  try_catch
    (bind (getAssetIndex coin) (fun assetIndex =>
     if is_number assetIndex (-1)
     then Throw (Error "Error" ("Asset " ++ coin ++ " not found")%string)
     else
     let action := order_action assetIndex isBuy size price options in
     let nonce := Date_now P in
     bind (signL1Action wallet action None nonce) (fun signature =>
     let payload := order_payload action nonce signature in
     bind (fetch P (order_request payload)) (fun response =>
     if negb (ok response)
     then
       bind (text response) (fun txt =>
       Throw (Error "Error"
                    ("API Error: " ++ decimal (status response) ++ " " ++ txt)%string))
     else
     bind (json response) (fun data =>
     bind (prop data "status") (fun data_status =>
     if is_string data_status "ok"
     then
       bind (prop data "response") (fun data_response =>
       let status := first_status data_response in
       if truthy (opt_prop status "error")
       then Return (failed (opt_prop status "error"))
       else
         bind (opt_to_string (number_to_string P) oid_toString
                 (opt_prop (opt_prop (first_status data_response) "resting") "oid"))
              (fun oid_string =>
         Return (placed (shown_or_filled oid_string))))
     else
       bind (prop data "response") (fun data_response =>
       Return (failed (if truthy data_response
                       then data_response
                       else Str "Unknown error")))))))))
    (fun e => Return (failed (Str (message_or_unknown e)))).

End Adapter.

End HyperliquidAdapter.

(* ===================================================================== *)
(** * The data store as the edge functions reach it *)
(* ===================================================================== *)

Module Supabase.
Import Pg.

(** [encrypted_keys], with the [encrypted_password] column that the
    sessions migration adds. *)
Record key_row : Type := mkKey {
  key_id : uuid;
  key_user_id : uuid;
  key_name : string;
  encrypted_blob : string;
  encryption_salt : string;
  encryption_version : option Z;
  last_rotated_at : option timestamptz;
  public_address : option string;
  key_created_at : option timestamptz;
  encrypted_password : option string
}.

Record settings_row : Type := mkSettings {
  settings_id : uuid;
  settings_user_id : uuid;
  dealer_settings : option Js.value;
  trading_pairs : option (list string)
}.

Record database : Type := mkDatabase {
  encrypted_keys : list key_row;
  user_settings : list settings_row;
  execution_sessions : ExecutionSessions.table;
  cron_schedules : CronSchedules.table
}.

(** [Deno.env] *)
Record environment : Type := mkEnv {
  SUPABASE_URL : option string;
  SUPABASE_SERVICE_ROLE_KEY : option string;
  CRON_SECRET : option string;
  ENCRYPTION_SECRET : option string
}.

(** What the client sends. *)
Inductive request : Type :=
| SelectEncryptedPassword (user_id key : string)
| SelectEncryptedBlob (user_id key : string)
| SelectDealerSettings (user_id : string)
| UpdateRevoked (session_id : string)
| Rpc_get_active_session (p_user_id : string)
| Rpc_record_session_usage (p_session_id : string)
| Rpc_get_due_schedules
| Rpc_record_schedule_success (p_schedule_id : string)
| Rpc_record_schedule_error (p_schedule_id p_error : string).

(** What becomes of one request: the time that passes before the
    statement runs, whether the request is lost on the way (the client
    then reports an error and the store is not touched), and the time
    that passes before the answer is back. *)
Record fate : Type := mkFate {
  before : N;
  lost : bool;
  after : N
}.

Definition on_time : fate := {| before := 0; lost := false; after := 0 |}.

(** The world a function runs in: the store, the environment, the
    clock (in microseconds), the fates of the requests to come (a
    request beyond the list is on time), and the requests sent so far,
    oldest first. *)
Record world : Type := mkWorld {
  env : environment;
  db : database;
  clock : timestamptz;
  fates : list fate;
  sent : list request
}.

(** A function body: it returns or throws, and leaves a world. *)
Definition M (A : Type) : Type := world -> Js.outcome A * world.

Definition ret {A} (a : A) : M A := fun w => (Js.Return a, w).

Definition throw {A} (e : Js.thrown) : M A := fun w => (Js.Throw e, w).

Definition bind {A B} (m : M A) (k : A -> M B) : M B :=
  fun w =>
    match m w with
    | (Js.Return a, w') => k a w'
    | (Js.Throw e, w') => (Js.Throw e, w')
    end.

(** [try { body } catch (e) { handler }]: what the body did to the
    world before it threw stays done. *)
Definition try_catch {A} (body : M A) (handler : Js.thrown -> M A) : M A :=
  fun w =>
    match body w with
    | (Js.Return a, w') => (Js.Return a, w')
    | (Js.Throw e, w') => handler e w'
    end.

Definition lift {A} (o : Js.outcome A) : M A := fun w => (o, w).

Definition get_env : M environment := fun w => (Js.Return (env w), w).

(** [new Date()] and [Date.now()], in milliseconds. *)
Definition Date_now : M Z := fun w => (Js.Return (clock w / 1000), w).

(** The [{ data, error }] of a client call. *)
Record reply (A : Type) : Type := mkReply {
  data : option A;
  error : option string
}.
Arguments data {A} _.
Arguments error {A} _.
Arguments mkReply {A} _ _.

Definition with_db (d : database) (w : world) : world :=
  {| env := env w; db := d; clock := clock w; fates := fates w; sent := sent w |}.

(** One request: [statement] is what the store does with it at the
    time it arrives. *)
Definition send {A} (rq : request)
           (statement : database -> timestamptz -> result (A * database))
  : M (reply A) :=
  fun w =>
    let f := match fates w with
             | [] => on_time
             | f :: _ => f
             end in
    let arrival := clock w + Z.of_N (before f) in
    let answered (d : database) : world :=
      {| env := env w; db := d;
         clock := arrival + Z.of_N (after f);
         fates := tl (fates w);
         sent := sent w ++ [rq] |} in
    if lost f
    then (Js.Return {| data := None; error := Some "FetchError" |}, answered (db w))
    else
      match statement (db w) arrival with
      | Ok (a, d) => (Js.Return {| data := Some a; error := None |}, answered d)
      | Raise sqlstate =>
          (Js.Return {| data := None; error := Some sqlstate |}, answered (db w))
      end.

(** [.single()]: exactly one row, or the error [PGRST116]. *)
Definition single {A} (rows : list A) : result A :=
  match rows with
  | [row] => Ok row
  | _ => Raise "PGRST116"
  end.

(** [createSupabaseClient()] of [_shared/supabase.ts]. *)
Definition unset (variable : option string) : bool :=
  match variable with
  | None => true
  | Some value => String.eqb value ""
  end.

Definition createSupabaseClient : M unit :=
  bind get_env (fun e =>
  if unset (SUPABASE_URL e) || unset (SUPABASE_SERVICE_ROLE_KEY e)
  then throw (Js.Error "Error" "Missing SUPABASE_URL or SUPABASE_SERVICE_ROLE_KEY")
  else ret tt).

(** ** The statements of the requests *)

Definition key_of (user_id key : string) (k : key_row) : bool :=
  String.eqb (key_user_id k) user_id && String.eqb (key_name k) key.

(** [.from('encrypted_keys').select('encrypted_password')
      .eq('user_id', userId).eq('key_name', key).single()] *)
Definition select_encrypted_password (user_id key : string)
  : M (reply (option string)) :=
  send (SelectEncryptedPassword user_id key)
       (fun d _ =>
          row <- single (filter (key_of user_id key) (encrypted_keys d)) ;;
          Ok (encrypted_password row, d)).

(** [.from('encrypted_keys').select('encrypted_blob, encryption_salt')
      .eq('user_id', user_id).eq('key_name', key).single()] *)
Definition select_encrypted_blob (user_id key : string)
  : M (reply (string * string)) :=
  send (SelectEncryptedBlob user_id key)
       (fun d _ =>
          row <- single (filter (key_of user_id key) (encrypted_keys d)) ;;
          Ok ((encrypted_blob row, encryption_salt row), d)).

(** [.from('user_settings').select('dealer_settings')
      .eq('user_id', user_id).single()] *)
Definition select_dealer_settings (user_id : string)
  : M (reply (option Js.value)) :=
  send (SelectDealerSettings user_id)
       (fun d _ =>
          row <- single (filter (fun s => String.eqb (settings_user_id s) user_id)
                                (user_settings d)) ;;
          Ok (dealer_settings row, d)).

Definition with_sessions (d : database) (t : ExecutionSessions.table) : database :=
  {| encrypted_keys := encrypted_keys d; user_settings := user_settings d;
     execution_sessions := t; cron_schedules := cron_schedules d |}.

Definition with_schedules (d : database) (t : CronSchedules.table) : database :=
  {| encrypted_keys := encrypted_keys d; user_settings := user_settings d;
     execution_sessions := execution_sessions d; cron_schedules := t |}.

(** [.from('execution_sessions').update({ revoked: true }).eq('id', id)] *)
Definition update_revoked (session_id : string) : M (reply unit) :=
  send (UpdateRevoked session_id)
       (fun d _ =>
          t <- ExecutionSessions.update_revoked (execution_sessions d) session_id ;;
          Ok (tt, with_sessions d t)).

Definition rpc_get_active_session (p_user_id : string)
  : M (reply (list ExecutionSessions.active_session)) :=
  send (Rpc_get_active_session p_user_id)
       (fun d now =>
          Ok (ExecutionSessions.get_active_session (execution_sessions d) p_user_id now, d)).

Definition rpc_record_session_usage (p_session_id : string) : M (reply unit) :=
  send (Rpc_record_session_usage p_session_id)
       (fun d now =>
          t <- ExecutionSessions.record_session_usage (execution_sessions d) now p_session_id ;;
          Ok (tt, with_sessions d t)).

Definition rpc_get_due_schedules : M (reply (list CronSchedules.due_schedule)) :=
  send Rpc_get_due_schedules
       (fun d now => Ok (CronSchedules.get_due_schedules (cron_schedules d) now, d)).

Definition rpc_record_schedule_success (p_schedule_id : string) : M (reply unit) :=
  send (Rpc_record_schedule_success p_schedule_id)
       (fun d now =>
          t <- CronSchedules.record_schedule_success (cron_schedules d) now p_schedule_id ;;
          Ok (tt, with_schedules d t)).

Definition rpc_record_schedule_error (p_schedule_id p_error : string) : M (reply unit) :=
  send (Rpc_record_schedule_error p_schedule_id p_error)
       (fun d now =>
          t <- CronSchedules.record_schedule_error (cron_schedules d) now
                 p_schedule_id p_error ;;
          Ok (tt, with_schedules d t)).

End Supabase.

(* ===================================================================== *)
(** * functions/_shared/execution-session.ts *)
(* ===================================================================== *)

Module ExecutionSession.
Import Js Supabase.

(** [atob], [crypto.subtle], [TextDecoder] and [JSON.parse].
    [aes_gcm_decrypt key iv ciphertext] imports the raw key for AES-GCM
    and decrypts with it; [pbkdf2_sha256 secret salt iterations]
    imports the secret and derives the AES-GCM key of 256 bits.  Text
    is kept in UTF-8, so [TextEncoder] changes nothing. *)
Record WebPlatform : Type := mkWeb {
  atob : string -> outcome string;
  aes_gcm_decrypt : list byte -> list byte -> list byte -> outcome (list byte);
  pbkdf2_sha256 : list byte -> list byte -> Z -> outcome (list byte);
  text_decode : list byte -> string;
  JSON_parse : string -> outcome value
}.

Record SessionValidationResult : Type := mkValidation {
  valid : bool;
  password : value;
  error : option string;
  sessionId : option string
}.

Inductive tier : Type := session | persistent | none.

Record ExecutionPassword : Type := mkPassword {
  resolved_password : value;
  resolved_tier : tier;
  resolved_error : option string
}.

Definition invalid (message : string) : SessionValidationResult :=
  {| valid := false; password := Undefined; error := Some message;
     sessionId := None |}.

Section Custodian.

Variable W : WebPlatform.

(** [Uint8Array.from(atob(text), c => c.charCodeAt(0))] *)
Definition decode_base64 (text : string) : outcome (list byte) :=
  Js.bind (atob W text) (fun binary => Return (list_byte_of_string binary)).

(** Session token format: Base64(IV + Encrypted(JSON(payload)) +
    ExportedKey).  The result is the payload, or [null]. *)
Definition decryptSessionToken (encryptedToken : string) : value :=
  match
    Js.bind (decode_base64 encryptedToken) (fun combined =>
    let iv := slice 0 (Some 12) combined in
    let keyBytes := slice (-32) None combined in
    let ciphertext := slice 12 (Some (-32)) combined in
    Js.bind (aes_gcm_decrypt W keyBytes iv ciphertext) (fun decrypted =>
    let payloadStr := text_decode W decrypted in
    JSON_parse W payloadStr))
  with
  | Return payload => payload
  | Throw _ => Null
  end.

Definition server_secret (e : environment) : string :=
  match ENCRYPTION_SECRET e with
  | Some secret => if String.eqb secret "" then "server-managed-key-placeholder" else secret
  | None => "server-managed-key-placeholder"
  end.

(** The body of [decryptStoredPassword], given the environment: the
    stored password, or [null] ([None]). *)
Definition decrypt_stored (e : environment) (encryptedPassword : string)
  : option string :=
  match
    Js.bind (decode_base64 encryptedPassword) (fun combined =>
    let iv := slice 0 (Some 12) combined in
    let ciphertext := slice 12 None combined in
    let serverSecret := server_secret e in
    let salt := list_byte_of_string "autonomousvault-persistent-key-v1" in
    Js.bind (pbkdf2_sha256 W (list_byte_of_string serverSecret) salt 100000) (fun key =>
    Js.bind (aes_gcm_decrypt W key iv ciphertext) (fun decrypted =>
    Return (text_decode W decrypted))))
  with
  | Return stored => Some stored
  | Throw _ => None
  end.

Definition decryptStoredPassword (encryptedPassword : string) : M (option string) :=
  Supabase.bind get_env (fun e => ret (decrypt_stored e encryptedPassword)).

Definition validateExecutionSession (userId : string) : M SessionValidationResult :=
  Supabase.try_catch
    (Supabase.bind createSupabaseClient (fun supabase =>
     Supabase.bind (rpc_get_active_session userId) (fun answer =>
     match Supabase.error answer with
     | Some _ => ret (invalid "Failed to check session")
     | None =>
         match data answer with
         | None | Some [] => ret (invalid "No active session found")
         | Some (first :: _) =>
             let expiresAt := ExecutionSessions.active_expires_at first / 1000 in
             Supabase.bind Date_now (fun now =>
             if expiresAt <? now
             then ret (invalid "Session expired")
             else
               let payload := decryptSessionToken (ExecutionSessions.active_token first) in
               if negb (truthy payload)
               then ret (invalid "Failed to decrypt session")
               else
                 Supabase.bind (lift (prop payload "userId")) (fun payload_userId =>
                 if negb (is_string payload_userId userId)
                 then ret (invalid "Session user mismatch")
                 else
                   Supabase.bind (rpc_record_session_usage
                                    (ExecutionSessions.session_id first)) (fun _ =>
                   Supabase.bind (lift (prop payload "password")) (fun payload_password =>
                   ret {| valid := true;
                          password := payload_password;
                          error := None;
                          sessionId := Some (ExecutionSessions.session_id first) |}))))
         end
     end)))
    (fun e => ret (invalid (message_or_unknown e))).

(** The part of [getExecutionPassword] after the block of Tier C:
    [// Check for Tier B (session)]. *)
Definition check_tier_b (userId : string) : M ExecutionPassword :=
  Supabase.bind (validateExecutionSession userId) (fun sessionResult =>
  if valid sessionResult && truthy (password sessionResult)
  then ret {| resolved_password := password sessionResult;
              resolved_tier := session;
              resolved_error := None |}
  else ret {| resolved_password := Null;
              resolved_tier := none;
              resolved_error :=
                Some (match error sessionResult with
                      | Some message =>
                          if String.eqb message ""
                          then "No valid session or stored password"
                          else message
                      | None => "No valid session or stored password"
                      end) |}).

Definition getExecutionPassword (userId : string) : M ExecutionPassword :=
  Supabase.try_catch
    (Supabase.bind createSupabaseClient (fun supabase =>
     (* First check for Tier C (persistent password) *)
     Supabase.bind (select_encrypted_password userId "hyperliquid") (fun keyAnswer =>
     match Supabase.error keyAnswer, data keyAnswer with
     | None, Some (Some encrypted) =>
         if String.eqb encrypted "" then check_tier_b userId
         else
           Supabase.bind (decryptStoredPassword encrypted) (fun stored =>
           match stored with
           | Some stored_password =>
               if String.eqb stored_password "" then check_tier_b userId
               else ret {| resolved_password := Str stored_password;
                           resolved_tier := persistent;
                           resolved_error := None |}
           | None => check_tier_b userId
           end)
     | _, _ => check_tier_b userId
     end)))
    (fun e => ret {| resolved_password := Null;
                     resolved_tier := none;
                     resolved_error := Some (message_or_unknown e) |}).

(** [true] when the update went through. *)
Definition revokeSession (sessionId : string) : M bool :=
  Supabase.try_catch
    (Supabase.bind createSupabaseClient (fun supabase =>
     Supabase.bind (Supabase.update_revoked sessionId) (fun answer =>
     ret (match Supabase.error answer with
          | Some _ => false
          | None => true
          end))))
    (fun _ => ret false).

Definition hasExecutionCapability (userId : string) : M (bool * tier) :=
  Supabase.bind (getExecutionPassword userId) (fun result =>
  ret (match resolved_password result with
       | Null => false
       | _ => true
       end,
       resolved_tier result)).

End Custodian.

End ExecutionSession.

(* ===================================================================== *)
(** * functions/_shared/errors.ts and functions/cron-trigger/index.ts *)
(* ===================================================================== *)

Module Errors.
Import Js.

Record handled : Type := mkHandled {
  message : string;
  code : string;
  statusCode : Z
}.

(** [handleError(error)] *)
Definition handleError (e : thrown) : handled :=
  match e with
  | EdgeFunctionError _ error_message error_code error_status =>
      {| message := error_message; code := error_code; statusCode := error_status |}
  | _ =>
      {| message := "Internal server error"; code := "INTERNAL_ERROR";
         statusCode := 500 |}
  end.

End Errors.

Module CronTrigger.
Import Js Supabase.

Record ExecutionResult : Type := mkExecution {
  scheduleId : string;
  userId : string;
  success : bool;
  error : option string;
  executedAt : Z
}.

(** The request, as far as the handler reads it. *)
Record trigger_request : Type := mkTrigger {
  http_method : string;
  x_cron_secret : option string
}.

(** The bodies [jsonResponse] is given, and [errorResponse]. *)
Inductive response (Cors : Type) : Type :=
| CorsResponse (r : Cors)
| ErrorResponse (error_message : string) (status : Z)
| NoSchedulesDue
| Executed (executed successCount failureCount : Z) (results : list ExecutionResult).
Arguments CorsResponse {Cors} r.
Arguments ErrorResponse {Cors} error_message status.
Arguments NoSchedulesDue {Cors}.
Arguments Executed {Cors} executed successCount failureCount results.

Record Decision : Type := mkDecision {
  decision_coin : string;
  decision_action : string;
  decision_reason : string
}.

Record Analysis : Type := mkAnalysis {
  analyzed : Z;
  decisions : list Decision
}.

(** STUB: Would run dealer analysis without execution *)
Definition runAnalysisOnly (userId : string) (coins : list string)
           (settings : value) : Analysis :=
  {| analyzed := Z.of_nat (length coins);
     decisions := map (fun coin => {| decision_coin := coin;
                                      decision_action := "HOLD";
                                      decision_reason := "Analysis only mode" |})
                      coins |}.

Definition falsy_secret (secret : option string) : bool :=
  match secret with
  | None => true
  | Some text => String.eqb text ""
  end.

(** [cronSecret !== expectedSecret]: a header that is missing is
    [null], a variable that is not set is [undefined]. *)
Definition differs (cronSecret : option string) (expectedSecret : option string) : bool :=
  match cronSecret, expectedSecret with
  | Some given, Some expected => negb (String.eqb given expected)
  | _, _ => true
  end.

Definition executeSchedule (schedule : CronSchedules.due_schedule) : M ExecutionResult :=
  let schedule_id := CronSchedules.schedule_id schedule in
  let user_id := CronSchedules.due_user_id schedule in
  let coins := CronSchedules.due_coins schedule in
  Supabase.try_catch
    (Supabase.bind (select_encrypted_blob user_id "hyperliquid") (fun keyAnswer =>
     match Supabase.error keyAnswer, data keyAnswer with
     | None, Some userKey =>
         Supabase.bind (select_dealer_settings user_id) (fun settingsAnswer =>
         match coins with
         | None =>
             throw (TypeError "Cannot read properties of null (reading 'join')")
         | Some coin_list =>
             let settings :=
               match data settingsAnswer with
               | Some (Some stored) => if truthy stored then stored else Obj []
               | _ => Obj []
               end in
             let analysisResult := runAnalysisOnly user_id coin_list settings in
             Supabase.bind (rpc_record_schedule_success schedule_id) (fun _ =>
             Supabase.bind Date_now (fun now =>
             ret {| scheduleId := schedule_id;
                    userId := user_id;
                    success := true;
                    error := None;
                    executedAt := now |}))
         end)
     | _, _ => throw (Error "Error" "No encrypted key found for user")
     end))
    (fun e =>
       let errorMessage := message_or_unknown e in
       Supabase.bind (rpc_record_schedule_error schedule_id errorMessage) (fun _ =>
       Supabase.bind Date_now (fun now =>
       ret {| scheduleId := schedule_id;
              userId := user_id;
              success := false;
              error := Some errorMessage;
              executedAt := now |}))).

(** [for (const schedule of dueSchedules) results.push(await
    executeSchedule(supabase, schedule))] *)
Fixpoint execute_each (dueSchedules : list CronSchedules.due_schedule)
  : M (list ExecutionResult) :=
  match dueSchedules with
  | [] => ret []
  | schedule :: rest =>
      Supabase.bind (executeSchedule schedule) (fun result =>
      Supabase.bind (execute_each rest) (fun results =>
      ret (result :: results)))
  end.

Definition count (keep : ExecutionResult -> bool) (results : list ExecutionResult) : Z :=
  Z.of_nat (length (filter keep results)).

Section Handler.

(** [handleCors] of [_shared/cors.ts]: the response to a request it
    answers itself. *)
Context {Cors : Type}.
Variable handleCors : trigger_request -> option Cors.

Definition serve (req : trigger_request) : M (response Cors) :=
  match handleCors req with
  | Some corsResponse => ret (CorsResponse corsResponse)
  | None =>
      Supabase.try_catch
        (Supabase.bind get_env (fun e =>
         let cronSecret := x_cron_secret req in
         let expectedSecret := CRON_SECRET e in
         if falsy_secret cronSecret || differs cronSecret expectedSecret
         then ret (ErrorResponse "Unauthorized" 401)
         else
           Supabase.bind createSupabaseClient (fun supabase =>
           Supabase.bind rpc_get_due_schedules (fun answer =>
           match Supabase.error answer with
           | Some fetchError => throw (NotAnError (Str fetchError))
           | None =>
               match data answer with
               | None | Some [] => ret NoSchedulesDue
               | Some dueSchedules =>
                   Supabase.bind (execute_each dueSchedules) (fun results =>
                   ret (Executed (Z.of_nat (length results))
                                 (count success results)
                                 (count (fun r => negb (success r)) results)
                                 results))
               end
           end))))
        (fun error =>
           let h := Errors.handleError error in
           ret (ErrorResponse (Errors.code h ++ ": " ++ Errors.message h)%string
                              (Errors.statusCode h)))
  end.

End Handler.

End CronTrigger.

(* ===================================================================== *)
(** * functions/_shared/crypto.ts and functions/dealer-cycle/index.ts *)
(* ===================================================================== *)

(** ** crypto.ts *)

Module Crypto.
Import Js ExecutionSession.

(** [secureWipe] reads the length of its argument and does nothing
    else. *)
Definition secureWipe (value : string) : unit :=
  let len := String.length value in
  tt.

Section Decryption.

Variable W : WebPlatform.

Definition decryptBlob (encryptedBlob password salt : string) : outcome string :=
  try_catch
    (bind (decode_base64 W encryptedBlob) (fun encryptedData =>
     bind (decode_base64 W salt) (fun saltBytes =>
     let iv := slice 0 (Some 12) encryptedData in
     let ciphertext := slice 12 None encryptedData in
     bind (pbkdf2_sha256 W (list_byte_of_string password) saltBytes 100000)
          (fun derivedKey =>
     bind (aes_gcm_decrypt W derivedKey iv ciphertext) (fun decrypted =>
     Return (text_decode W decrypted))))))
    (fun error =>
       Throw (Error "Error" "Decryption failed: Invalid password or corrupted data")).

(** [try { ... } finally { if (decryptedKey) { secureWipe(decryptedKey);
    decryptedKey = null } }]: the [finally] block completes normally, so
    the completion of the [try] block is the completion of the call. *)
Definition withDecryptedKey {T : Type} (encryptedBlob password salt : string)
           (operation : string -> outcome T) : outcome T :=
  let decrypted := decryptBlob encryptedBlob password salt in
  let completion :=
    bind decrypted (fun decryptedKey =>
    bind (operation decryptedKey) (fun result =>
    Return result)) in
  let wiped :=
    match decrypted with
    | Return decryptedKey =>
        if negb (String.eqb decryptedKey "") then secureWipe decryptedKey else tt
    | Throw _ => tt
    end in
  match wiped with
  | tt => completion
  end.

End Decryption.

End Crypto.

(** ** dealer-cycle/index.ts: the analysis of one coin *)

Module DealerCycle.
Import Js ExecutionSession HyperliquidAdapter Crypto.

Record Settings : Type := mkSettings {
  intervalMs : float;
  maxPositions : float;
  maxLeverage : option float;
  maxPositionSizeUSDC : option float;
  aggressiveMode : option bool
}.

(** The request body, as its interface declares it. *)
Record DealerCycleRequest : Type := mkCycleRequest {
  coins : list string;
  settings : Settings;
  aiConfig : value;
  encryptedKey : option string;
  encryptionSalt : option string;
  executionPassword : option string;
  executeTradesIfSignal : option bool
}.

(** An element of [DealerCycleResponse['decisions']]. *)
Record CycleDecision : Type := mkCycleDecision {
  coin : string;
  action : string;
  confidence : float;
  reason : string;
  executed : option bool;
  orderId : option string;
  error : option value;
  marketPrice : option float
}.

(** [MarketContext] of market-data.ts. *)
Record MarketContext : Type := mkMarketContext {
  context_coin : string;
  currentPrice : float;
  candles : value;
  macroCandles : option value;
  orderBookMetrics : option value
}.

(** [AIAnalysisResult] of ai-adapter.ts. *)
Record AIAnalysisResult : Type := mkAnalysis {
  signal : string;
  analysis_confidence : float;
  analysis_reason : string
}.

(** [x || fallback], for an optional number. *)
Definition number_or (x : option float) (fallback : float) : float :=
  match x with
  | Some number => if truthy (Num number) then number else fallback
  | None => fallback
  end.

(** [text || fallback], for an optional string. *)
Definition text_or (text : option string) (fallback : string) : string :=
  match text with
  | Some t => if truthy (Str t) then t else fallback
  | None => fallback
  end.

Definition truthy_text (text : option string) : bool :=
  match text with
  | Some t => truthy (Str t)
  | None => false
  end.

Definition truthy_flag (flag : option bool) : bool :=
  match flag with
  | Some b => truthy (Bool b)
  | None => false
  end.

(** [e instanceof Error ? e.message : fallback] *)
Definition message_or (e : thrown) (fallback : string) : string :=
  match e with
  | Error _ message => message
  | EdgeFunctionError _ message _ _ => message
  | NotAnError _ => fallback
  end.

Section Cycle.

Context {Wallet : Type}.

Variable W : WebPlatform.
Variable P : Platform Wallet.

(** [new ethers.Wallet(privateKey)], [getMarketContext] of
    market-data.ts and [analyzeMarket] of ai-adapter.ts. *)
Variable new_Wallet : string -> outcome Wallet.
Variable getMarketContext : string -> outcome MarketContext.
Variable analyzeMarket : MarketContext -> value -> outcome AIAnalysisResult.

Definition with_action (decision : CycleDecision) (a : string) : CycleDecision :=
  {| coin := coin decision; action := a; confidence := confidence decision;
     reason := reason decision; executed := executed decision;
     orderId := orderId decision; error := error decision;
     marketPrice := marketPrice decision |}.

Definition with_order (decision : CycleDecision) (oid : option string)
  : CycleDecision :=
  {| coin := coin decision; action := action decision;
     confidence := confidence decision; reason := reason decision;
     executed := Some true; orderId := oid; error := error decision;
     marketPrice := marketPrice decision |}.

Definition with_error (decision : CycleDecision) (e : option value)
  : CycleDecision :=
  {| coin := coin decision; action := action decision;
     confidence := confidence decision; reason := reason decision;
     executed := executed decision; orderId := orderId decision; error := e;
     marketPrice := marketPrice decision |}.

(** The position size and the order of step 3. *)
Definition position_size (body : DealerCycleRequest) (price : float) : float :=
  let maxUsdc := number_or (maxPositionSizeUSDC (settings body)) 10 in
  (maxUsdc / price)%float.

Definition limit_at (price : float) : OrderOptions :=
  {| orderType := Some "limit"; price := Some price; reduceOnly := None;
     cloid := None |}.

(** Step 3, entered with [body.encryptedKey] and
    [body.executionPassword] at hand: the [try] block that decrypts the
    key and places the order, and its [catch]. *)
Definition execute (body : DealerCycleRequest) (key secret : string)
           (decision : CycleDecision) (coin action : string)
           (currentPrice : float) : CycleDecision :=
  match
    let size := position_size body currentPrice in
    bind (withDecryptedKey W key secret (text_or (encryptionSalt body) "")
            (fun privateKey =>
               bind (new_Wallet privateKey) (fun wallet =>
               executeTrade P wallet coin (String.eqb action "BUY") size
                            currentPrice (limit_at currentPrice))))
         (fun orderResult =>
    if success orderResult
    then Return (with_order decision (HyperliquidAdapter.orderId orderResult))
    else Return (with_error decision (HyperliquidAdapter.error orderResult)))
  with
  | Return decided => decided
  | Throw execError =>
      with_error decision (Some (Str (message_or execError "Trade execution failed")))
  end.

(** The number [0.7], which is the double 0x1.6666666666666p-1. *)
Definition strong_confidence : float := 0x1.6666666666666p-1%float.

(** Map AI signal to action. *)
Definition action_of (analysis : AIAnalysisResult) : string :=
  let action := "HOLD" in
  let action :=
    if String.eqb (signal analysis) "BULLISH"
       && PrimFloat.ltb strong_confidence (analysis_confidence analysis)
    then "BUY" else action in
  let action :=
    if String.eqb (signal analysis) "BEARISH"
       && PrimFloat.ltb strong_confidence (analysis_confidence analysis)
    then "SELL" else action in
  action.

(** The body of [for (const coin of body.coins)]: the decision pushed
    for one coin. *)
Definition analyse (body : DealerCycleRequest) (coin : string) : CycleDecision :=
  match
    bind (getMarketContext coin) (fun marketContext =>
    let currentPrice := number_or (Some (currentPrice marketContext)) 0 in
    bind (analyzeMarket marketContext (aiConfig body)) (fun analysis =>
    let decision :=
      {| coin := coin; action := signal analysis;
         confidence := analysis_confidence analysis;
         reason := analysis_reason analysis;
         executed := Some false; orderId := None; error := None;
         marketPrice := Some currentPrice |} in
    let action := action_of analysis in
    let decision := with_action decision action in
    if truthy_flag (executeTradesIfSignal body)
       && negb (String.eqb action "HOLD")
       && truthy_text (encryptedKey body)
       && truthy_text (executionPassword body)
    then
      match encryptedKey body, executionPassword body with
      | Some key, Some secret =>
          Return (execute body key secret decision coin action currentPrice)
      | _, _ => Return decision
      end
    else Return decision))
  with
  | Return decision => decision
  | Throw coinError =>
      {| coin := coin; action := "HOLD"; confidence := 0;
         reason := message_or coinError "Analysis failed";
         executed := None; orderId := None; error := None;
         marketPrice := None |}
  end.

(** The loop: one decision for each coin, in order. *)
Definition decisions (body : DealerCycleRequest) : list CycleDecision :=
  map (analyse body) (coins body).

End Cycle.

End DealerCycle.

(* ===================================================================== *)
(** * Vocabulary of the schedule properties *)
(* ===================================================================== *)

Module ScheduleSpec.
Import Pg CronSchedules.

(** The Due predicate, over the columns as stored. *)
Definition Due (now : timestamptz) (cs : row) : Prop :=
  enabled cs = true
  /\ (exists c m, consecutive_errors cs = Some c
                  /\ max_consecutive_errors cs = Some m /\ c < m)
  /\ (next_run_at cs = None
      \/ exists t, next_run_at cs = Some t /\ t <= now).

(** A disabled row stays disabled (and keeps its key). *)
Definition stays_disabled (before after : row) : Prop :=
  id after = id before
  /\ (enabled before = false -> enabled after = false).

(** The count has reached the limit (both are known). *)
Definition reaches (count limit : option Z) : Prop :=
  exists c m, count = Some c /\ limit = Some m /\ m <= c.

(** The incremented counter is still an [INTEGER]. *)
Definition fits_increment (counter : option Z) : Prop :=
  forall n, counter = Some n -> int4_in_range (n + 1) = true.

(** Columns no helper function writes. *)
Definition same_configuration (cs cs' : row) : Prop :=
  id cs' = id cs /\ user_id cs' = user_id cs
  /\ schedule_name cs' = schedule_name cs
  /\ interval_seconds cs' = interval_seconds cs /\ coins cs' = coins cs
  /\ max_consecutive_errors cs' = max_consecutive_errors cs
  /\ created_at cs' = created_at cs.

(** What [record_schedule_success] at time [T] makes of a row. *)
Definition success_outcome (T : timestamptz) (cs cs' : row) : Prop :=
  last_run_at cs' = Some T
  /\ next_run_at cs' = Some (T + seconds (interval_seconds cs))
  /\ run_count cs' = option_map Z.succ (run_count cs)
  /\ consecutive_errors cs' = Some 0
  /\ last_error cs' = None
  /\ enabled cs' = enabled cs
  /\ same_configuration cs cs'.

(** What [record_schedule_error] at time [T] makes of a row. *)
Definition error_outcome (T : timestamptz) (msg : string) (cs cs' : row) : Prop :=
  last_error cs' = Some msg
  /\ consecutive_errors cs' = option_map Z.succ (consecutive_errors cs)
  /\ (reaches (consecutive_errors cs') (max_consecutive_errors cs)
      -> enabled cs' = false)
  /\ (~ reaches (consecutive_errors cs') (max_consecutive_errors cs)
      -> enabled cs' = enabled cs)
  /\ next_run_at cs' = Some (T + seconds (interval_seconds cs))
  /\ last_run_at cs' = last_run_at cs
  /\ run_count cs' = run_count cs
  /\ same_configuration cs cs'.

(** The calls of a sequence that write schedule [sid], in order. *)
Definition targets (sid : uuid) (c : call) : bool :=
  match c with
  | GetDueSchedules => false
  | RecordSuccess s => String.eqb s sid
  | RecordError s _ => String.eqb s sid
  end.

Definition is_error (c : call) : bool :=
  match c with
  | RecordError _ _ => true
  | _ => false
  end.

Definition history (sid : uuid) (calls : list (timestamptz * call)) : list call :=
  filter (targets sid) (map snd calls).

(** [n] errors in a row, nothing of this schedule between them. *)
Definition has_error_streak (n : Z) (h : list call) : Prop :=
  exists before streak after,
    h = before ++ streak ++ after
    /\ Forall (fun c => is_error c = true) streak
    /\ Z.of_nat (length streak) = n.

(** The errors since the last success (or since the start). *)
Definition trailing_errors (h : list call) : Z :=
  fold_left (fun k c => if is_error c then k + 1 else 0) h 0.

(** Each call of the sequence leaves the counters of [cs] room for one
    more increment. *)
Definition headroom (cs : row) (calls : list (timestamptz * call)) : Prop :=
  (forall n, run_count cs = Some n ->
             INT4_MIN - 1 <= n /\ n + Z.of_nat (length calls) <= INT4_MAX)
  /\ Z.of_nat (length calls) <= INT4_MAX.

End ScheduleSpec.

(** ** Sample schedules *)

Module ScheduleExamples.
Import Pg CronSchedules.

(** The end-to-end schedule of the specification: enabled, every 60
    seconds, five errors allowed, never run. *)
Definition every_minute : row :=
  {| id := "s1"; user_id := "u1"; schedule_name := "default";
     enabled := true; interval_seconds := 60; coins := Some ["BTC"; "ETH"];
     last_run_at := None; next_run_at := None; run_count := Some 0;
     last_error := None; consecutive_errors := Some 0;
     max_consecutive_errors := Some 5;
     created_at := Some 0; updated_at := Some 0 |}.

(** A schedule its owner has not enabled, due long ago. *)
Definition never_enabled : row :=
  {| id := "s2"; user_id := "u2"; schedule_name := "default";
     enabled := false; interval_seconds := 300; coins := Some [];
     last_run_at := None; next_run_at := Some 1; run_count := Some 0;
     last_error := None; consecutive_errors := Some 0;
     max_consecutive_errors := Some 3;
     created_at := Some 0; updated_at := Some 0 |}.

(** An enabled schedule that trips after three errors. *)
Definition three_strikes : row :=
  {| id := "s3"; user_id := "u3"; schedule_name := "default";
     enabled := true; interval_seconds := 300; coins := Some ["SOL"];
     last_run_at := None; next_run_at := None; run_count := Some 7;
     last_error := None; consecutive_errors := Some 0;
     max_consecutive_errors := Some 3;
     created_at := Some 0; updated_at := Some 0 |}.

Definition schedules : table := [every_minute; never_enabled; three_strikes].

Definition two_errors_success_three_errors : list (timestamptz * call) :=
  [(10, RecordError "s3" "e1"); (20, RecordError "s3" "e2");
   (30, RecordSuccess "s3"); (35, RecordSuccess "s1");
   (40, RecordError "s3" "e3"); (50, RecordError "s3" "e4");
   (55, GetDueSchedules); (60, RecordError "s3" "e5")].

End ScheduleExamples.

(* ===================================================================== *)
(** * Vocabulary of the session properties *)
(* ===================================================================== *)

Module SessionSpec.
Import Pg ExecutionSessions.

(** A session is usable by [owner] at [now]. *)
Definition usable (owner : uuid) (now : timestamptz) (es : row) : Prop :=
  user_id es = owner /\ revoked es = Some false /\ now < expires_at es.

(** The first row of a list carries the greatest [key]. *)
Definition head_is_greatest {A} (key : A -> Z) (l : list A) : Prop :=
  match l with
  | [] => True
  | x :: _ => forall y, In y l -> key y <= key x
  end.

(** The session [sid], if this row is it, is revoked. *)
Definition revoked_for_good (sid : uuid) (es : row) : Prop :=
  id es = sid -> revoked es = Some true.

End SessionSpec.

(** ** Sample sessions *)

Module SessionExamples.
Import Pg ExecutionSessions.

Definition session (sid owner token : string) (expires : timestamptz)
           (is_revoked : option bool) : row :=
  {| id := sid; user_id := owner; encrypted_session_token := token;
     created_at := Some 0; expires_at := expires; revoked := is_revoked;
     last_used_at := None; use_count := Some 0 |}.

(** Alice holds a short session, a long one, a revoked one that would
    expire last, and one that has expired; Bob holds one. *)
Definition sessions : table :=
  [ session "a-short" "alice" "tok1" 500 (Some false);
    session "a-long" "alice" "tok2" 900 (Some false);
    session "a-revoked" "alice" "tok3" 2000 (Some true);
    session "a-expired" "alice" "tok4" 50 (Some false);
    session "b-only" "bob" "tok5" 700 (Some false) ].

End SessionExamples.

(* ===================================================================== *)
(** * Vocabulary of the adapter properties *)
(* ===================================================================== *)

Module AdapterSpec.
Import Js HyperliquidAdapter.

(** The number a byte string holds, most significant byte first. *)
Definition big_endian_value (bytes : list byte) : Z :=
  fold_left (fun acc b => 256 * acc + Z.of_N (Byte.to_N b)) bytes 0.

Definition reports_failure (result : TradeResult) : Prop :=
  success result = false /\ orderId result = None
  /\ exists message, error result = Some message.

Definition reports_order (result : TradeResult) : Prop :=
  success result = true /\ error result = None
  /\ exists oid, orderId result = Some oid.

(** The call returns [{ success: false, error }], with nothing else. *)
Definition fails_with (returned : outcome TradeResult) (message : value) : Prop :=
  exists result,
    returned = Return result
    /\ success result = false /\ error result = Some message
    /\ orderId result = None
    /\ filledSize result = None /\ filledPrice result = None.

(** The call returns [{ success: true, orderId }], with nothing else. *)
Definition places (returned : outcome TradeResult) (oid : string) : Prop :=
  exists result,
    returned = Return result
    /\ success result = true /\ orderId result = Some oid
    /\ error result = None
    /\ filledSize result = None /\ filledPrice result = None.

(** ** The claim about the vault address, in its own words *)

(** The bytes of a hexadecimal address: two digits a byte, after the
    [0x]. *)
Definition hex_digit (c : ascii) : option N :=
  let n := N_of_ascii c in
  if (48 <=? n)%N && (n <=? 57)%N then Some (n - 48)%N
  else if (97 <=? n)%N && (n <=? 102)%N then Some (n - 87)%N
  else if (65 <=? n)%N && (n <=? 70)%N then Some (n - 55)%N
  else None.

Fixpoint hex_bytes (digits : list ascii) : list byte :=
  match digits with
  | hi :: lo :: rest =>
      match hex_digit hi, hex_digit lo with
      | Some h, Some l =>
          match Byte.of_N (16 * h + l) with
          | Some b => b :: hex_bytes rest
          | None => []
          end
      | _, _ => []
      end
  | _ => []
  end.

Definition address_bytes (address : string) : list byte :=
  match list_ascii_of_string address with
  | "0"%char :: "x"%char :: digits => hex_bytes digits
  | digits => hex_bytes digits
  end.

(** What the claim says is hashed. *)
Definition claimed_hash_input {Wallet} (P : Platform Wallet) (action : value)
           (vaultAddress : option string) (nonceBuffer : list byte) : list byte :=
  msgpack_encode P action ++ nonceBuffer
    ++ match vaultAddress with
       | None => [x00]
       | Some address => address_bytes address
       end.

End AdapterSpec.

(** ** A sample exchange *)

Module SampleExchange.
Import Js HyperliquidAdapter.

Definition shown (x : float) : string :=
  match MessagePack.integer_of x with
  | Some i => decimal i
  | None => "NaN"
  end.

(** The members of [Object.prototype], of ECMAScript and its annex
    B: eleven functions, and [__proto__], which reads the prototype
    itself, an object without a property that can be listed. *)
Definition member (name : string) : value :=
  if String.eqb name "constructor" then Fun "Object"
  else if existsb (String.eqb name)
            ["__defineGetter__"; "__defineSetter__"; "hasOwnProperty";
             "__lookupGetter__"; "__lookupSetter__"; "isPrototypeOf";
             "propertyIsEnumerable"; "toString"; "valueOf"; "toLocaleString"]
  then Fun name
  else if String.eqb name "__proto__" then Obj []
  else Undefined.

(** A platform whose signer and serialisers answer as below, and whose
    network answers [reply] to every request. *)
Definition answering (reply : outcome response) : Platform string :=
  {| msgpack_encode := MessagePack.encode;
     keccak256 := Keccak.keccak256_hex;
     signTypedData := fun _ _ _ _ => Return "0xsignature";
     Signature_from := fun _ => Return {| r := "0xr"; s := "0xs"; v := 27%float |};
     fetch := fun _ => reply;
     JSON_stringify := fun _ => "{}";
     toFixed := fun _ _ => "1.50000000";
     number_to_string := shown;
     Date_now := 1700000000000;
     Object_prototype := member |}.

Definition sample_signature : Signature :=
  {| r := "0xr"; s := "0xs"; v := 27%float |}.

Definition resting_order_props : list (string * value) :=
  [("status", Str "ok");
   ("response",
    Obj [("type", Str "order");
         ("data", Obj [("statuses",
                        Arr [Obj [("resting", Obj [("oid", Num 77738308%float)])]])])])].

Definition resting_order : value := Obj resting_order_props.

Definition rejected_order_props : list (string * value) :=
  [("status", Str "ok");
   ("response",
    Obj [("type", Str "order");
         ("data", Obj [("statuses",
                        Arr [Obj [("error", Str "Insufficient margin")]])])])].

Definition rejected_order : value := Obj rejected_order_props.

(** The answer 200 with a body. *)
Definition answer_of (parsed : value) : response :=
  {| ok := true; status := 200; text := Return ""; json := Return parsed |}.

Definition accepts : Platform string := answering (Return (answer_of resting_order)).

Definition rejects : Platform string := answering (Return (answer_of rejected_order)).

Definition unavailable : Platform string :=
  answering (Return {| ok := false; status := 503;
                       text := Return "Service Unavailable";
                       json := Throw (Error "SyntaxError" "Unexpected token") |}).

Definition no_options : OrderOptions :=
  {| orderType := None; price := None; reduceOnly := None; cloid := None |}.

Definition buy_btc : value :=
  order_action accepts (Num 0) true 1.5%float 1.5%float no_options.

Definition vault : string := "0x1111111111111111111111111111111111111111".

End SampleExchange.

(* ===================================================================== *)
(** * Vocabulary of the custody and orchestration properties *)
(* ===================================================================== *)

Module CustodySpec.
Import Js Supabase ExecutionSession.

(** The fate of the next request, and the time it reaches the store. *)
Definition next_fate (w : world) : fate :=
  match fates w with
  | [] => on_time
  | f :: _ => f
  end.

Definition arrival (w : world) : Pg.timestamptz :=
  clock w + Z.of_N (before (next_fate w)).

(** The world after the next request has been answered, the store
    being [d] by then. *)
Definition answered (rq : request) (d : database) (w : world) : world :=
  {| env := env w; db := d;
     clock := arrival w + Z.of_N (after (next_fate w));
     fates := tl (fates w);
     sent := sent w ++ [rq] |}.

Definition configured (e : environment) : Prop :=
  unset (SUPABASE_URL e) = false /\ unset (SUPABASE_SERVICE_ROLE_KEY e) = false.

(** The requests a function sent: those of [w'] after those of [w]. *)
Definition sent_between (w w' : world) (new : list request) : Prop :=
  sent w' = sent w ++ new.

(** The requests by which credentials are resolved. *)
Definition resolves_credentials (rq : request) : bool :=
  match rq with
  | SelectEncryptedPassword _ _
  | Rpc_get_active_session _
  | Rpc_record_session_usage _ => true
  | _ => false
  end.

(** The requests of the session tier. *)
Definition consults_session (rq : request) : bool :=
  match rq with
  | Rpc_get_active_session _
  | Rpc_record_session_usage _ => true
  | _ => false
  end.

(** The key record of the owner carries this encrypted password. *)
Definition stored_password (d : database) (owner : string) : option string :=
  match filter (key_of owner "hyperliquid") (encrypted_keys d) with
  | [row] => encrypted_password row
  | _ => None
  end.



End CustodySpec.

Module OrchestrationSpec.
Import Js Supabase CronTrigger CustodySpec.

(** The key record [hyperliquid] of the owner is there to be read. *)
Definition key_found (d : database) (owner : string) : Prop :=
  exists row, filter (key_of owner "hyperliquid") (encrypted_keys d) = [row].

(** The trigger passes the checks that come before the schedules are
    fetched. *)
Definition authorized {Cors} (handleCors : trigger_request -> option Cors)
           (req : trigger_request) (w : world) : Prop :=
  handleCors req = None
  /\ falsy_secret (x_cron_secret req) = false
  /\ differs (x_cron_secret req) (CRON_SECRET (env w)) = false
  /\ configured (env w).

(** The requests of one run of a schedule: the key record of its owner
    is read first, the outcome of the run is recorded last, and only
    the settings of the owner may be read in between. *)
Definition run_of (schedule : CronSchedules.due_schedule) (requests : list request) : Prop :=
  let owner := CronSchedules.due_user_id schedule in
  let sid := CronSchedules.schedule_id schedule in
  requests = [SelectEncryptedBlob owner "hyperliquid";
              Rpc_record_schedule_error sid "No encrypted key found for user"]
  \/ (exists message,
         requests = [SelectEncryptedBlob owner "hyperliquid";
                     SelectDealerSettings owner;
                     Rpc_record_schedule_error sid message])
  \/ requests = [SelectEncryptedBlob owner "hyperliquid";
                 SelectDealerSettings owner;
                 Rpc_record_schedule_success sid].

(** The call that records the outcome of a run. *)
Definition recorded_outcome (result : ExecutionResult) : request :=
  if success result
  then Rpc_record_schedule_success (scheduleId result)
  else Rpc_record_schedule_error (scheduleId result)
         (match error result with
          | Some message => message
          | None => ""
          end).

Definition outcome_recorded (result : ExecutionResult) (requests : list request) : Prop :=
  exists earlier, requests = earlier ++ [recorded_outcome result].

(** The orchestration as the claim has it: for each schedule that is
    due, the credentials of its owner are resolved through
    [getExecutionPassword], and an error is recorded for the schedule
    when they do not resolve. *)
Definition claimed_orchestration {Cors} (W : ExecutionSession.WebPlatform)
           (handleCors : trigger_request -> option Cors)
           (req : trigger_request) (w : world) : Prop :=
  forall schedule,
    In schedule (CronSchedules.get_due_schedules (cron_schedules (db w)) (arrival w)) ->
    let owner := CronSchedules.due_user_id schedule in
    let requests := sent (snd (serve handleCors req w)) in
    In (SelectEncryptedPassword owner "hyperliquid") requests
    /\ (forall resolved,
           fst (ExecutionSession.getExecutionPassword W owner w) = Return resolved ->
           ExecutionSession.resolved_tier resolved = ExecutionSession.none ->
           exists message,
             In (Rpc_record_schedule_error (CronSchedules.schedule_id schedule) message)
                requests).

End OrchestrationSpec.

(** ** A sample custodian *)

Module SampleCustody.
Import Js Supabase ExecutionSession.

Definition tag : list byte := repeat xaa 16.
Definition iv : list byte := repeat x01 12.
Definition session_key : list byte := repeat x42 32.

(** A stand-in for AES-GCM in the samples: the ciphertext is the
    plaintext followed by a tag of 16 bytes, under any key of 32 bytes. *)
Definition unseal (key nonce ciphertext : list byte) : outcome (list byte) :=
  if Nat.eqb (length key) 32 && Nat.leb 16 (length ciphertext)
  then Return (firstn (length ciphertext - 16) ciphertext)
  else Throw (Error "OperationError" "The operation failed").

(** The payloads the sample parser knows. *)
Definition payload_of (owner secret : string) : value :=
  Obj [("userId", Str owner); ("password", Str secret);
       ("expiresAt", Str "2030-01-01T00:00:00.000Z")].

Definition parse (text : string) : outcome value :=
  if String.eqb text "payload of alice" then Return (payload_of "alice" "hunter2")
  else if String.eqb text "payload of bob" then Return (payload_of "bob" "swordfish")
  else Throw (Error "SyntaxError" "Unexpected token").

Definition web : WebPlatform :=
  {| atob := fun text =>
               match Base64.decode text with
               | Some bytes => Return (string_of_list_byte bytes)
               | None => Throw (Error "InvalidCharacterError" "Invalid character")
               end;
     aes_gcm_decrypt := unseal;
     pbkdf2_sha256 := fun secret salt iterations => Return (repeat x07 32);
     text_decode := string_of_list_byte;
     JSON_parse := parse |}.

(** A session token: [iv || ciphertext || key], in Base64. *)
Definition token_of (plaintext : string) : string :=
  Base64.encode (iv ++ (list_byte_of_string plaintext ++ tag) ++ session_key).

(** A stored password: [iv || ciphertext], in Base64. *)
Definition sealed (plaintext : string) : string :=
  Base64.encode (iv ++ list_byte_of_string plaintext ++ tag).

Definition key_record (owner : string) (stored : option string) : key_row :=
  {| key_id := ("key-" ++ owner)%string; key_user_id := owner;
     key_name := "hyperliquid";
     encrypted_blob := "blob"; encryption_salt := "salt";
     encryption_version := Some 1; last_rotated_at := None;
     public_address := None; key_created_at := Some 0;
     encrypted_password := stored |}.

Definition session_of (sid owner plaintext : string) (expires : Z)
  : ExecutionSessions.row :=
  {| ExecutionSessions.id := sid;
     ExecutionSessions.user_id := owner;
     ExecutionSessions.encrypted_session_token := token_of plaintext;
     ExecutionSessions.created_at := Some 0;
     ExecutionSessions.expires_at := expires;
     ExecutionSessions.revoked := Some false;
     ExecutionSessions.last_used_at := None;
     ExecutionSessions.use_count := Some 0 |}.

Definition environment_set : environment :=
  {| SUPABASE_URL := Some "https://project.supabase.co";
     SUPABASE_SERVICE_ROLE_KEY := Some "service-role-key";
     CRON_SECRET := Some "cron-secret";
     ENCRYPTION_SECRET := Some "server-secret" |}.

Definition world_of (keys : list key_row) (sessions : ExecutionSessions.table)
           (schedules : CronSchedules.table) : world :=
  {| env := environment_set;
     db := {| encrypted_keys := keys; user_settings := [];
              execution_sessions := sessions; cron_schedules := schedules |};
     clock := 1000000;
     fates := [];
     sent := [] |}.

(** Alice has a persistent password and a session. *)
Definition both_tiers : world :=
  world_of [key_record "alice" (Some (sealed "correct horse"))]
           [session_of "s-alice" "alice" "payload of alice" 9000000] [].

(** Alice has a session only. *)
Definition session_only : world :=
  world_of [key_record "alice" None]
           [session_of "s-alice" "alice" "payload of alice" 9000000] [].


(** The session row of Alice carries the token of Bob. *)
Definition substituted_token : world :=
  world_of [key_record "alice" None]
           [session_of "s-alice" "alice" "payload of bob" 9000000] [].

(** Alice has a key record, no password and no session, and a schedule
    that is due. *)
Definition due_without_credentials : world :=
  world_of [key_record "alice" None] []
           [ {| CronSchedules.id := "sched-1";
                CronSchedules.user_id := "alice";
                CronSchedules.schedule_name := "default";
                CronSchedules.enabled := true;
                CronSchedules.interval_seconds := 60;
                CronSchedules.coins := Some ["BTC"];
                CronSchedules.last_run_at := None;
                CronSchedules.next_run_at := None;
                CronSchedules.run_count := Some 0;
                CronSchedules.last_error := None;
                CronSchedules.consecutive_errors := Some 0;
                CronSchedules.max_consecutive_errors := Some 5;
                CronSchedules.created_at := Some 0;
                CronSchedules.updated_at := Some 0 |} ].

Definition trigger : CronTrigger.trigger_request :=
  {| CronTrigger.http_method := "POST";
     CronTrigger.x_cron_secret := Some "cron-secret" |}.

(** [handleCors] answers the preflight requests only. *)
Definition preflight (req : CronTrigger.trigger_request) : option string :=
  if String.eqb (CronTrigger.http_method req) "OPTIONS" then Some "ok" else None.

End SampleCustody.

(* ===================================================================== *)
(** * Vocabulary of the properties of the store *)
(* ===================================================================== *)

Module ServerSpec.
Import Supabase.

(** A function body leaves a store that is related by [R] to the store
    it found. *)
Definition keeps (R : database -> database -> Prop) {A} (m : M A) : Prop :=
  forall w, R (db w) (db (snd (m w))).

(** No schedule that was disabled is enabled. *)
Definition schedules_stay_disabled (d d' : database) : Prop :=
  Forall2 ScheduleSpec.stays_disabled (cron_schedules d) (cron_schedules d').

(** A session that was revoked stays revoked (or is deleted). *)
Definition sessions_stay_revoked (sid : string) (d d' : database) : Prop :=
  Forall (SessionSpec.revoked_for_good sid) (execution_sessions d) ->
  Forall (SessionSpec.revoked_for_good sid) (execution_sessions d').

(** The operations of the server, and the world after one of them. *)
Inductive operation : Type :=
| ValidateExecutionSession (userId : string)
| GetExecutionPassword (userId : string)
| HasExecutionCapability (userId : string)
| RevokeSession (sessionId : string)
| Trigger (req : CronTrigger.trigger_request).

Definition perform {Cors} (W : ExecutionSession.WebPlatform)
           (handleCors : CronTrigger.trigger_request -> option Cors)
           (op : operation) (w : world) : world :=
  match op with
  | ValidateExecutionSession userId =>
      snd (ExecutionSession.validateExecutionSession W userId w)
  | GetExecutionPassword userId =>
      snd (ExecutionSession.getExecutionPassword W userId w)
  | HasExecutionCapability userId =>
      snd (ExecutionSession.hasExecutionCapability W userId w)
  | RevokeSession sessionId => snd (ExecutionSession.revokeSession sessionId w)
  | Trigger req => snd (CronTrigger.serve handleCors req w)
  end.

(** The worlds that follow a world when nothing but the server writes
    to the store: between two operations time may pass, and the
    environment and the fates of the requests may change. *)
Inductive follows {Cors} (W : ExecutionSession.WebPlatform)
          (handleCors : CronTrigger.trigger_request -> option Cors)
          (w : world) : world -> Prop :=
| follows_now : follows W handleCors w w
| follows_operation w' op :
    follows W handleCors w w' -> follows W handleCors w (perform W handleCors op w')
| follows_idle w' w'' :
    follows W handleCors w w' -> db w'' = db w' -> follows W handleCors w w''.

End ServerSpec.

(* ===================================================================== *)
(** * Vocabulary of the properties of the two tables *)
(* ===================================================================== *)

Module SessionStoreSpec.
Import Pg ExecutionSessions.

(** The columns by which [get_active_session] selects, orders and
    answers. *)
Definition same_resolution (es es' : row) : Prop :=
  id es' = id es /\ user_id es' = user_id es
  /\ encrypted_session_token es' = encrypted_session_token es
  /\ expires_at es' = expires_at es /\ revoked es' = revoked es.

(** An answer that [get_active_session] may give to [owner] at [T]:
    the columns of a session that the owner can use and that no
    usable session of the owner outlasts.  Among sessions that expire
    together the query leaves the choice open. *)
Definition may_resolve (tbl : table) (owner : uuid) (T : timestamptz)
           (answer : active_session) : Prop :=
  exists es,
    In es tbl /\ SessionSpec.usable owner T es
    /\ (forall other, In other tbl -> SessionSpec.usable owner T other ->
                      expires_at other <= expires_at es)
    /\ active_columns es = answer.

(** What [record_session_usage] at time [T] makes of a row. *)
Definition usage_outcome (T : timestamptz) (es es' : row) : Prop :=
  last_used_at es' = Some T
  /\ use_count es' = option_map Z.succ (use_count es)
  /\ created_at es' = created_at es
  /\ same_resolution es es'.

(** The rows [cleanup_expired_sessions] deletes at [now]. *)
Definition swept (now : timestamptz) (es : row) : Prop :=
  expires_at es < now - seven_days \/ revoked es = Some true.

End SessionStoreSpec.

Module ScheduleStoreSpec.
Import Pg CronSchedules.

(** [PRIMARY KEY (id)] and [UNIQUE (user_id, schedule_name)]. *)
Definition well_keyed (tbl : table) : Prop :=
  NoDup (map id tbl)
  /\ NoDup (map (fun cs => (user_id cs, schedule_name cs)) tbl).

End ScheduleStoreSpec.

(* ===================================================================== *)
(** * Vocabulary of more properties of the session custodian *)
(* ===================================================================== *)

Module CustodianSpec.
Import Js Supabase ExecutionSession.

(** The errors of a validation that fails. *)
Definition validation_errors : list string :=
  ["Missing SUPABASE_URL or SUPABASE_SERVICE_ROLE_KEY";
   "Failed to check session";
   "No active session found";
   "Session expired";
   "Failed to decrypt session";
   "Session user mismatch"].

(** The errors of a resolution that fails. *)
Definition resolution_errors : list string :=
  validation_errors ++ ["No valid session or stored password"].

(** Nothing but the sessions may differ. *)
Definition sessions_only (d d' : database) : Prop :=
  encrypted_keys d' = encrypted_keys d
  /\ user_settings d' = user_settings d
  /\ cron_schedules d' = cron_schedules d.

(** What the update of [revokeSession] makes of a row. *)
Definition revoke_outcome (es es' : ExecutionSessions.row) : Prop :=
  ExecutionSessions.revoked es' = Some true
  /\ ExecutionSessions.id es' = ExecutionSessions.id es
  /\ ExecutionSessions.user_id es' = ExecutionSessions.user_id es
  /\ ExecutionSessions.encrypted_session_token es'
     = ExecutionSessions.encrypted_session_token es
  /\ ExecutionSessions.created_at es' = ExecutionSessions.created_at es
  /\ ExecutionSessions.expires_at es' = ExecutionSessions.expires_at es
  /\ ExecutionSessions.last_used_at es' = ExecutionSessions.last_used_at es
  /\ ExecutionSessions.use_count es' = ExecutionSessions.use_count es.

(** The secret from which the key of the stored passwords is derived
    when the environment gives none. *)
Definition placeholder_secret : string := "server-managed-key-placeholder".

(** [decryptStoredPassword] on the bytes [combined], with the secret
    [secret]: what the platform makes of the first 12 bytes as the iv
    and of the rest as the ciphertext. *)
Definition stored_plaintext (W : WebPlatform) (secret : string)
           (combined : list byte) : option string :=
  match
    Js.bind (pbkdf2_sha256 W (list_byte_of_string secret)
               (list_byte_of_string "autonomousvault-persistent-key-v1") 100000)
            (fun key =>
    Js.bind (aes_gcm_decrypt W key (firstn 12 combined) (skipn 12 combined))
            (fun decrypted => Return (text_decode W decrypted)))
  with
  | Return stored => Some stored
  | Throw _ => None
  end.
End CustodianSpec.

(* ===================================================================== *)
(** * Vocabulary of more properties of the exchange adapter *)
(* ===================================================================== *)

Module AssetSpec.
Import Js HyperliquidAdapter.

(** The request by which [getAssetIndex] asks for the listed assets. *)
Definition meta_request {Wallet} (P : Platform Wallet) : request :=
  {| url := INFO_URL; method := "POST"; headers := [];
     body := JSON_stringify P (Obj [("type", Str "meta")]) |}.

(** An asset whose [name] can be read and is not [coin]. *)
Definition other_asset (coin : string) (a : value) : Prop :=
  exists a_name, prop a "name" = Return a_name /\ is_string a_name coin = false.

(** The asset at position [i] is the first one named [coin], and the
    names of the assets before it can be read. *)
Definition first_named (coin : string) (universe : list value) (i : nat) : Prop :=
  exists before a after,
    universe = before ++ a :: after
    /\ length before = i
    /\ Forall (other_asset coin) before
    /\ exists a_name, prop a "name" = Return a_name /\ is_string a_name coin = true.

(** An element of which [name] cannot be read comes before any asset
    named [coin]. *)
Definition unreadable_first (coin : string) (universe : list value) : Prop :=
  exists before a after,
    universe = before ++ a :: after
    /\ Forall (other_asset coin) before
    /\ exists e, prop a "name" = Throw e.

(** The options of an order that reach the exchange. *)
Definition same_order_options (options options' : OrderOptions) : Prop :=
  (reduceOnly options = Some true <-> reduceOnly options' = Some true)
  /\ cloid options = cloid options'.

(** The text [s] ends with a character that is neither a zero nor
    the point. *)
Definition ends_significant (s : list ascii) : Prop :=
  exists front c, s = front ++ [c] /\ c <> "0"%char /\ c <> "."%char.

End AssetSpec.

(** ** A sample listing *)
Module SampleListing.
Import Js HyperliquidAdapter SampleExchange.

(** The exchange lists BTC and DOGE. *)
Definition listing : value :=
  Obj [("universe", Arr [Obj [("name", Str "BTC"); ("szDecimals", Num 5%float)];
                         Obj [("name", Str "DOGE"); ("szDecimals", Num 0%float)]])].

Definition lists_doge : Platform string :=
  answering (Return {| ok := true; status := 200;
                       text := Return ""; json := Return listing |}).

(** Options that ask for a market order at another price. *)
Definition market_order : OrderOptions :=
  {| orderType := Some "market"; price := Some 3%float;
     reduceOnly := Some false; cloid := None |}.

End SampleListing.

(* ===================================================================== *)
(** * Vocabulary of more properties of the trigger *)
(* ===================================================================== *)

Module TriggerSpec.
Import Js Supabase CronTrigger.

(** The header [x-cron-secret] is the secret the environment holds. *)
Definition passes (cronSecret expectedSecret : option string) : Prop :=
  exists secret,
    cronSecret = Some secret /\ secret <> "" /\ expectedSecret = Some secret.

(** The answer to an error that is no [EdgeFunctionError]. *)
Definition internal_error {Cors} : response Cors :=
  ErrorResponse "INTERNAL_ERROR: Internal server error" 500.

(** The call records the outcome of a run of the schedule [sid]. *)
Definition records (sid : string) (c : CronSchedules.call) : Prop :=
  c = CronSchedules.RecordSuccess sid
  \/ exists message, c = CronSchedules.RecordError sid message.

(** The store [d'] is the store [d] after calls that record outcomes
    of schedules of [ids], nothing else being written. *)
Definition runs_only (ids : list string) (d d' : database) : Prop :=
  encrypted_keys d' = encrypted_keys d
  /\ user_settings d' = user_settings d
  /\ execution_sessions d' = execution_sessions d
  /\ exists calls,
      cron_schedules d' = CronSchedules.run calls (cron_schedules d)
      /\ Forall (fun timed => exists sid, In sid ids /\ records sid (snd timed)) calls.

End TriggerSpec.

(** ** Sample triggers *)
Module SampleTrigger.
Import Js Supabase CronTrigger SampleCustody.

(** A request with a secret that is not the one of the environment. *)
Definition guess : trigger_request :=
  {| http_method := "POST"; x_cron_secret := Some "guess" |}.

(** The schedule of Alice is due, and the client has no URL. *)
Definition unconfigured : world :=
  {| env := {| SUPABASE_URL := None;
               SUPABASE_SERVICE_ROLE_KEY := Some "service-role-key";
               CRON_SECRET := Some "cron-secret";
               ENCRYPTION_SECRET := Some "server-secret" |};
     db := db due_without_credentials;
     clock := 1000000; fates := []; sent := [] |}.

(** The three sample schedules, no owner having a key record. *)
Definition three_schedules : world := world_of [] [] ScheduleExamples.schedules.

End SampleTrigger.

(* ===================================================================== *)
(** * Vocabulary of the properties of the dealer cycle *)
(* ===================================================================== *)

Module DealerSpec.
Import Js ExecutionSession HyperliquidAdapter Crypto DealerCycle.

Definition decryption_failed : thrown :=
  Error "Error" "Decryption failed: Invalid password or corrupted data".

(** Every step of [decryptBlob] succeeds and the text is [key]. *)
Definition opens (W : WebPlatform) (encryptedBlob secret salt key : string) : Prop :=
  exists encryptedData saltBytes derivedKey decrypted,
    decode_base64 W encryptedBlob = Return encryptedData
    /\ decode_base64 W salt = Return saltBytes
    /\ pbkdf2_sha256 W (list_byte_of_string secret) saltBytes 100000
       = Return derivedKey
    /\ aes_gcm_decrypt W derivedKey (slice 0 (Some 12) encryptedData)
         (slice 12 None encryptedData) = Return decrypted
    /\ key = text_decode W decrypted.

(** The request asks for trades and carries a key and a password. *)
Definition armed (body : DealerCycleRequest) (key secret : string) : Prop :=
  executeTradesIfSignal body = Some true
  /\ encryptedKey body = Some key /\ key <> ""
  /\ executionPassword body = Some secret /\ secret <> "".

Definition unarmed (body : DealerCycleRequest) : Prop :=
  executeTradesIfSignal body <> Some true
  \/ encryptedKey body = None \/ encryptedKey body = Some ""
  \/ executionPassword body = None \/ executionPassword body = Some "".

(** A signal that makes the cycle trade: its side, [true] for a buy. *)
Definition strong (analysis : AIAnalysisResult) (isBuy : bool) : Prop :=
  PrimFloat.ltb strong_confidence (analysis_confidence analysis) = true
  /\ ((signal analysis = "BULLISH" /\ isBuy = true)
      \/ (signal analysis = "BEARISH" /\ isBuy = false)).

Definition side (isBuy : bool) : string := if isBuy then "BUY" else "SELL".

(** The key of the request opens, the wallet is made of it, and
    [executeTrade] answers [result] to the order of the cycle. *)
Definition answered {Wallet : Type} (W : WebPlatform) (P : Platform Wallet)
           (new_Wallet : string -> outcome Wallet)
           (body : DealerCycleRequest) (key secret coin : string)
           (isBuy : bool) (price : float) (result : TradeResult) : Prop :=
  exists privateKey wallet,
    opens W key secret (text_or (encryptionSalt body) "") privateKey
    /\ new_Wallet privateKey = Return wallet
    /\ executeTrade P wallet coin isBuy (position_size body price) price
         (limit_at price) = Return result.

Definition price_of (context : MarketContext) : float :=
  number_or (Some (currentPrice context)) 0.

(** The decision of a coin without an order. *)
Definition analysed (coin : string) (context : MarketContext)
           (analysis : AIAnalysisResult) : CycleDecision :=
  {| coin := coin; action := action_of analysis;
     confidence := analysis_confidence analysis;
     reason := analysis_reason analysis;
     executed := Some false; orderId := None; error := None;
     marketPrice := Some (price_of context) |}.

Definition held (coin message : string) : CycleDecision :=
  {| coin := coin; action := "HOLD"; confidence := 0; reason := message;
     executed := None; orderId := None; error := None; marketPrice := None |}.

End DealerSpec.

(** ** A sample dealer *)

Module SampleDealer.
Import Js ExecutionSession HyperliquidAdapter Crypto DealerCycle.

Definition wallet_of (privateKey : string) : outcome string :=
  if String.prefix "0x" privateKey then Return privateKey
  else Throw (Error "TypeError" "invalid private key").

Definition context_of (coin : string) : outcome MarketContext :=
  if String.eqb coin "BTC"
  then Return {| context_coin := coin; currentPrice := 50000;
                 candles := Arr []; macroCandles := None;
                 orderBookMetrics := None |}
  else Throw (Error "Error" "No market data").

Definition bullish (context : MarketContext) (config : value)
  : outcome AIAnalysisResult :=
  Return {| signal := "BULLISH"; analysis_confidence := 0.875;
            analysis_reason := "Breakout" |}.

Definition cycle_request (flag : option bool) (secret : option string)
  : DealerCycleRequest :=
  {| coins := ["BTC"; "DOGE"];
     settings := {| intervalMs := 60000; maxPositions := 3; maxLeverage := None;
                    maxPositionSizeUSDC := Some 100%float;
                    aggressiveMode := None |};
     aiConfig := Obj [("provider", Str "gemini")];
     encryptedKey := Some (SampleCustody.sealed "0xkey");
     encryptionSalt := Some "c2FsdA==";
     executionPassword := secret;
     executeTradesIfSignal := flag |}.

End SampleDealer.

(* ===================================================================== *)
(** * Properties of the SQL operations *)
(* ===================================================================== *)

Module PgFacts.
Import Pg.

Lemma mapM_Forall2 {A B} (f : A -> result B) l l' :
  mapM f l = Ok l' -> Forall2 (fun x y => f x = Ok y) l l'.
Proof.
  revert l'; induction l as [|x xs IH]; simpl; intros l' H.
  - inversion H; constructor.
  - destruct (f x) as [y|e] eqn:Hx; simpl in H; [|discriminate].
    destruct (mapM f xs) as [ys|e] eqn:Hxs; simpl in H; [|discriminate].
    inversion H; subst. constructor; auto.
Qed.

Lemma mapM_total {A B} (f : A -> result B) l :
  Forall (fun x => exists y, f x = Ok y) l -> exists l', mapM f l = Ok l'.
Proof.
  induction 1 as [|x xs [y Hy] _ [ys Hys]]; simpl.
  - eexists; reflexivity.
  - rewrite Hy; simpl. rewrite Hys; simpl. eexists; reflexivity.
Qed.

Lemma update_Forall2 {R} cond set (trg : R -> R) tbl tbl' :
  update cond set trg tbl = Ok tbl' ->
  Forall2 (fun r r' =>
             if is_true (cond r)
             then exists s, set r = Ok s /\ r' = trg s
             else r' = r) tbl tbl'.
Proof.
  intros H. apply mapM_Forall2 in H.
  induction H as [|r r' l l' Hr _ IH]; constructor; auto.
  destruct (is_true (cond r)).
  - destruct (set r) as [s|e]; simpl in Hr; [|discriminate].
    inversion Hr. eauto.
  - inversion Hr; reflexivity.
Qed.

Lemma update_total {R} cond set (trg : R -> R) tbl :
  Forall (fun r => is_true (cond r) = true -> exists s, set r = Ok s) tbl ->
  exists tbl', update cond set trg tbl = Ok tbl'.
Proof.
  intros H. apply mapM_total.
  induction H as [|r l Hr _ IH]; constructor; auto.
  destruct (is_true (cond r)).
  - destruct (Hr eq_refl) as [s ->]. simpl. eauto.
  - eauto.
Qed.

Lemma is_true_Some b : is_true (Some b) = b.
Proof. now destruct b. Qed.

Lemma int4pl_null_succ (c : option Z) :
  (forall n, c = Some n -> int4_in_range (n + 1) = true) ->
  int4pl_null c (Some 1) = Ok (option_map Z.succ c).
Proof.
  intros H. destruct c as [n|]; simpl; [|reflexivity].
  unfold int4pl. rewrite (H n eq_refl). reflexivity.
Qed.

Lemma length_snoc_Z {A} (l : list A) x :
  Z.of_nat (length (l ++ [x])) = Z.of_nat (length l) + 1.
Proof. rewrite length_app; simpl. lia. Qed.

Lemma Forall2_refl {A} (R : A -> A -> Prop) l :
  (forall x, R x x) -> Forall2 R l l.
Proof. intros H; induction l; constructor; auto. Qed.

Lemma Forall2_trans {A} (R : A -> A -> Prop) l1 l2 l3 :
  (forall x y z, R x y -> R y z -> R x z) ->
  Forall2 R l1 l2 -> Forall2 R l2 l3 -> Forall2 R l1 l3.
Proof.
  intros HR H12; revert l3.
  induction H12; intros l3 H23; inversion H23; subst; constructor; eauto.
Qed.

Lemma Forall2_impl {A B} (R S : A -> B -> Prop) l l' :
  (forall x y, R x y -> S x y) -> Forall2 R l l' -> Forall2 S l l'.
Proof. intros H; induction 1; constructor; auto. Qed.

Lemma Forall2_In_l {A B} (R : A -> B -> Prop) l l' x :
  Forall2 R l l' -> In x l -> exists y, In y l' /\ R x y.
Proof.
  induction 1 as [|a b l l' Hab _ IH]; simpl; [tauto|].
  intros [<-|Hin]; [eauto|].
  destruct (IH Hin) as [y [Hy HR]]; eauto.
Qed.

Lemma Forall2_In_r {A B} (R : A -> B -> Prop) l l' y :
  Forall2 R l l' -> In y l' -> exists x, In x l /\ R x y.
Proof.
  induction 1 as [|a b l l' Hab _ IH]; simpl; [tauto|].
  intros [<-|Hin]; [eauto|].
  destruct (IH Hin) as [x [Hx HR]]; eauto.
Qed.

Lemma NoDup_map_eq {A B} (f : A -> B) l x y :
  NoDup (map f l) -> In x l -> In y l -> f x = f y -> x = y.
Proof.
  induction l as [|a l IH]; simpl; [tauto|].
  intros Hnd Hx Hy Hf. inversion Hnd as [|? ? Hnotin Hnd']; subst.
  destruct Hx as [<-|Hx], Hy as [<-|Hy]; auto.
  - exfalso; apply Hnotin. rewrite Hf. now apply in_map.
  - exfalso; apply Hnotin. rewrite <- Hf. now apply in_map.
Qed.

End PgFacts.


(* ===================================================================== *)
(** * Properties of the schedule functions *)
(* ===================================================================== *)

Module ScheduleFacts.
Import Pg CronSchedules ScheduleSpec PgFacts.

Lemma id_is_true sid cs : is_true (id_is sid cs) = true <-> id cs = sid.
Proof.
  unfold id_is, sql_texteq, strict2. rewrite is_true_Some. apply String.eqb_eq.
Qed.

Lemma id_is_eqb sid cs : is_true (id_is sid cs) = String.eqb (id cs) sid.
Proof. unfold id_is, sql_texteq, strict2. apply is_true_Some. Qed.

Lemma int4pl_null_inv c x :
  int4pl_null c (Some 1) = Ok x -> x = option_map Z.succ c.
Proof.
  destruct c as [n|]; simpl; [|now inversion 1].
  unfold int4pl. destruct (int4_in_range (n + 1)); simpl; [|discriminate].
  inversion 1. now rewrite Z.add_1_r.
Qed.

Lemma is_true_ge_reaches count limit :
  is_true (sql_ge count limit) = true <-> reaches count limit.
Proof.
  unfold reaches, sql_ge, strict2.
  destruct count as [c|], limit as [m|];
    try (simpl; split; [discriminate | intros (? & ? & ? & ? & ?); discriminate]).
  rewrite is_true_Some, Z.geb_le. split.
  - intros H; exists c, m; auto.
  - intros (c' & m' & Hc & Hm & Hle). inversion Hc; inversion Hm; subst; auto.
Qed.

(** ** Row level *)

Lemma success_set_outcome T cs s :
  success_set T cs = Ok s ->
  success_outcome T cs (update_updated_at_column T s).
Proof.
  unfold success_set. intros H.
  destruct (int4pl_null (run_count cs) (Some 1)) as [rc|e] eqn:Hrc;
    simpl in H; [|discriminate].
  apply int4pl_null_inv in Hrc. inversion H; subst; clear H.
  unfold success_outcome, same_configuration, timestamptz_pl_interval; simpl.
  repeat split; reflexivity.
Qed.

Lemma success_set_total T cs :
  fits_increment (run_count cs) -> exists s, success_set T cs = Ok s.
Proof.
  intros H. unfold success_set.
  rewrite (int4pl_null_succ _ H). simpl. eauto.
Qed.

Lemma error_set_outcome T msg cs s :
  error_set T msg cs = Ok s ->
  error_outcome T msg cs (update_updated_at_column T s).
Proof.
  unfold error_set. intros H.
  destruct (int4pl_null (consecutive_errors cs) (Some 1)) as [ce|e] eqn:Hce;
    simpl in H; [|discriminate].
  apply int4pl_null_inv in Hce. inversion H; subst; clear H.
  unfold error_outcome, same_configuration, timestamptz_pl_interval; simpl.
  repeat split; try reflexivity.
  - intros Hr. apply is_true_ge_reaches in Hr. now rewrite Hr.
  - intros Hr.
    destruct (is_true (sql_ge (option_map Z.succ (consecutive_errors cs))
                              (max_consecutive_errors cs))) eqn:E; auto.
    exfalso; apply Hr. now apply is_true_ge_reaches.
Qed.

Lemma error_set_total T msg cs :
  fits_increment (consecutive_errors cs) -> exists s, error_set T msg cs = Ok s.
Proof.
  intros H. unfold error_set.
  rewrite (int4pl_null_succ _ H). simpl. eauto.
Qed.

Lemma success_set_stays_disabled T cs s :
  success_set T cs = Ok s -> stays_disabled cs (update_updated_at_column T s).
Proof.
  intros H. apply success_set_outcome in H.
  destruct H as (_ & _ & _ & _ & _ & He & Hid & _).
  split; [assumption|congruence].
Qed.

Lemma error_set_stays_disabled T msg cs s :
  error_set T msg cs = Ok s -> stays_disabled cs (update_updated_at_column T s).
Proof.
  unfold error_set. intros H.
  destruct (int4pl_null (consecutive_errors cs) (Some 1)) as [ce|e];
    simpl in H; [|discriminate].
  inversion H; subst; clear H. split; simpl; [reflexivity|].
  intros ->. now destruct (is_true _).
Qed.

Lemma stays_disabled_refl cs : stays_disabled cs cs.
Proof. split; auto. Qed.

Lemma stays_disabled_trans a b c :
  stays_disabled a b -> stays_disabled b c -> stays_disabled a c.
Proof. intros [H1 H2] [H3 H4]; split; [congruence|auto]. Qed.

(** ** Table level *)

Lemma update_stays_disabled cond set T tbl tbl' :
  (forall cs s, set cs = Ok s -> stays_disabled cs (update_updated_at_column T s)) ->
  update cond set (update_updated_at_column T) tbl = Ok tbl' ->
  Forall2 stays_disabled tbl tbl'.
Proof.
  intros Hset H. apply update_Forall2 in H.
  eapply Forall2_impl; [|exact H]. simpl. intros r r' Hr.
  destruct (is_true (cond r)).
  - destruct Hr as (s & Hs & ->). eauto.
  - subst. apply stays_disabled_refl.
Qed.

Lemma exec_stays_disabled now c tbl :
  Forall2 stays_disabled tbl (exec now c tbl).
Proof.
  destruct c as [|sid|sid msg]; simpl.
  - apply Forall2_refl, stays_disabled_refl.
  - destruct (record_schedule_success tbl now sid) as [tbl'|e] eqn:E; simpl.
    + eapply update_stays_disabled; [|exact E].
      apply success_set_stays_disabled.
    + apply Forall2_refl, stays_disabled_refl.
  - destruct (record_schedule_error tbl now sid msg) as [tbl'|e] eqn:E; simpl.
    + eapply update_stays_disabled; [|exact E].
      intros cs s. apply error_set_stays_disabled.
    + apply Forall2_refl, stays_disabled_refl.
Qed.

Lemma run_stays_disabled calls tbl :
  Forall2 stays_disabled tbl (run calls tbl).
Proof.
  revert tbl; induction calls as [|[now c] rest IH]; intros tbl; simpl.
  - apply Forall2_refl, stays_disabled_refl.
  - eapply Forall2_trans; [exact stays_disabled_trans | apply exec_stays_disabled | apply IH].
Qed.

(** ** The due predicate *)

Lemma due_where_Due now cs : is_true (due_where now cs) = true <-> Due now cs.
Proof.
  unfold due_where, Due, sql_booleq, sql_lt, sql_le, strict2, is_null.
  destruct (enabled cs), (consecutive_errors cs) as [c|],
    (max_consecutive_errors cs) as [m|], (next_run_at cs) as [t|]; simpl;
    try (destruct (c <? m) eqn:Hcm); try (destruct (t <=? now) eqn:Htn); simpl;
    try rewrite Z.ltb_lt in *; try rewrite Z.ltb_ge in *;
    try rewrite Z.leb_le in *; try rewrite Z.leb_gt in *;
    split; try discriminate; try reflexivity;
    try (intros _; split; [reflexivity|]; split;
         [exists c, m; auto | first [now left | right; exists t; auto]]);
    intros (He & (c' & m' & Hc & Hm & Hlt) & Hn);
    try discriminate;
    try (inversion Hc; inversion Hm; subst; lia);
    destruct Hn as [Hn | (t' & Ht & Hle)]; try discriminate;
    inversion Ht; subst; lia.
Qed.

Lemma get_due_schedules_In tbl now d :
  In d (get_due_schedules tbl now) <->
  exists cs, In cs tbl /\ due_columns cs = d /\ Due now cs.
Proof.
  unfold get_due_schedules. rewrite in_map_iff. split.
  - intros (cs & Hd & Hin). apply filter_In in Hin as [Hin Hw].
    exists cs. rewrite <- due_where_Due. auto.
  - intros (cs & Hin & Hd & Hdue). exists cs. split; [assumption|].
    apply filter_In. rewrite due_where_Due. auto.
Qed.

(** C2. With [id] the primary key of the table, [get_due_schedules]
    returns the columns of a row exactly when the row is enabled, its
    [consecutive_errors] is below its [max_consecutive_errors], and its
    [next_run_at] is null or not after [NOW()]; it returns nothing else;
    and a row with [enabled = false] is never returned, whatever its
    [next_run_at]. *)
Theorem get_due_schedules_exactly_due :
  forall tbl now,
    NoDup (map id tbl) ->
    (forall cs, In cs tbl ->
                (In (due_columns cs) (get_due_schedules tbl now) <-> Due now cs))
    /\ (forall d, In d (get_due_schedules tbl now) ->
                  exists cs, In cs tbl /\ due_columns cs = d /\ Due now cs)
    /\ (forall cs, In cs tbl -> enabled cs = false ->
                   ~ In (due_columns cs) (get_due_schedules tbl now)).
Proof.
  intros tbl now Hpk.
  assert (Hiff : forall cs, In cs tbl ->
            (In (due_columns cs) (get_due_schedules tbl now) <-> Due now cs)).
  { intros cs Hin. rewrite get_due_schedules_In. split.
    - intros (cs' & Hin' & Hd & Hdue).
      assert (cs' = cs) as <-; [|assumption].
      apply (NoDup_map_eq id tbl); auto.
      change (schedule_id (due_columns cs') = schedule_id (due_columns cs)).
      now rewrite Hd.
    - intros Hdue. exists cs; auto. }
  split; [exact Hiff|]. split.
  - intros d. apply get_due_schedules_In.
  - intros cs Hin He Hret. apply Hiff in Hret; [|assumption].
    destruct Hret as [Htrue _]. congruence.
Qed.

(** ** One call on one schedule *)

Lemma update_by_id (outcome : row -> row -> Prop) set T sid tbl :
  (forall x s, set x = Ok s -> outcome x (update_updated_at_column T s)) ->
  Forall (fun x => id x = sid -> exists s, set x = Ok s) tbl ->
  exists tbl',
    update (id_is sid) set (update_updated_at_column T) tbl = Ok tbl'
    /\ Forall2 (fun x x' => if String.eqb (id x) sid
                            then outcome x x' else x' = x) tbl tbl'.
Proof.
  intros Hout Hall.
  destruct (update_total (id_is sid) set (update_updated_at_column T) tbl)
    as [tbl' Htbl'].
  { eapply Forall_impl; [|exact Hall]. cbv beta.
    intros x Hx Hc. apply Hx. now apply id_is_true. }
  exists tbl'. split; [assumption|].
  apply update_Forall2 in Htbl'.
  eapply Forall2_impl; [|exact Htbl']. cbv beta. intros x x'.
  rewrite id_is_eqb. destruct (String.eqb (id x) sid); auto.
  intros (s0 & Hs0 & ->). eauto.
Qed.

Lemma only_row_with_id tbl cs (P : row -> Prop) :
  NoDup (map id tbl) -> In cs tbl -> P cs ->
  Forall (fun x => id x = id cs -> P x) tbl.
Proof.
  intros Hpk Hin HP. apply Forall_forall. intros x Hx Hid.
  now rewrite (NoDup_map_eq id tbl x cs Hpk Hx Hin Hid).
Qed.

Lemma record_schedule_success_by_id tbl T cs :
  NoDup (map id tbl) -> In cs tbl -> fits_increment (run_count cs) ->
  exists tbl',
    record_schedule_success tbl T (id cs) = Ok tbl'
    /\ Forall2 (fun x x' => if String.eqb (id x) (id cs)
                            then success_outcome T x x' else x' = x) tbl tbl'.
Proof.
  intros Hpk Hin Hfit. apply update_by_id.
  - apply success_set_outcome.
  - apply (only_row_with_id tbl cs (fun x => exists s, success_set T x = Ok s));
      auto using success_set_total.
Qed.

Lemma record_schedule_error_by_id tbl T msg cs :
  NoDup (map id tbl) -> In cs tbl -> fits_increment (consecutive_errors cs) ->
  exists tbl',
    record_schedule_error tbl T (id cs) msg = Ok tbl'
    /\ Forall2 (fun x x' => if String.eqb (id x) (id cs)
                            then error_outcome T msg x x' else x' = x) tbl tbl'.
Proof.
  intros Hpk Hin Hfit. unfold record_schedule_error. apply update_by_id.
  - apply error_set_outcome.
  - apply (only_row_with_id tbl cs (fun x => exists s, error_set T msg x = Ok s));
      auto using error_set_total.
Qed.

Lemma by_id_image (outcome : row -> row -> Prop) tbl tbl' cs :
  Forall2 (fun x x' => if String.eqb (id x) (id cs)
                       then outcome x x' else x' = x) tbl tbl' ->
  In cs tbl -> exists cs', In cs' tbl' /\ outcome cs cs'.
Proof.
  intros H Hin. destruct (Forall2_In_l _ _ _ _ H Hin) as (cs' & Hin' & Hr).
  rewrite String.eqb_refl in Hr. eauto.
Qed.

(** C4. [record_schedule_success] called at time [T] on a schedule
    (whose incremented [run_count] is still an [INTEGER]) completes and
    sets [last_run_at = T] and [next_run_at = T + interval_seconds]
    seconds, adds 1 to [run_count], sets [consecutive_errors] to 0 and
    [last_error] to [NULL], and leaves every other schedule as it was;
    [record_schedule_error] at time [T] sets the same
    [next_run_at = T + interval_seconds] seconds. *)
Theorem record_schedule_success_effect :
  forall tbl T cs msg,
    NoDup (map id tbl) -> In cs tbl ->
    fits_increment (run_count cs) ->
    fits_increment (consecutive_errors cs) ->
    (exists tbl',
        record_schedule_success tbl T (id cs) = Ok tbl'
        /\ Forall2 (fun x x' => if String.eqb (id x) (id cs)
                                then success_outcome T x x' else x' = x) tbl tbl'
        /\ exists cs',
            In cs' tbl' /\ id cs' = id cs
            /\ last_run_at cs' = Some T
            /\ next_run_at cs' = Some (T + seconds (interval_seconds cs))
            /\ run_count cs' = option_map (fun n => n + 1) (run_count cs)
            /\ consecutive_errors cs' = Some 0
            /\ last_error cs' = None)
    /\ (exists tbl' cs',
           record_schedule_error tbl T (id cs) msg = Ok tbl'
           /\ In cs' tbl' /\ id cs' = id cs
           /\ next_run_at cs' = Some (T + seconds (interval_seconds cs))).
Proof.
  intros tbl T cs msg Hpk Hin Hrc Hce. split.
  - destruct (record_schedule_success_by_id tbl T cs Hpk Hin Hrc)
      as (tbl' & Hok & Hrel).
    exists tbl'. split; [assumption|]. split; [assumption|].
    destruct (by_id_image _ _ _ _ Hrel Hin)
      as (cs' & Hin' & Hlr & Hnr & Hcnt & Hz & Hle & _ & Hid & _).
    exists cs'. repeat split; auto.
  - destruct (record_schedule_error_by_id tbl T msg cs Hpk Hin Hce)
      as (tbl' & Hok & Hrel).
    destruct (by_id_image _ _ _ _ Hrel Hin)
      as (cs' & Hin' & _ & _ & _ & _ & Hnr & _ & _ & Hid & _).
    exists tbl', cs'. auto.
Qed.

(** ** Streaks of errors in a history *)

Lemma trailing_errors_snoc h c :
  trailing_errors (h ++ [c]) =
  if is_error c then trailing_errors h + 1 else 0.
Proof. unfold trailing_errors. now rewrite fold_left_app. Qed.

Lemma trailing_errors_bounds h :
  0 <= trailing_errors h <= Z.of_nat (length h).
Proof.
  induction h as [|c h IH] using rev_ind; [cbn; lia|].
  rewrite trailing_errors_snoc, length_app; simpl.
  destruct (is_error c); lia.
Qed.

Lemma trailing_errors_app_errors p s :
  Forall (fun c => is_error c = true) s ->
  trailing_errors (p ++ s) = trailing_errors p + Z.of_nat (length s).
Proof.
  induction s as [|c s IH] using rev_ind; intros Hs.
  - rewrite app_nil_r; simpl; lia.
  - apply Forall_app in Hs as [Hs Hc]. inversion Hc as [|? ? Hc' _]; subst.
    rewrite app_assoc, trailing_errors_snoc, Hc', IH by assumption.
    rewrite length_app; simpl; lia.
Qed.

Lemma trailing_errors_suffix h :
  exists p s, h = p ++ s
              /\ Forall (fun c => is_error c = true) s
              /\ Z.of_nat (length s) = trailing_errors h.
Proof.
  induction h as [|c h (p & s & Hh & Hs & Hlen)] using rev_ind.
  - exists [], []. repeat split; auto.
  - rewrite trailing_errors_snoc. destruct (is_error c) eqn:Hc.
    + exists p, (s ++ [c]). split; [now rewrite Hh, <- app_assoc|].
      split; [apply Forall_app; auto|]. rewrite length_app; simpl; lia.
    + exists (h ++ [c]), []. rewrite app_nil_r. repeat split; auto.
Qed.

Lemma streak_of_trailing n h :
  0 <= n <= trailing_errors h -> has_error_streak n h.
Proof.
  intros Hn. destruct (trailing_errors_suffix h) as (p & s & Hh & Hs & Hlen).
  set (k := (length s - Z.to_nat n)%nat).
  exists (p ++ firstn k s), (skipn k s), [].
  rewrite app_nil_r, <- app_assoc, firstn_skipn. split; [assumption|]. split.
  - rewrite <- (firstn_skipn k s) in Hs. now apply Forall_app in Hs.
  - rewrite length_skipn. unfold k. lia.
Qed.

Lemma streak_weaken_r n h c :
  has_error_streak n h -> has_error_streak n (h ++ [c]).
Proof.
  intros (b & s & a & Hh & Hs & Hlen). exists b, s, (a ++ [c]).
  rewrite Hh, <- !app_assoc. auto.
Qed.

Lemma streak_snoc_inv n h c :
  has_error_streak n (h ++ [c]) ->
  has_error_streak n h
  \/ exists b s, h ++ [c] = b ++ s
                 /\ Forall (fun x => is_error x = true) s
                 /\ Z.of_nat (length s) = n.
Proof.
  intros (b & s & a & Hh & Hs & Hlen).
  destruct a as [|z a _] using rev_ind.
  - right. exists b, s. rewrite app_nil_r in Hh. auto.
  - left. rewrite !app_assoc in Hh. apply app_inj_tail in Hh as [Hh _].
    exists b, s, a. rewrite <- app_assoc in Hh. auto.
Qed.

Lemma streak_snoc_success n h c :
  1 <= n -> is_error c = false ->
  (has_error_streak n (h ++ [c]) <-> has_error_streak n h).
Proof.
  intros Hn Hc. split; [|apply streak_weaken_r].
  intros H. apply streak_snoc_inv in H as [H | (b & s & Hh & Hs & Hlen)]; auto.
  exfalso. destruct s as [|z s _] using rev_ind; [simpl in Hlen; lia|].
  rewrite app_assoc in Hh. apply app_inj_tail in Hh as [_ ->].
  apply Forall_app in Hs as [_ Hz]. inversion Hz; congruence.
Qed.

Lemma streak_snoc_error n h c :
  1 <= n -> is_error c = true ->
  (has_error_streak n (h ++ [c])
   <-> has_error_streak n h \/ n <= trailing_errors h + 1).
Proof.
  intros Hn Hc. split.
  - intros H. apply streak_snoc_inv in H as [H | (b & s & Hh & Hs & Hlen)]; auto.
    right. pose proof (trailing_errors_app_errors b s Hs) as Ht.
    rewrite <- Hh, trailing_errors_snoc, Hc in Ht.
    pose proof (trailing_errors_bounds b). lia.
  - intros [H | H]; [now apply streak_weaken_r|].
    apply streak_of_trailing. rewrite trailing_errors_snoc, Hc. lia.
Qed.

(** ** Sequences of calls *)

Lemma exec_preserves_ids now c tbl : map id (exec now c tbl) = map id tbl.
Proof.
  pose proof (exec_stays_disabled now c tbl) as H.
  induction H as [|x x' l l' [Hid _] _ IH]; simpl; congruence.
Qed.

Lemma run_snoc calls now c tbl :
  run (calls ++ [(now, c)]) tbl = exec now c (run calls tbl).
Proof.
  revert tbl; induction calls as [|[t d] rest IH]; intros tbl; simpl; auto.
Qed.

Lemma history_snoc sid calls now c :
  history sid (calls ++ [(now, c)]) =
  history sid calls ++ (if targets sid c then [c] else []).
Proof. unfold history. now rewrite map_app, filter_app. Qed.

Lemma exec_other_schedule now c tbl cs :
  targets (id cs) c = false -> In cs tbl -> In cs (exec now c tbl).
Proof.
  intros Ht Hin.
  assert (Hupd : forall set tbl',
             update (id_is (match c with
                            | RecordSuccess s | RecordError s _ => s
                            | GetDueSchedules => id cs
                            end)) set (update_updated_at_column now) tbl = Ok tbl' ->
             c <> GetDueSchedules -> In cs tbl').
  { intros set tbl' H Hc. apply update_Forall2 in H.
    destruct (Forall2_In_l _ _ _ _ H Hin) as (cs' & Hin' & Hr).
    rewrite id_is_eqb in Hr.
    destruct c as [|s|s m]; simpl in Ht; [congruence| |];
      rewrite String.eqb_sym, Ht in Hr; now subst. }
  destruct c as [|s|s m]; simpl; auto.
  - destruct (record_schedule_success tbl now s) as [tbl'|e] eqn:E; simpl; auto.
    apply (Hupd _ _ E). discriminate.
  - destruct (record_schedule_error tbl now s m) as [tbl'|e] eqn:E; simpl; auto.
    apply (Hupd _ _ E). discriminate.
Qed.

Lemma exec_success now tbl cs :
  NoDup (map id tbl) -> In cs tbl -> fits_increment (run_count cs) ->
  exists cs', In cs' (exec now (RecordSuccess (id cs)) tbl)
              /\ success_outcome now cs cs'.
Proof.
  intros Hpk Hin Hfit. simpl.
  destruct (record_schedule_success_by_id tbl now cs Hpk Hin Hfit)
    as (tbl' & -> & Hrel).
  simpl. eapply by_id_image; eauto.
Qed.

Lemma exec_error now msg tbl cs :
  NoDup (map id tbl) -> In cs tbl -> fits_increment (consecutive_errors cs) ->
  exists cs', In cs' (exec now (RecordError (id cs) msg) tbl)
              /\ error_outcome now msg cs cs'.
Proof.
  intros Hpk Hin Hfit. simpl.
  destruct (record_schedule_error_by_id tbl now msg cs Hpk Hin Hfit)
    as (tbl' & -> & Hrel).
  simpl. eapply by_id_image; eauto.
Qed.

Lemma fits_increment_Some k :
  INT4_MIN - 1 <= k < INT4_MAX -> fits_increment (Some k).
Proof.
  intros Hk n Hn. inversion Hn; subst.
  unfold int4_in_range. apply andb_true_iff. rewrite !Z.leb_le. lia.
Qed.

Lemma fits_increment_None : fits_increment None.
Proof. intros n Hn; discriminate. Qed.

(** The state of one schedule after a sequence of calls that starts
    from an enabled schedule with no consecutive error. *)
Lemma run_tracks_streak tbl cs n calls :
  NoDup (map id tbl) -> In cs tbl ->
  max_consecutive_errors cs = Some n -> 1 <= n ->
  enabled cs = true -> consecutive_errors cs = Some 0 ->
  headroom cs calls ->
  NoDup (map id (run calls tbl))
  /\ exists cs',
      In cs' (run calls tbl) /\ id cs' = id cs
      /\ max_consecutive_errors cs' = Some n
      /\ consecutive_errors cs' = Some (trailing_errors (history (id cs) calls))
      /\ (enabled cs' = false <-> has_error_streak n (history (id cs) calls))
      /\ match run_count cs with
         | None => run_count cs' = None
         | Some m0 => exists m, run_count cs' = Some m
                                /\ m0 <= m <= m0 + Z.of_nat (length calls)
         end.
Proof.
  intros Hpk Hin Hmax Hn Hen Hce.
  induction calls as [|[now c] calls IH] using rev_ind; intros Hroom.
  - simpl. split; [assumption|]. exists cs. repeat split; auto.
    + rewrite Hen; discriminate.
    + intros (b & s & a & Hh & Hs & Hlen).
      symmetry in Hh. apply app_eq_nil in Hh as [_ Hh].
      apply app_eq_nil in Hh as [-> _]. simpl in Hlen; lia.
    + destruct (run_count cs) as [m0|]; [exists m0; split; [reflexivity|simpl; lia]|reflexivity].
  - assert (Hroom' : headroom cs calls).
    { destruct Hroom as [H1 H2]. rewrite length_snoc_Z in H1, H2.
      split; [|lia]. intros k Hk. specialize (H1 k Hk). lia. }
    destruct (IH Hroom') as (Hpk' & cs' & Hin' & Hid & Hmax' & Hce' & Hen' & Hrc');
      clear IH.
    rewrite run_snoc, history_snoc.
    split; [now rewrite exec_preserves_ids|].
    destruct Hroom as [Hroom1 Hroom2].
    rewrite length_snoc_Z in Hroom1, Hroom2.
    pose proof (trailing_errors_bounds (history (id cs) calls)) as Hb.
    assert (Hlen : Z.of_nat (length (history (id cs) calls))
                   <= Z.of_nat (length calls)).
    { unfold history. pose proof (filter_length_le (targets (id cs)) (map snd calls)) as H.
      rewrite length_map in H. lia. }
    destruct (targets (id cs) c) eqn:Ht.
    + (* a call on this schedule *)
      destruct c as [|s|s msg]; simpl in Ht; [discriminate| |];
        apply String.eqb_eq in Ht; subst s; rewrite <- Hid.
      * (* success *)
        destruct (exec_success now _ cs' Hpk' Hin') as (cs'' & Hin'' & Hout).
        { destruct (run_count cs) as [m0|].
          - destruct Hrc' as (m & -> & Hm). apply fits_increment_Some.
            specialize (Hroom1 m0 eq_refl). lia.
          - rewrite Hrc'. apply fits_increment_None. }
        destruct Hout as (_ & _ & Hcnt & Hz & _ & He & Hid' & _ & _ & _ & _ & Hmx & _).
        exists cs''. rewrite Hid. split; [now rewrite <- Hid|].
        split; [congruence|]. split; [congruence|].
        rewrite trailing_errors_snoc; simpl. split; [assumption|]. split.
        -- rewrite streak_snoc_success by auto. now rewrite He.
        -- rewrite Hcnt, length_snoc_Z.
           destruct (run_count cs) as [m0|].
           ++ destruct Hrc' as (m & -> & Hm). exists (Z.succ m). split; [reflexivity|lia].
           ++ now rewrite Hrc'.
      * (* error *)
        destruct (exec_error now msg _ cs' Hpk' Hin') as (cs'' & Hin'' & Hout).
        { rewrite Hce'. apply fits_increment_Some. unfold INT4_MIN. lia. }
        destruct Hout as (_ & Hcnt & Hreach & Hnot & _ & _ & Hrc & Hid' & _ & _ & _ & _ & Hmx & _).
        exists cs''. rewrite Hid. split; [now rewrite <- Hid|].
        split; [congruence|]. split; [congruence|].
        rewrite trailing_errors_snoc; simpl.
        rewrite Hcnt, Hce' in *; simpl in *. rewrite Z.add_1_r.
        split; [reflexivity|]. split.
        -- rewrite streak_snoc_error by auto. rewrite <- Hen'.
           destruct (Z_le_gt_dec n (Z.succ (trailing_errors (history (id cs) calls))))
             as [Hge|Hlt].
           ++ split; [intros _; right; lia|intros _].
              apply Hreach. exists (Z.succ (trailing_errors (history (id cs) calls))), n.
              auto.
           ++ rewrite Hnot.
              ** split; [auto|intros [H|H]; [assumption|lia]].
              ** intros (k & m & Hk & Hm & Hle).
                 rewrite Hmax' in Hm. inversion Hk; inversion Hm; subst. lia.
        -- rewrite Hrc, length_snoc_Z.
           destruct (run_count cs) as [m0|]; [|assumption].
           destruct Hrc' as (m & -> & Hm). exists m. split; [reflexivity|lia].
    + (* a call on another schedule, or a query *)
      rewrite app_nil_r. exists cs'.
      split; [apply exec_other_schedule; [now rewrite Hid|assumption]|].
      repeat split; try tauto.
      rewrite length_snoc_Z.
      destruct (run_count cs) as [m0|]; [|assumption].
      destruct Hrc' as (m & -> & Hm). exists m. split; [reflexivity|lia].
Qed.

(** C3. For a schedule with [max_consecutive_errors = n]:
    [record_schedule_error(id, msg)] at time [T] (the incremented count
    still an [INTEGER]) completes, sets [last_error = msg], adds 1 to
    [consecutive_errors], sets [enabled = false] when the incremented
    count has reached [n] and leaves [enabled] as it was otherwise, and
    in both cases sets [next_run_at = T + interval_seconds] seconds,
    touching no other schedule.  And over any sequence of calls, from an
    enabled schedule with no consecutive error and [n >= 1]:
    [consecutive_errors] is the number of errors since the last
    [record_schedule_success] (which resets it to 0), and [enabled] is
    false exactly when the sequence holds [n] errors of this schedule in
    a row with no success between them. *)
Theorem record_schedule_error_auto_disable :
  forall tbl cs n,
    NoDup (map id tbl) -> In cs tbl ->
    max_consecutive_errors cs = Some n ->
    (forall T msg,
        fits_increment (consecutive_errors cs) ->
        exists tbl' cs',
          record_schedule_error tbl T (id cs) msg = Ok tbl'
          /\ Forall2 (fun x x' => if String.eqb (id x) (id cs)
                                  then error_outcome T msg x x' else x' = x) tbl tbl'
          /\ In cs' tbl' /\ id cs' = id cs
          /\ last_error cs' = Some msg
          /\ consecutive_errors cs' =
             option_map (fun k => k + 1) (consecutive_errors cs)
          /\ match consecutive_errors cs with
             | Some k => (n <= k + 1 -> enabled cs' = false)
                         /\ (k + 1 < n -> enabled cs' = enabled cs)
             | None => enabled cs' = enabled cs
             end
          /\ next_run_at cs' = Some (T + seconds (interval_seconds cs)))
    /\ (forall calls,
           1 <= n -> enabled cs = true -> consecutive_errors cs = Some 0 ->
           headroom cs calls ->
           exists cs',
             In cs' (run calls tbl) /\ id cs' = id cs
             /\ consecutive_errors cs' =
                Some (trailing_errors (history (id cs) calls))
             /\ (enabled cs' = false
                 <-> has_error_streak n (history (id cs) calls))).
Proof.
  intros tbl cs n Hpk Hin Hmax. split.
  - intros T msg Hfit.
    destruct (record_schedule_error_by_id tbl T msg cs Hpk Hin Hfit)
      as (tbl' & Hok & Hrel).
    destruct (by_id_image _ _ _ _ Hrel Hin)
      as (cs' & Hin' & Hle & Hcnt & Hreach & Hnot & Hnr & _ & _ & Hid & _).
    exists tbl', cs'. repeat (split; [assumption|]).
    split; [|assumption].
    rewrite Hcnt, Hmax in Hreach, Hnot.
    destruct (consecutive_errors cs) as [k|]; simpl in Hreach, Hnot.
    + split.
      * intros Hge. apply Hreach. exists (Z.succ k), n. repeat split; auto; lia.
      * intros Hlt. apply Hnot. intros (c & m & Hc & Hm & Hcm).
        inversion Hc; inversion Hm; subst. lia.
    + apply Hnot. intros (c & m & Hc & _). discriminate.
  - intros calls Hn Hen Hce Hroom.
    destruct (run_tracks_streak tbl cs n calls Hpk Hin Hmax Hn Hen Hce Hroom)
      as (_ & cs' & Hin' & Hid & _ & Hcnt & Hiff & _).
    exists cs'. auto.
Qed.

End ScheduleFacts.

Module ScheduleWitnesses.
Import Pg CronSchedules ScheduleSpec ScheduleFacts ScheduleExamples.

Lemma schedules_primary_key : NoDup (map id schedules).
Proof. repeat constructor; simpl; intuition discriminate. Defined.

Lemma fits_increment_known k :
  int4_in_range (k + 1) = true -> fits_increment (Some k).
Proof. intros H n Hn. inversion Hn; subst. exact H. Defined.

Example every_minute_is_due :
  get_due_schedules schedules 100 =
  [ {| schedule_id := "s1"; due_user_id := "u1";
       due_coins := Some ["BTC"; "ETH"]; due_interval_seconds := 60 |};
    {| schedule_id := "s3"; due_user_id := "u3";
       due_coins := Some ["SOL"]; due_interval_seconds := 300 |} ].
Proof. reflexivity. Qed.

Example every_minute_after_success :
  option_map (fun cs => (next_run_at cs, consecutive_errors cs, run_count cs))
             (hd_error (exec 1000 (RecordSuccess "s1") schedules))
  = Some (Some 60001000, Some 0, Some 1).
Proof. reflexivity. Qed.

Example three_strikes_log :
  map (fun cs => (id cs, enabled cs, consecutive_errors cs))
      (run two_errors_success_three_errors schedules)
  = [("s1", true, Some 0); ("s2", false, Some 0); ("s3", false, Some 3)].
Proof. reflexivity. Qed.

(** Witness of C2 on the three schedules above. *)
Lemma get_due_schedules_exactly_due_witness :
  NoDup (map id schedules)
  /\ In (due_columns every_minute) (get_due_schedules schedules 100)
  /\ ~ In (due_columns never_enabled) (get_due_schedules schedules 100).
Proof.
  destruct (get_due_schedules_exactly_due schedules 100 schedules_primary_key)
    as (Hiff & _ & Hoff).
  split; [exact schedules_primary_key|]. split.
  - apply Hiff; [simpl; auto|].
    split; [reflexivity|]. split; [|left; reflexivity].
    exists 0, 5. repeat split; reflexivity.
  - apply Hoff; [simpl; auto|reflexivity].
Defined.

(** Witness of C4: a success at time 1000 on the every-minute schedule. *)
Lemma record_schedule_success_effect_witness :
  (NoDup (map id schedules) /\ In every_minute schedules
   /\ fits_increment (run_count every_minute)
   /\ fits_increment (consecutive_errors every_minute))
  /\ (exists tbl',
         record_schedule_success schedules 1000 "s1" = Ok tbl'
         /\ exists cs', In cs' tbl' /\ id cs' = "s1"
                        /\ next_run_at cs' = Some 60001000
                        /\ run_count cs' = Some 1
                        /\ consecutive_errors cs' = Some 0)
  /\ (exists tbl' cs',
         record_schedule_error schedules 1000 "s1" "boom" = Ok tbl'
         /\ In cs' tbl' /\ id cs' = "s1" /\ next_run_at cs' = Some 60001000).
Proof.
  assert (Hin : In every_minute schedules) by (simpl; auto).
  assert (Hrc : fits_increment (run_count every_minute))
    by (apply fits_increment_known; reflexivity).
  assert (Hce : fits_increment (consecutive_errors every_minute))
    by (apply fits_increment_known; reflexivity).
  split; [auto using schedules_primary_key|].
  destruct (record_schedule_success_effect schedules 1000 every_minute "boom"
              schedules_primary_key Hin Hrc Hce)
    as [(tbl' & Hok & _ & cs' & Hin' & Hid & _ & Hnr & Hcnt & Hz & _) Herr].
  split; [|exact Herr].
  exists tbl'. split; [exact Hok|]. exists cs'. auto.
Defined.

(** Witness of C3: the third error in a row disables the three-strikes
    schedule, a success in between starts the count again. *)
Lemma record_schedule_error_auto_disable_witness :
  (NoDup (map id schedules) /\ In three_strikes schedules
   /\ max_consecutive_errors three_strikes = Some 3
   /\ headroom three_strikes two_errors_success_three_errors)
  /\ exists cs',
      In cs' (run two_errors_success_three_errors schedules)
      /\ id cs' = "s3"
      /\ consecutive_errors cs' =
         Some (trailing_errors (history "s3" two_errors_success_three_errors))
      /\ (enabled cs' = false
          <-> has_error_streak 3 (history "s3" two_errors_success_three_errors)).
Proof.
  assert (Hin : In three_strikes schedules) by (simpl; auto).
  assert (Hroom : headroom three_strikes two_errors_success_three_errors).
  { unfold headroom, INT4_MIN, INT4_MAX.
    split; [intros n Hn; inversion Hn; subst; simpl; lia | simpl; lia]. }
  split; [auto using schedules_primary_key|].
  destruct (record_schedule_error_auto_disable schedules three_strikes 3
              schedules_primary_key Hin eq_refl) as [_ Hseq].
  apply (Hseq two_errors_success_three_errors); auto; reflexivity || lia.
Defined.

End ScheduleWitnesses.

(* ===================================================================== *)
(** * Properties of the session functions *)
(* ===================================================================== *)

Module SessionFacts.
Import Pg ExecutionSessions SessionSpec PgFacts.

Lemma active_where_usable owner now es :
  is_true (active_where owner now es) = true <-> usable owner now es.
Proof.
  unfold active_where, usable, sql_texteq, sql_booleq, sql_gt, strict2.
  destruct (String.eqb_spec (user_id es) owner) as [Hu|Hu];
    destruct (revoked es) as [[|]|];
    destruct (Z.gtb_spec (expires_at es) now) as [Hgt|Hle]; simpl;
    split; try discriminate; try (intros _; repeat split; auto; lia);
    intros (H1 & H2 & H3); try congruence; try discriminate; lia.
Qed.

(** ** ORDER BY ... DESC LIMIT 1 *)

Lemma insert_desc_In {A} (key : A -> Z) x l y :
  In y (insert_desc key x l) <-> y = x \/ In y l.
Proof.
  induction l as [|z zs IH]; simpl.
  - intuition.
  - destruct (key z <=? key x); simpl; [intuition|].
    rewrite IH. intuition.
Qed.

Lemma order_by_desc_In {A} (key : A -> Z) l y :
  In y (order_by_desc key l) <-> In y l.
Proof.
  induction l as [|x xs IH]; simpl; [tauto|].
  rewrite insert_desc_In, IH. intuition.
Qed.

Lemma insert_desc_head {A} (key : A -> Z) x l :
  head_is_greatest key l -> head_is_greatest key (insert_desc key x l).
Proof.
  destruct l as [|z zs]; simpl.
  - intros _ y [->|[]]. lia.
  - intros Hz. destruct (Z.leb_spec (key z) (key x)) as [Hle|Hgt]; simpl.
    + intros y [->|Hy]; [lia|]. specialize (Hz y Hy). lia.
    + intros y [->|Hy]; [lia|].
      apply insert_desc_In in Hy as [->|Hy]; [lia|]. apply Hz; auto.
Qed.

Lemma order_by_desc_head {A} (key : A -> Z) l :
  head_is_greatest key (order_by_desc key l).
Proof.
  induction l as [|x xs IH]; simpl; [exact I|].
  now apply insert_desc_head.
Qed.

Lemma order_by_desc_nil {A} (key : A -> Z) l :
  order_by_desc key l = [] -> l = [].
Proof.
  destruct l as [|x xs]; [reflexivity|]. intros H.
  assert (Hin : In x (order_by_desc key (x :: xs)))
    by (apply order_by_desc_In; simpl; auto).
  rewrite H in Hin. destruct Hin.
Qed.

Lemma limit_1_In {A} (l : list A) x :
  In x (firstn 1 l) -> exists rest, l = x :: rest.
Proof. destruct l as [|y ys]; simpl; [tauto|]. intros [->|[]]. eauto. Qed.

Lemma get_active_session_In tbl owner now s :
  In s (get_active_session tbl owner now) ->
  exists es,
    In es tbl /\ active_columns es = s /\ usable owner now es
    /\ forall es', In es' tbl -> usable owner now es' ->
                   expires_at es' <= expires_at es.
Proof.
  unfold get_active_session. intros H.
  apply in_map_iff in H as (es & Hs & Hin).
  apply limit_1_In in Hin as (rest & Hsorted).
  pose proof (order_by_desc_head expires_at
                (filter (fun es => is_true (active_where owner now es)) tbl))
    as Hmax.
  assert (Hmem : forall x,
             In x (es :: rest) <-> In x tbl /\ usable owner now x).
  { intros x. rewrite <- Hsorted, order_by_desc_In, filter_In.
    now rewrite active_where_usable. }
  rewrite Hsorted in Hmax. simpl in Hmax.
  destruct (proj1 (Hmem es) (or_introl eq_refl)) as [Hin Hus].
  exists es. do 3 (split; [assumption|]).
  intros es' Hin' Hus'. apply Hmax. apply Hmem. auto.
Qed.

Lemma get_active_session_found tbl owner now :
  (exists es, In es tbl /\ usable owner now es) ->
  get_active_session tbl owner now <> [].
Proof.
  intros (es & Hin & Hus) H. unfold get_active_session in H.
  apply map_eq_nil in H.
  destruct (order_by_desc expires_at
              (filter (fun es => is_true (active_where owner now es)) tbl))
    as [|x xs] eqn:E; [|discriminate].
  apply order_by_desc_nil in E.
  assert (Hf : In es (filter (fun es => is_true (active_where owner now es)) tbl))
    by (apply filter_In; rewrite active_where_usable; auto).
  rewrite E in Hf. destruct Hf.
Qed.

Lemma get_active_session_at_most_one tbl owner now :
  (length (get_active_session tbl owner now) <= 1)%nat.
Proof.
  unfold get_active_session. rewrite length_map. apply firstn_le_length.
Qed.

(** ** Revocation *)

Lemma update_revoked_total tbl sid :
  exists tbl', update_revoked tbl sid = Ok tbl'.
Proof.
  apply update_total, Forall_forall. intros es _ _. unfold revoke_set. eauto.
Qed.

Lemma session_id_is_true sid es : is_true (id_is sid es) = true <-> id es = sid.
Proof.
  unfold id_is, sql_texteq, strict2. rewrite is_true_Some. apply String.eqb_eq.
Qed.

Lemma update_revoked_revokes tbl sid tbl' :
  update_revoked tbl sid = Ok tbl' -> Forall (revoked_for_good sid) tbl'.
Proof.
  intros H. apply update_Forall2 in H.
  induction H as [|es es' l l' Hes _ IH]; constructor; auto.
  destruct (is_true (id_is sid es)) eqn:E.
  - destruct Hes as (s & Hs & ->). inversion Hs; subst. now intros _.
  - subst es'. intros Hid. apply session_id_is_true in Hid. congruence.
Qed.

Lemma update_keeps_revoked (set : row -> result row) cond sid tbl tbl' :
  (forall es s, set es = Ok s ->
                id s = id es /\ (revoked es = Some true -> revoked s = Some true)) ->
  update cond set (fun es => es) tbl = Ok tbl' ->
  Forall (revoked_for_good sid) tbl -> Forall (revoked_for_good sid) tbl'.
Proof.
  intros Hset H. apply update_Forall2 in H.
  induction H as [|es es' l l' Hes _ IH]; intros Hall;
    inversion Hall as [|? ? Hhd Htl]; subst; constructor; auto.
  destruct (is_true (cond es)); [|now subst].
  destruct Hes as (s & Hs & ->). destruct (Hset _ _ Hs) as [Hid Hrev].
  intros Hsid. apply Hrev, Hhd. congruence.
Qed.

Lemma exec_keeps_revoked now c sid tbl :
  Forall (revoked_for_good sid) tbl ->
  Forall (revoked_for_good sid) (exec now c tbl).
Proof.
  intros Hall. destruct c as [uid|s| |s]; simpl; auto.
  - destruct (record_session_usage tbl now s) as [tbl'|e] eqn:E; simpl; auto.
    eapply update_keeps_revoked; [|exact E|exact Hall].
    unfold usage_set. intros es r Hr.
    destruct (int4pl_null (use_count es) (Some 1)); simpl in Hr; [|discriminate].
    inversion Hr; subst; simpl. auto.
  - apply Forall_forall. intros es Hin. apply filter_In in Hin as [Hin _].
    revert es Hin. now apply Forall_forall.
  - destruct (update_revoked tbl s) as [tbl'|e] eqn:E; simpl; auto.
    eapply update_keeps_revoked; [|exact E|exact Hall].
    unfold revoke_set. intros es r Hr. inversion Hr; subst; simpl. auto.
Qed.

Lemma run_keeps_revoked calls sid tbl :
  Forall (revoked_for_good sid) tbl ->
  Forall (revoked_for_good sid) (run calls tbl).
Proof.
  revert tbl; induction calls as [|[now c] rest IH]; intros tbl H; simpl; auto.
  apply IH. now apply exec_keeps_revoked.
Qed.


End SessionFacts.

Module SessionWitnesses.
Import Pg ExecutionSessions SessionSpec SessionFacts SessionExamples.

Example longest_session_wins :
  get_active_session sessions "alice" 100 =
  [ {| session_id := "a-long"; active_token := "tok2";
       active_expires_at := 900 |} ].
Proof. reflexivity. Qed.

Example expired_session_not_returned :
  get_active_session sessions "alice" 900 = [].
Proof. reflexivity. Qed.

Example revoked_session_skipped :
  get_active_session (exec 100 (RevokeSession "a-long") sessions) "alice" 100 =
  [ {| session_id := "a-short"; active_token := "tok1";
       active_expires_at := 500 |} ].
Proof. reflexivity. Qed.

End SessionWitnesses.

(* ===================================================================== *)
(** * Properties of the exchange adapter *)
(* ===================================================================== *)

Module AdapterFacts.
Import Js HyperliquidAdapter AdapterSpec.

(** ** The nonce buffer *)

Lemma byte_at_value n i :
  0 <= i -> Z.of_N (Byte.to_N (byte_at n i)) = (n / 2 ^ (8 * i)) mod 256.
Proof.
  intros Hi. unfold byte_at.
  assert (Hv : Z.land (Z.shiftr n (8 * i)) 255 = (n / 2 ^ (8 * i)) mod 256).
  { change 255 with (Z.ones 8). rewrite Z.land_ones by lia.
    rewrite Z.shiftr_div_pow2 by lia. reflexivity. }
  rewrite Hv.
  pose proof (Z.mod_pos_bound (n / 2 ^ (8 * i)) 256 ltac:(lia)) as Hb.
  destruct (Byte.of_N (Z.to_N ((n / 2 ^ (8 * i)) mod 256))) as [b|] eqn:E.
  - apply Byte.to_of_N in E. rewrite E. apply Z2N.id. lia.
  - apply Byte.of_N_None_iff in E. lia.
Qed.

Lemma big_endian_bytes n :
  0 <= n < 2 ^ 64 ->
  big_endian_value (map (byte_at n) [7; 6; 5; 4; 3; 2; 1; 0]) = n.
Proof.
  intros Hn. unfold big_endian_value. cbn [map fold_left].
  rewrite !byte_at_value by lia.
  assert (Hstep : forall k, 0 <= k ->
             n / 2 ^ k = 256 * (n / 2 ^ (k + 8)) + (n / 2 ^ k) mod 256).
  { intros k Hk. rewrite Z.pow_add_r by lia. change (2 ^ 8) with 256.
    rewrite <- Z.div_div by lia. apply Z.div_mod. lia. }
  pose proof (Hstep (8 * 0) ltac:(lia)) as H0.
  pose proof (Hstep (8 * 1) ltac:(lia)) as H1.
  pose proof (Hstep (8 * 2) ltac:(lia)) as H2.
  pose proof (Hstep (8 * 3) ltac:(lia)) as H3.
  pose proof (Hstep (8 * 4) ltac:(lia)) as H4.
  pose proof (Hstep (8 * 5) ltac:(lia)) as H5.
  pose proof (Hstep (8 * 6) ltac:(lia)) as H6.
  pose proof (Hstep (8 * 7) ltac:(lia)) as H7.
  replace (8 * 0 + 8) with (8 * 1) in H0 by lia.
  replace (8 * 1 + 8) with (8 * 2) in H1 by lia.
  replace (8 * 2 + 8) with (8 * 3) in H2 by lia.
  replace (8 * 3 + 8) with (8 * 4) in H3 by lia.
  replace (8 * 4 + 8) with (8 * 5) in H4 by lia.
  replace (8 * 5 + 8) with (8 * 6) in H5 by lia.
  replace (8 * 6 + 8) with (8 * 7) in H6 by lia.
  replace (8 * 7 + 8) with 64 in H7 by lia.
  assert (H8 : n / 2 ^ 64 = 0) by (apply Z.div_small; lia).
  rewrite H8 in H7.
  assert (Hz : n / 2 ^ (8 * 0) = n)
    by (change (2 ^ (8 * 0)) with 1; apply Z.div_1_r).
  generalize dependent (n / 2 ^ (8 * 1)). generalize dependent (n / 2 ^ (8 * 2)).
  generalize dependent (n / 2 ^ (8 * 3)). generalize dependent (n / 2 ^ (8 * 4)).
  generalize dependent (n / 2 ^ (8 * 5)). generalize dependent (n / 2 ^ (8 * 6)).
  generalize dependent (n / 2 ^ (8 * 7)). generalize dependent (n / 2 ^ (8 * 0)).
  intros. lia.
Qed.

Lemma writeBigUInt64BE_in_range n :
  0 <= n < 2 ^ 64 ->
  exists nonceBuffer,
    writeBigUInt64BE n = Return nonceBuffer
    /\ length nonceBuffer = 8%nat
    /\ big_endian_value nonceBuffer = n.
Proof.
  intros Hn. unfold writeBigUInt64BE.
  destruct (Z.leb_spec 0 n); [|lia]. destruct (Z.ltb_spec n (2 ^ 64)); [|lia].
  cbn [andb]. eexists. split; [reflexivity|]. split; [reflexivity|].
  now apply big_endian_bytes.
Qed.

Section WithPlatform.

Context {Wallet : Type}.
Variable P : Platform Wallet.

(** C8, as the code has it.  For every action, every nonce that fits
    64 bits and every vault address, given or not: the connection id
    is Keccak-256 of the MessagePack encoding of the action, followed
    by the nonce as eight bytes, most significant first, followed by
    one [0x00] byte; the address of a vault is not part of what is
    hashed.  [signL1Action] puts that hash as [connectionId] next to
    [source = 'b'] in the message it has signed as typed data of type
    [Agent], under the domain [Exchange], version 1, chain 1337, zero
    verifying contract, and returns the [r], [s], [v] of the
    signature. *)
Theorem connection_id_layout :
  forall wallet action vaultAddress nonce,
    0 <= nonce < 2 ^ 64 ->
    exists nonceBuffer,
      writeBigUInt64BE nonce = Return nonceBuffer
      /\ length nonceBuffer = 8%nat
      /\ big_endian_value nonceBuffer = nonce
      /\ actionHashFn P action vaultAddress nonce
         = Return (keccak256 P (msgpack_encode P action ++ nonceBuffer ++ [x00]))
      /\ (vaultAddress = None ->
          actionHashFn P action vaultAddress nonce
          = Return (keccak256 P (claimed_hash_input P action vaultAddress nonceBuffer)))
      /\ signL1Action P wallet action vaultAddress nonce
         = bind (signTypedData P wallet
                   {| name := "Exchange"; version := "1"; chainId := 1337;
                      verifyingContract := "0x0000000000000000000000000000000000000000" |}
                   [("Agent", [("source", "string"); ("connectionId", "bytes32")])]
                   {| source := "b";
                      connectionId :=
                        keccak256 P (msgpack_encode P action ++ nonceBuffer ++ [x00]) |})
                (fun sig =>
                   bind (Signature_from P sig) (fun rsv =>
                   Return {| r := r rsv; s := s rsv; v := v rsv |})).
Proof.
  intros wallet action vaultAddress nonce Hn.
  destruct (writeBigUInt64BE_in_range nonce Hn) as (buf & Hbuf & Hlen & Hval).
  exists buf. do 3 (split; [assumption|]).
  assert (Hhash : actionHashFn P action vaultAddress nonce
                  = Return (keccak256 P (msgpack_encode P action ++ buf ++ [x00]))).
  { unfold actionHashFn. rewrite Hbuf. simpl.
    destruct vaultAddress; now rewrite <- app_assoc. }
  split; [exact Hhash|]. split.
  - intros ->. exact Hhash.
  - unfold signL1Action. rewrite Hhash. reflexivity.
Qed.

Lemma find_index_cases coin universe index :
  (exists found, find_index coin universe index = Return found)
  \/ (exists e, find_index coin universe index = Throw e).
Proof. destruct (find_index coin universe index); eauto. Qed.

Lemma getAssetIndex_total coin :
  exists assetIndex, getAssetIndex P coin = Return assetIndex.
Proof.
  unfold getAssetIndex. destruct (defined (map_entry P coin)); [eauto|].
  match goal with |- exists _, try_catch ?body _ = _ => destruct body end;
    simpl; eauto.
Qed.

Lemma failed_reports message : reports_failure (failed message).
Proof. unfold reports_failure; simpl; eauto. Qed.

Lemma placed_reports oid : reports_order (placed oid).
Proof. unfold reports_order; simpl; eauto. Qed.

Lemma executeTrade_returns wallet coin isBuy size price options :
  exists result,
    executeTrade P wallet coin isBuy size price options = Return result
    /\ (reports_failure result \/ reports_order result).
Proof.
  unfold executeTrade.
  match goal with |- exists _, try_catch ?body _ = _ /\ _ =>
    destruct body as [result|e] eqn:Hbody end; simpl.
  2: { eexists; split; [reflexivity|]. left; apply failed_reports. }
  exists result. split; [reflexivity|].
  repeat match type of Hbody with
         | bind ?m _ = _ => destruct m; simpl in Hbody; try discriminate
         | (if ?c then _ else _) = _ => destruct c; simpl in Hbody; try discriminate
         end;
    inversion Hbody; subst;
    first [left; apply failed_reports | right; apply placed_reports].
Qed.

Lemma is_string_ok (v : value) : is_string v "ok" = true <-> v = Str "ok".
Proof.
  split; [|now intros ->].
  destruct v; simpl; try discriminate.
  intros H. apply String.eqb_eq in H. now subst.
Qed.

Lemma is_not_minus_one (v : value) :
  (forall x, v = Num x -> PrimFloat.eqb x (-1) = false) ->
  is_number v (-1) = false.
Proof. intros H. destruct v; try reflexivity. simpl. now apply H. Qed.

(** The order is posted and the exchange answers with a body. *)
Lemma executeTrade_answered wallet coin isBuy size price options
      assetIndex signature response data :
  getAssetIndex P coin = Return assetIndex ->
  is_number assetIndex (-1) = false ->
  let action := order_action P assetIndex isBuy size price options in
  signL1Action P wallet action None (Date_now P) = Return signature ->
  fetch P (order_request P (order_payload action (Date_now P) signature))
  = Return response ->
  ok response = true ->
  json response = Return data ->
  executeTrade P wallet coin isBuy size price options
  = try_catch
      (bind (prop data "status") (fun data_status =>
       if is_string data_status "ok"
       then
         bind (prop data "response") (fun data_response =>
         let status := first_status data_response in
         if truthy (opt_prop status "error")
         then Return (failed (opt_prop status "error"))
         else
           bind (opt_to_string (number_to_string P) oid_toString
                   (opt_prop (opt_prop (first_status data_response) "resting") "oid"))
                (fun oid_string =>
           Return (placed (shown_or_filled oid_string))))
       else
         bind (prop data "response") (fun data_response =>
         Return (failed (if truthy data_response
                         then data_response
                         else Str "Unknown error")))))
      (fun e => Return (failed (Str (message_or_unknown e)))).
Proof.
  intros Hi Hm action Hs Hf Hok Hj. unfold executeTrade.
  rewrite Hi. cbn [bind]. rewrite Hm. fold action. rewrite Hs. cbn [bind].
  rewrite Hf. cbn [bind]. rewrite Hok. cbn [negb]. rewrite Hj. reflexivity.
Qed.

Lemma failed_fails message : fails_with (Return (failed message)) message.
Proof. exists (failed message). repeat split. Qed.

Lemma placed_places oid : places (Return (placed oid)) oid.
Proof. exists (placed oid). repeat split. Qed.

(** C10. [executeTrade] always returns a [TradeResult] and never
    throws.  A result with [success = false] has an [error] and no
    [orderId]; one with [success = true] has an [orderId] and no
    [error].  In particular: an asset index of -1 gives the error
    [Asset <coin> not found]; any other index, a member inherited
    from [Object.prototype] among them, goes on to the order; an
    exception while signing, posting or reading the answer gives its
    message; a response that is not 2xx gives
    [API Error: <status> <body>]; a body that is [null] gives the
    message of the [TypeError]; a body whose [status] is not ['ok']
    gives its [response] (or ['Unknown error']); when the first of
    [response.data.statuses] has an [error] the result is that error;
    and otherwise the result is a success whose [orderId] is the string
    of the resting [oid] of that first status, or ['filled'] when
    there is none or the string is empty. *)
Theorem executeTrade_never_throws :
  forall wallet coin isBuy size price options,
    let returned := executeTrade P wallet coin isBuy size price options in
    let thrown_as (e : thrown) :=
      match e with
      | Error _ message => fails_with returned (Str message)
      | EdgeFunctionError _ message _ _ => fails_with returned (Str message)
      | NotAnError _ => fails_with returned (Str "Unknown error")
      end in
    (exists result,
        returned = Return result
        /\ (reports_failure result \/ reports_order result))
    /\ (forall x,
           getAssetIndex P coin = Return (Num x) ->
           PrimFloat.eqb x (-1) = true ->
           fails_with returned (Str ("Asset " ++ coin ++ " not found")%string))
    /\ (forall assetIndex,
           getAssetIndex P coin = Return assetIndex ->
           (forall x, assetIndex = Num x -> PrimFloat.eqb x (-1) = false) ->
           let action := order_action P assetIndex isBuy size price options in
           let signed := signL1Action P wallet action None (Date_now P) in
           (forall e, signed = Throw e -> thrown_as e)
           /\ (forall signature,
                  signed = Return signature ->
                  let posted :=
                    fetch P (order_request P
                               (order_payload action (Date_now P) signature)) in
                  (forall e, posted = Throw e -> thrown_as e)
                  /\ (forall response,
                         posted = Return response ->
                         ok response = false ->
                         (forall e, text response = Throw e -> thrown_as e)
                         /\ (forall txt,
                                text response = Return txt ->
                                fails_with returned
                                  (Str ("API Error: " ++ decimal (status response)
                                          ++ " " ++ txt)%string)))
                  /\ (forall response,
                         posted = Return response ->
                         ok response = true ->
                         (forall e, json response = Throw e -> thrown_as e)
                         /\ (json response = Return Null ->
                             fails_with returned
                               (Str "Cannot read properties of null (reading 'status')"))
                         /\ (forall data data_status data_response,
                                json response = Return data ->
                                prop data "status" = Return data_status ->
                                prop data "response" = Return data_response ->
                                let status :=
                                  opt_first (opt_prop (opt_prop data_response "data")
                                                      "statuses") in
                                let oid := opt_prop (opt_prop status "resting") "oid" in
                                let shown := to_string (number_to_string P) oid_toString oid in
                                (data_status <> Str "ok" ->
                                 fails_with returned
                                   (if truthy data_response then data_response
                                    else Str "Unknown error"))
                                /\ (data_status = Str "ok" ->
                                    truthy (opt_prop status "error") = true ->
                                    fails_with returned (opt_prop status "error"))
                                /\ (data_status = Str "ok" ->
                                    truthy (opt_prop status "error") = false ->
                                    (oid = Undefined \/ oid = Null ->
                                     places returned "filled")
                                    /\ (oid <> Undefined -> oid <> Null ->
                                        (forall e, shown = Throw e -> thrown_as e)
                                        /\ (shown = Return "" ->
                                            places returned "filled")
                                        /\ (forall text,
                                               shown = Return text -> text <> "" ->
                                               places returned text))))))).
Proof.
  intros wallet coin isBuy size price options returned thrown_as.
  assert (Hthrown : forall e,
             returned = Return (failed (Str (message_or_unknown e))) ->
             thrown_as e).
  { intros e He. subst thrown_as. cbv beta. rewrite He.
    destruct e; apply failed_fails. }
  split; [apply executeTrade_returns|].
  split.
  { intros x Hi Hm. subst returned. unfold executeTrade.
    rewrite Hi. cbn [bind is_number]. rewrite Hm. apply failed_fails. }
  intros assetIndex Hi Hnot action signed.
  pose proof (is_not_minus_one assetIndex Hnot) as Hm.
  split.
  { intros e He. apply Hthrown. subst returned signed. unfold executeTrade.
    rewrite Hi. cbn [bind]. rewrite Hm. fold action. now rewrite He. }
  intros signature Hs posted. subst signed.
  split; [|split].
  { intros e He. apply Hthrown. subst returned posted. unfold executeTrade.
    rewrite Hi. cbn [bind]. rewrite Hm. fold action. rewrite Hs. cbn [bind].
    now rewrite He. }
  { intros response Hf Hok. subst posted.
    assert (Hdown : returned
                    = try_catch
                        (bind (text response) (fun txt =>
                         Throw (Error "Error"
                                  ("API Error: " ++ decimal (status response)
                                     ++ " " ++ txt)%string)))
                        (fun e => Return (failed (Str (message_or_unknown e))))).
    { subst returned. unfold executeTrade.
      rewrite Hi. cbn [bind]. rewrite Hm. fold action. rewrite Hs. cbn [bind].
      rewrite Hf. cbn [bind]. rewrite Hok. reflexivity. }
    split.
    - intros e He. apply Hthrown. rewrite Hdown, He. reflexivity.
    - intros txt Htxt. rewrite Hdown, Htxt. apply failed_fails. }
  intros response Hf Hok. subst posted. split; [|split].
  { intros e He. apply Hthrown. subst returned. unfold executeTrade.
    rewrite Hi. cbn [bind]. rewrite Hm. fold action. rewrite Hs. cbn [bind].
    rewrite Hf. cbn [bind]. rewrite Hok. cbn [negb]. now rewrite He. }
  { intros Hj. subst returned.
    rewrite (executeTrade_answered wallet coin isBuy size price options
               assetIndex signature response Null Hi Hm Hs Hf Hok Hj).
    apply failed_fails. }
  intros data data_status data_response Hj Hst Hresp status oid shown.
  assert (Hbody :
            returned
            = try_catch
                (if is_string data_status "ok"
                 then
                   if truthy (opt_prop status "error")
                   then Return (failed (opt_prop status "error"))
                   else
                     bind (opt_to_string (number_to_string P) oid_toString oid)
                          (fun oid_string =>
                     Return (placed (shown_or_filled oid_string)))
                 else Return (failed (if truthy data_response
                                      then data_response
                                      else Str "Unknown error")))
                (fun e => Return (failed (Str (message_or_unknown e))))).
  { subst returned.
    rewrite (executeTrade_answered wallet coin isBuy size price options
               assetIndex signature response data Hi Hm Hs Hf Hok Hj).
    rewrite Hst. cbn [bind]. rewrite Hresp.
    destruct (is_string data_status "ok"); reflexivity. }
  split; [|split].
  - intros Hnot_ok. rewrite Hbody.
    assert (Hno : is_string data_status "ok" = false).
    { destruct (is_string data_status "ok") eqn:H; [|reflexivity].
      apply is_string_ok in H. contradiction. }
    rewrite Hno. apply failed_fails.
  - intros Hyes Herr. rewrite Hbody.
    replace (is_string data_status "ok") with true
      by (symmetry; now apply is_string_ok).
    rewrite Herr. apply failed_fails.
  - intros Hyes Herr.
    assert (Hrest : returned
                    = try_catch
                        (bind (opt_to_string (number_to_string P) oid_toString oid)
                              (fun oid_string =>
                         Return (placed (shown_or_filled oid_string))))
                        (fun e => Return (failed (Str (message_or_unknown e))))).
    { rewrite Hbody.
      replace (is_string data_status "ok") with true
        by (symmetry; now apply is_string_ok).
      now rewrite Herr. }
    split.
    + intros [Hnone | Hnone]; rewrite Hrest, Hnone; apply placed_places.
    + intros Hu Hn.
      assert (Hcalled : opt_to_string (number_to_string P) oid_toString oid
                        = bind shown (fun text => Return (Str text))).
      { subst shown. destruct oid; try contradiction; reflexivity. }
      rewrite Hcalled in Hrest. split; [|split].
      * intros e He. apply Hthrown. rewrite Hrest, He. reflexivity.
      * intros Hempty. rewrite Hrest, Hempty. apply placed_places.
      * intros text Htext Hfull. rewrite Hrest, Htext. cbn [bind try_catch].
        unfold shown_or_filled, truthy.
        apply String.eqb_neq in Hfull. rewrite Hfull. apply placed_places.
Qed.

End WithPlatform.

End AdapterFacts.

Module AdapterWitnesses.
Import Js HyperliquidAdapter AdapterSpec AdapterFacts SampleExchange.

Example keccak256_of_nothing :
  Keccak.keccak256_hex []
  = "0xc5d2460186f7233c927e7db2dcc703c0e500b653ca82273b7bfad8045d85a470".
Proof. vm_compute. reflexivity. Qed.

Example keccak256_of_abc :
  Keccak.keccak256_hex (list_byte_of_string "abc")
  = "0x4e03657aea45a94fc7d47ba826c8d667c0d1e6e33a64a036ec44f58fa12d6c45".
Proof. vm_compute. reflexivity. Qed.

Example wire_of_one_and_a_half :
  floatToWire accepts 1.5%float = "1.5" /\ floatToWire accepts 0%float = "0"
  /\ strip_trailing_zeros "100.00000000" = "100"
  /\ strip_trailing_zeros "0.00012300" = "0.000123".
Proof. repeat split; reflexivity. Qed.

Example order_rests :
  executeTrade accepts "wallet" "BTC" true 1.5%float 1.5%float no_options
  = Return (placed "77738308").
Proof. vm_compute. reflexivity. Qed.

Example order_rejected :
  executeTrade rejects "wallet" "BTC" true 1.5%float 1.5%float no_options
  = Return (failed (Str "Insufficient margin")).
Proof. vm_compute. reflexivity. Qed.

Example exchange_unavailable :
  executeTrade unavailable "wallet" "BTC" true 1.5%float 1.5%float no_options
  = Return (failed (Str "API Error: 503 Service Unavailable")).
Proof. vm_compute. reflexivity. Qed.

Example unknown_asset :
  executeTrade unavailable "wallet" "DOGE" true 1.5%float 1.5%float no_options
  = Return (failed (Str "Asset DOGE not found")).
Proof. vm_compute. reflexivity. Qed.

(** Witness of C8: the connection id of a buy of BTC at the nonce of
    the sample clock. *)
Lemma connection_id_layout_witness :
  0 <= 1700000000000 < 2 ^ 64
  /\ exists nonceBuffer,
      writeBigUInt64BE 1700000000000 = Return nonceBuffer
      /\ big_endian_value nonceBuffer = 1700000000000
      /\ actionHashFn accepts buy_btc None 1700000000000
         = Return (Keccak.keccak256_hex
                     (MessagePack.encode buy_btc ++ nonceBuffer ++ [x00])).
Proof.
  assert (Hn : 0 <= 1700000000000 < 2 ^ 64) by (split; [lia | reflexivity]).
  split; [exact Hn|].
  destruct (connection_id_layout accepts "wallet" buy_btc None 1700000000000 Hn)
    as (buf & Hbuf & _ & Hval & Hhash & _).
  exists buf. auto.
Defined.

(** The claim C8 fails when a vault address is given: the code hashes
    the same bytes as without one, not the bytes of the address. *)
Lemma vault_address_is_not_hashed :
  actionHashFn accepts buy_btc (Some vault) 1700000000000
  = actionHashFn accepts buy_btc None 1700000000000
  /\ actionHashFn accepts buy_btc (Some vault) 1700000000000
     <> Return (keccak256 accepts
                  (claimed_hash_input accepts buy_btc (Some vault)
                     (map (byte_at 1700000000000) [7; 6; 5; 4; 3; 2; 1; 0]))).
Proof.
  split; [reflexivity|]. vm_compute. discriminate.
Qed.

(** Witness of C10: an asset the exchange does not list; an order that
    rests, by its [oid]; an order the exchange rejects; an exchange
    that is down; a body that is [null]; and a coin named as a member
    of [Object.prototype], which goes on to the order. *)
Lemma executeTrade_never_throws_witness :
  executeTrade unavailable "wallet" "DOGE" true 1.5%float 1.5%float no_options
  = Return {| success := false; orderId := None;
              error := Some (Str "Asset DOGE not found");
              filledSize := None; filledPrice := None |}
  /\ executeTrade accepts "wallet" "BTC" true 1.5%float 1.5%float no_options
     = Return {| success := true; orderId := Some "77738308"; error := None;
                 filledSize := None; filledPrice := None |}
  /\ executeTrade rejects "wallet" "BTC" true 1.5%float 1.5%float no_options
     = Return {| success := false; orderId := None;
                 error := Some (Str "Insufficient margin");
                 filledSize := None; filledPrice := None |}
  /\ executeTrade unavailable "wallet" "BTC" true 1.5%float 1.5%float no_options
     = Return {| success := false; orderId := None;
                 error := Some (Str "API Error: 503 Service Unavailable");
                 filledSize := None; filledPrice := None |}
  /\ executeTrade (answering (Return (answer_of Null)))
                  "wallet" "BTC" true 1.5%float 1.5%float no_options
     = Return {| success := false; orderId := None;
                 error := Some (Str "Cannot read properties of null (reading 'status')");
                 filledSize := None; filledPrice := None |}
  /\ executeTrade accepts "wallet" "constructor" true 1.5%float 1.5%float no_options
     = Return {| success := true; orderId := Some "77738308"; error := None;
                 filledSize := None; filledPrice := None |}.
Proof.
  assert (Hfails : forall returned message,
             fails_with returned message ->
             returned = Return {| success := false; orderId := None;
                                  error := Some message;
                                  filledSize := None; filledPrice := None |}).
  { intros returned message ([s o e fs fp] & -> & Hs & He & Ho & Hfs & Hfp).
    simpl in *. now subst. }
  assert (Hplaces : forall returned oid,
             places returned oid ->
             returned = Return {| success := true; orderId := Some oid;
                                  error := None;
                                  filledSize := None; filledPrice := None |}).
  { intros returned oid ([s o e fs fp] & -> & Hs & Ho & He & Hfs & Hfp).
    simpl in *. now subst. }
  assert (Hbtc : forall x, Num 0 = Num x -> PrimFloat.eqb x (-1) = false).
  { intros x Hx. inversion Hx; subst x. reflexivity. }
  assert (Hmember : forall x, Fun "Object" = Num x -> PrimFloat.eqb x (-1) = false)
    by discriminate.
  split; [|split; [|split; [|split; [|split]]]].
  - apply Hfails.
    destruct (executeTrade_never_throws unavailable "wallet" "DOGE" true
                1.5%float 1.5%float no_options) as (_ & Hunknown & _).
    apply (Hunknown (-1)%float); [vm_compute|]; reflexivity.
  - apply Hplaces.
    destruct (executeTrade_never_throws accepts "wallet" "BTC" true
                1.5%float 1.5%float no_options) as (_ & _ & Hindex).
    destruct (Hindex (Num 0) eq_refl Hbtc) as (_ & Hsigned).
    destruct (Hsigned sample_signature) as (_ & _ & Hposted);
      [vm_compute; reflexivity|].
    destruct (Hposted (answer_of resting_order) eq_refl eq_refl) as (_ & _ & Hdata).
    destruct (Hdata resting_order (Str "ok") (lookup "response" resting_order_props)
                eq_refl eq_refl eq_refl) as (_ & _ & Hresting).
    destruct (Hresting eq_refl eq_refl) as (_ & Hoid).
    destruct Hoid as (_ & _ & Hshown); [discriminate|discriminate|].
    apply (Hshown "77738308"); [vm_compute; reflexivity|discriminate].
  - apply Hfails.
    destruct (executeTrade_never_throws rejects "wallet" "BTC" true
                1.5%float 1.5%float no_options) as (_ & _ & Hindex).
    destruct (Hindex (Num 0) eq_refl Hbtc) as (_ & Hsigned).
    destruct (Hsigned sample_signature) as (_ & _ & Hposted);
      [vm_compute; reflexivity|].
    destruct (Hposted (answer_of rejected_order) eq_refl eq_refl) as (_ & _ & Hdata).
    destruct (Hdata rejected_order (Str "ok") (lookup "response" rejected_order_props)
                eq_refl eq_refl eq_refl) as (_ & Hrejected & _).
    exact (Hrejected eq_refl eq_refl).
  - apply Hfails.
    destruct (executeTrade_never_throws unavailable "wallet" "BTC" true
                1.5%float 1.5%float no_options) as (_ & _ & Hindex).
    destruct (Hindex (Num 0) eq_refl Hbtc) as (_ & Hsigned).
    destruct (Hsigned sample_signature) as (_ & Hdown & _);
      [vm_compute; reflexivity|].
    destruct (Hdown _ eq_refl eq_refl) as (_ & Htext).
    exact (Htext "Service Unavailable" eq_refl).
  - apply Hfails.
    destruct (executeTrade_never_throws (answering (Return (answer_of Null)))
                "wallet" "BTC" true 1.5%float 1.5%float no_options)
      as (_ & _ & Hindex).
    destruct (Hindex (Num 0) eq_refl Hbtc) as (_ & Hsigned).
    destruct (Hsigned sample_signature) as (_ & _ & Hposted);
      [vm_compute; reflexivity|].
    destruct (Hposted (answer_of Null) eq_refl eq_refl) as (_ & Hnull & _).
    exact (Hnull eq_refl).
  - apply Hplaces.
    destruct (executeTrade_never_throws accepts "wallet" "constructor" true
                1.5%float 1.5%float no_options) as (_ & _ & Hindex).
    destruct (Hindex (Fun "Object") eq_refl Hmember) as (_ & Hsigned).
    destruct (Hsigned sample_signature) as (_ & _ & Hposted);
      [vm_compute; reflexivity|].
    destruct (Hposted (answer_of resting_order) eq_refl eq_refl) as (_ & _ & Hdata).
    destruct (Hdata resting_order (Str "ok") (lookup "response" resting_order_props)
                eq_refl eq_refl eq_refl) as (_ & _ & Hresting).
    destruct (Hresting eq_refl eq_refl) as (_ & Hoid).
    destruct Hoid as (_ & _ & Hshown); [discriminate|discriminate|].
    apply (Hshown "77738308"); [vm_compute; reflexivity|discriminate].
Defined.

End AdapterWitnesses.

(* ===================================================================== *)
(** * Properties of the session custodian *)
(* ===================================================================== *)

Module SliceFacts.
Import Js.

Lemma slice_prefix {A} (l : list A) (n : nat) :
  slice 0 (Some (Z.of_nat n)) l = firstn n l.
Proof.
  unfold slice, relative_index.
  destruct (Z.ltb_spec 0 0); [lia|].
  destruct (Z.ltb_spec (Z.of_nat n) 0); [lia|].
  replace (Z.to_nat (Z.min 0 (Z.of_nat (length l)))) with 0%nat by lia.
  simpl skipn.
  destruct (Nat.le_gt_cases n (length l)) as [Hle|Hgt].
  - f_equal. lia.
  - rewrite (firstn_all2 (n := n) l) by lia. apply firstn_all2. lia.
Qed.

Lemma slice_suffix {A} (l : list A) (n : nat) :
  (0 < n)%nat ->
  slice (- Z.of_nat n) None l = skipn (length l - n) l.
Proof.
  intros Hn. unfold slice, relative_index.
  destruct (Z.ltb_spec (- Z.of_nat n) 0); [|lia].
  replace (Z.to_nat (Z.max (Z.of_nat (length l) + - Z.of_nat n) 0))
    with (length l - n)%nat by lia.
  apply firstn_all2. rewrite length_skipn. lia.
Qed.

Lemma slice_between {A} (l : list A) (n m : nat) :
  (0 < m)%nat ->
  slice (Z.of_nat n) (Some (- Z.of_nat m)) l
  = firstn (length l - m - n) (skipn n l).
Proof.
  intros Hm. unfold slice, relative_index.
  destruct (Z.ltb_spec (Z.of_nat n) 0); [lia|].
  destruct (Z.ltb_spec (- Z.of_nat m) 0); [|lia].
  destruct (Nat.le_gt_cases n (length l)) as [Hle|Hgt].
  - replace (Z.to_nat (Z.min (Z.of_nat n) (Z.of_nat (length l)))) with n by lia.
    f_equal. lia.
  - replace (Z.to_nat (Z.min (Z.of_nat n) (Z.of_nat (length l))))
      with (length l) by lia.
    rewrite (skipn_all2 (n := n) l) by lia.
    rewrite skipn_all. now rewrite !firstn_nil.
Qed.

(** A token of at least 44 bytes is its first 12 bytes, then what lies
    between, then its last 32 bytes. *)
Lemma token_layout {A} (combined : list A) :
  (44 <= length combined)%nat ->
  combined = firstn 12 combined
             ++ firstn (length combined - 32 - 12) (skipn 12 combined)
             ++ skipn (length combined - 32) combined
  /\ length (firstn 12 combined) = 12%nat
  /\ length (skipn (length combined - 32) combined) = 32%nat.
Proof.
  intros Hlen. split; [|split].
  - replace (skipn (length combined - 32) combined)
      with (skipn (length combined - 32 - 12) (skipn 12 combined)).
    + now rewrite firstn_skipn, firstn_skipn.
    + rewrite skipn_skipn. f_equal. lia.
  - rewrite length_firstn. lia.
  - rewrite length_skipn. lia.
Qed.

End SliceFacts.

Module CustodyFacts.
Import Js Supabase ExecutionSession CustodySpec SliceFacts.

(** ** One request *)

Lemma send_lost {A} rq (statement : database -> Pg.timestamptz -> Pg.result (A * database)) w :
  lost (next_fate w) = true ->
  send rq statement w
  = (Return (mkReply None (Some "FetchError")), answered rq (db w) w).
Proof.
  intros H. unfold send, answered, arrival, next_fate in *.
  destruct (fates w); simpl in *; [discriminate|now rewrite H].
Qed.

Lemma send_completed {A} rq (statement : database -> Pg.timestamptz -> Pg.result (A * database))
      w a d :
  lost (next_fate w) = false ->
  statement (db w) (arrival w) = Pg.Ok (a, d) ->
  send rq statement w
  = (Return (mkReply (Some a) None), answered rq d w).
Proof.
  intros H Hs. unfold send, answered, arrival, next_fate in *.
  destruct (fates w); simpl in *; [rewrite Hs|rewrite H, Hs]; reflexivity.
Qed.

Lemma send_raised {A} rq (statement : database -> Pg.timestamptz -> Pg.result (A * database))
      w sqlstate :
  lost (next_fate w) = false ->
  statement (db w) (arrival w) = Pg.Raise sqlstate ->
  send rq statement w
  = (Return (mkReply None (Some sqlstate)), answered rq (db w) w).
Proof.
  intros H Hs. unfold send, answered, arrival, next_fate in *.
  destruct (fates w); simpl in *; [rewrite Hs|rewrite H, Hs]; reflexivity.
Qed.

(** A request always comes back, with data or with an error. *)
Lemma send_cases {A} rq (statement : database -> Pg.timestamptz -> Pg.result (A * database)) w :
  (exists failure,
      send rq statement w
      = (Return (mkReply None (Some failure)), answered rq (db w) w)
      /\ (lost (next_fate w) = true
          \/ statement (db w) (arrival w) = Pg.Raise failure))
  \/ (exists a d,
         lost (next_fate w) = false
         /\ statement (db w) (arrival w) = Pg.Ok (a, d)
         /\ send rq statement w
            = (Return (mkReply (Some a) None), answered rq d w)).
Proof.
  destruct (lost (next_fate w)) eqn:Hl.
  - left. eexists. split; [now apply send_lost|auto].
  - destruct (statement (db w) (arrival w)) as [[a d]|sqlstate] eqn:Hs.
    + right. exists a, d. auto using send_completed.
    + left. exists sqlstate. split; [now apply send_raised|auto].
Qed.

Lemma createSupabaseClient_configured w :
  configured (env w) -> createSupabaseClient w = (Return tt, w).
Proof.
  intros [H1 H2]. unfold createSupabaseClient, Supabase.bind, get_env.
  now rewrite H1, H2.
Qed.

Lemma createSupabaseClient_cases w :
  (configured (env w) /\ createSupabaseClient w = (Return tt, w))
  \/ (~ configured (env w)
      /\ createSupabaseClient w
         = (Throw (Error "Error" "Missing SUPABASE_URL or SUPABASE_SERVICE_ROLE_KEY"), w)).
Proof.
  unfold configured, createSupabaseClient, Supabase.bind, get_env, throw, ret.
  destruct (unset (SUPABASE_URL (env w))), (unset (SUPABASE_SERVICE_ROLE_KEY (env w)));
    simpl; intuition congruence.
Qed.

(** ** decryptSessionToken *)

Ltac unfold_M :=
  cbv beta iota delta [Supabase.try_catch Supabase.bind ret lift throw Date_now
                       get_env data Supabase.error].

Ltac trace_shown :=
  eexists; split;
  [ first [ symmetry; apply app_nil_r
          | reflexivity
          | rewrite <- app_assoc; reflexivity ]
  | repeat constructor ].

Ltac answers_invalid :=
  unfold ret; eexists; eexists; (split; [reflexivity|]); simpl;
  (split; [reflexivity|]); (split; [trace_shown|]);
  (split; [intros _; eauto | discriminate]).

Section WithWeb.

Variable W : WebPlatform.

Lemma decryptSessionToken_split token combined :
  decode_base64 W token = Return combined ->
  decryptSessionToken W token
  = match
      Js.bind (aes_gcm_decrypt W
                 (skipn (length combined - 32) combined)
                 (firstn 12 combined)
                 (firstn (length combined - 32 - 12) (skipn 12 combined)))
              (fun decrypted => JSON_parse W (text_decode W decrypted))
    with
    | Return payload => payload
    | Throw _ => Null
    end.
Proof.
  intros H. unfold decryptSessionToken. rewrite H. simpl Js.bind at 1.
  change 12 with (Z.of_nat 12). change (-32) with (- Z.of_nat 32).
  rewrite slice_prefix, slice_suffix, slice_between by lia. reflexivity.
Qed.

Lemma decryptSessionToken_undecodable token e :
  decode_base64 W token = Throw e -> decryptSessionToken W token = Null.
Proof. intros H. unfold decryptSessionToken. now rewrite H. Qed.

Lemma is_string_eq v text : is_string v text = true -> v = Str text.
Proof.
  destruct v; simpl; try discriminate. intros H.
  apply String.eqb_eq in H. now subst.
Qed.

Lemma prop_truthy v k : truthy v = true -> exists x, prop v k = Return x.
Proof. destruct v; simpl; try discriminate; eauto. Qed.

(** ** validateExecutionSession *)

Lemma sent_answered rq d w : sent (answered rq d w) = sent w ++ [rq].
Proof. reflexivity. Qed.
Lemma env_answered rq d w : env (answered rq d w) = env w.
Proof. reflexivity. Qed.

Lemma validateExecutionSession_spec userId w :
  exists result w',
    validateExecutionSession W userId w = (Return result, w')
    /\ env w' = env w
    /\ (exists new, sent w' = sent w ++ new
                    /\ Forall (fun rq => consults_session rq = true) new)
    /\ (valid result = false ->
        password result = Undefined /\ sessionId result = None
        /\ exists message, error result = Some message)
    /\ (valid result = true ->
        configured (env w) /\ lost (next_fate w) = false
        /\ exists first rest,
            ExecutionSessions.get_active_session
              (execution_sessions (db w)) userId (arrival w) = first :: rest
            /\ truthy (decryptSessionToken W (ExecutionSessions.active_token first)) = true
            /\ prop (decryptSessionToken W (ExecutionSessions.active_token first)) "userId"
               = Return (Str userId)
            /\ prop (decryptSessionToken W (ExecutionSessions.active_token first)) "password"
               = Return (password result)
            /\ sessionId result = Some (ExecutionSessions.session_id first)
            /\ error result = None).
Proof.
  unfold validateExecutionSession, rpc_get_active_session, rpc_record_session_usage.
  unfold_M.
  destruct (createSupabaseClient_cases w) as [[Hcfg ->]|[Hcfg ->]].
  2: { answers_invalid. }
  match goal with |- context [send ?rq ?st ?w0] =>
    destruct (send_cases rq st w0)
      as [(failure & -> & _)|(found & d & Hlost & Hst & ->)] end.
  { answers_invalid. }
  inversion Hst; subst found d; clear Hst.
  destruct (ExecutionSessions.get_active_session (execution_sessions (db w))
              userId (arrival w)) as [|first rest] eqn:Hfound.
  { answers_invalid. }
  match goal with |- context [if ?c then _ else _] => destruct c end.
  { answers_invalid. }
  destruct (truthy (decryptSessionToken W (ExecutionSessions.active_token first)))
    eqn:Htruthy; cbn [negb].
  2: { answers_invalid. }
  destruct (prop_truthy _ "userId" Htruthy) as [owner Howner].
  destruct (prop_truthy _ "password" Htruthy) as [secret Hsecret].
  rewrite Howner.
  destruct (is_string owner userId) eqn:Hsame; cbn [negb].
  2: { answers_invalid. }
  apply is_string_eq in Hsame. subst owner.
  match goal with |- context [send ?rq ?st ?w0] =>
    destruct (send_cases rq st w0)
      as [(failure & -> & _)|(done & d & _ & _ & ->)] end;
    rewrite Hsecret;
    (eexists; eexists; split; [reflexivity|]; simpl; 
     split; [reflexivity|];
     split; [trace_shown|];
     split; [discriminate|];
     intros _; split; [assumption|]; split; [assumption|];
     exists first, rest; repeat split; auto).
Qed.

Lemma validateExecutionSession_mismatch userId w first rest owner :
  configured (env w) -> lost (next_fate w) = false ->
  ExecutionSessions.get_active_session
    (execution_sessions (db w)) userId (arrival w) = first :: rest ->
  (ExecutionSessions.active_expires_at first / 1000
   <? (arrival w + Z.of_N (after (next_fate w))) / 1000) = false ->
  truthy (decryptSessionToken W (ExecutionSessions.active_token first)) = true ->
  prop (decryptSessionToken W (ExecutionSessions.active_token first)) "userId"
  = Return owner ->
  is_string owner userId = false ->
  validateExecutionSession W userId w
  = (Return (invalid "Session user mismatch"),
     answered (Rpc_get_active_session userId) (db w) w).
Proof.
  intros Hcfg Hlost Hfound Hfresh Htruthy Howner Hdiff.
  unfold validateExecutionSession, rpc_get_active_session.
  unfold_M.
  rewrite (createSupabaseClient_configured w Hcfg).
  erewrite send_completed; [|exact Hlost|reflexivity].
  rewrite Hfound. cbn [clock answered].
  rewrite Hfresh, Htruthy. cbn [negb]. rewrite Howner, Hdiff. reflexivity.
Qed.

(** ** getExecutionPassword *)

Lemma stored_password_statement d owner :
  (Pg.bind (single (filter (key_of owner "hyperliquid") (encrypted_keys d)))
           (fun row => Pg.Ok (encrypted_password row, d)))
  = match filter (key_of owner "hyperliquid") (encrypted_keys d) with
    | [row] => Pg.Ok (encrypted_password row, d)
    | _ => Pg.Raise "PGRST116"
    end.
Proof.
  destruct (filter (key_of owner "hyperliquid") (encrypted_keys d)) as [|row [|row' more]];
    reflexivity.
Qed.






(** C7. The token, decoded from Base64, is read as its first 12
    bytes (the iv), its last 32 bytes (the key) and what lies between
    (the ciphertext); the ciphertext is decrypted with that key and
    that iv, and the plaintext parsed as the payload; a token of 44
    bytes or more is those three parts in that order.
    [validateExecutionSession] always returns; a result that is not
    valid carries no password and no session id; a valid result comes
    from a session that [get_active_session] returned, whose token
    decrypted to a payload of the requested owner, and carries the
    password of that payload; and a payload of another owner gives
    [Session user mismatch]. *)
Theorem session_token_decoding :
  (forall token combined,
      decode_base64 W token = Return combined ->
      decryptSessionToken W token
      = match
          Js.bind (aes_gcm_decrypt W
                     (skipn (length combined - 32) combined)
                     (firstn 12 combined)
                     (firstn (length combined - 32 - 12) (skipn 12 combined)))
                  (fun decrypted => JSON_parse W (text_decode W decrypted))
        with
        | Return payload => payload
        | Throw _ => Null
        end
      /\ ((44 <= length combined)%nat ->
          combined = firstn 12 combined
                     ++ firstn (length combined - 32 - 12) (skipn 12 combined)
                     ++ skipn (length combined - 32) combined
          /\ length (firstn 12 combined) = 12%nat
          /\ length (skipn (length combined - 32) combined) = 32%nat))
  /\ (forall userId w,
         exists result w',
           validateExecutionSession W userId w = (Return result, w')
           /\ (valid result = false ->
               password result = Undefined /\ sessionId result = None
               /\ exists message, error result = Some message)
           /\ (valid result = true ->
               exists first rest,
                 ExecutionSessions.get_active_session
                   (execution_sessions (db w)) userId (arrival w) = first :: rest
                 /\ truthy (decryptSessionToken W (ExecutionSessions.active_token first))
                    = true
                 /\ prop (decryptSessionToken W (ExecutionSessions.active_token first))
                         "userId"
                    = Return (Str userId)
                 /\ prop (decryptSessionToken W (ExecutionSessions.active_token first))
                         "password"
                    = Return (password result)
                 /\ sessionId result = Some (ExecutionSessions.session_id first)))
  /\ (forall userId w first rest owner,
         configured (env w) -> lost (next_fate w) = false ->
         ExecutionSessions.get_active_session
           (execution_sessions (db w)) userId (arrival w) = first :: rest ->
         (ExecutionSessions.active_expires_at first / 1000
          <? (arrival w + Z.of_N (after (next_fate w))) / 1000) = false ->
         truthy (decryptSessionToken W (ExecutionSessions.active_token first)) = true ->
         prop (decryptSessionToken W (ExecutionSessions.active_token first)) "userId"
         = Return owner ->
         is_string owner userId = false ->
         validateExecutionSession W userId w
         = (Return {| valid := false; password := Undefined;
                      error := Some "Session user mismatch"; sessionId := None |},
            answered (Rpc_get_active_session userId) (db w) w)).
Proof.
  split; [|split].
  - intros token combined Hdecoded. split.
    + now apply decryptSessionToken_split.
    + apply token_layout.
  - intros userId w.
    destruct (validateExecutionSession_spec userId w)
      as (result & w' & Hrun & _ & _ & Hinvalid & Hvalid).
    exists result, w'. split; [assumption|]. split; [assumption|].
    intros Hv.
    destruct (Hvalid Hv) as (_ & _ & first & rest & H1 & H2 & H3 & H4 & H5 & _).
    exists first, rest. auto.
  - intros userId w first rest owner. apply validateExecutionSession_mismatch.
Qed.


End WithWeb.

End CustodyFacts.

Module CustodyWitnesses.
Import Js Supabase ExecutionSession CustodySpec CustodyFacts SampleCustody.

Example persistent_password_wins :
  fst (getExecutionPassword web "alice" both_tiers)
  = Return {| resolved_password := Str "correct horse";
              resolved_tier := persistent; resolved_error := None |}
  /\ sent (snd (getExecutionPassword web "alice" both_tiers))
     = [SelectEncryptedPassword "alice" "hyperliquid"].
Proof. split; vm_compute; reflexivity. Qed.

Example session_when_no_persistent_password :
  fst (getExecutionPassword web "alice" session_only)
  = Return {| resolved_password := Str "hunter2";
              resolved_tier := session; resolved_error := None |}
  /\ sent (snd (getExecutionPassword web "alice" session_only))
     = [SelectEncryptedPassword "alice" "hyperliquid";
        Rpc_get_active_session "alice"; Rpc_record_session_usage "s-alice"].
Proof. split; vm_compute; reflexivity. Qed.

Example token_of_another_owner :
  fst (validateExecutionSession web "alice" substituted_token)
  = Return {| valid := false; password := Undefined;
              error := Some "Session user mismatch"; sessionId := None |}.
Proof. vm_compute. reflexivity. Qed.

Example token_is_iv_ciphertext_key :
  decode_base64 web (token_of "payload of alice")
  = Return (iv ++ (list_byte_of_string "payload of alice" ++ tag) ++ session_key).
Proof. vm_compute. reflexivity. Qed.



(** Witness of C7: the session row of Alice carries a token sealed for
    Bob. *)
Lemma session_token_decoding_witness :
  validateExecutionSession web "alice" substituted_token
  = (Return {| valid := false; password := Undefined;
               error := Some "Session user mismatch"; sessionId := None |},
     answered (Rpc_get_active_session "alice") (db substituted_token) substituted_token).
Proof.
  destruct (session_token_decoding web) as (_ & _ & Hmismatch).
  apply (Hmismatch "alice" substituted_token
           {| ExecutionSessions.session_id := "s-alice";
              ExecutionSessions.active_token := token_of "payload of bob";
              ExecutionSessions.active_expires_at := 9000000 |}
           [] (Str "bob")).
  - split; reflexivity.
  - reflexivity.
  - vm_compute. reflexivity.
  - vm_compute. reflexivity.
  - vm_compute. reflexivity.
  - vm_compute. reflexivity.
  - reflexivity.
Defined.

End CustodyWitnesses.

(* ===================================================================== *)
(** * Properties of the trigger *)
(* ===================================================================== *)

Module OrchestrationFacts.
Import Js Supabase CronTrigger CustodySpec OrchestrationSpec CustodyFacts.

Lemma key_blob_statement d owner :
  (Pg.bind (single (filter (key_of owner "hyperliquid") (encrypted_keys d)))
           (fun row => Pg.Ok ((encrypted_blob row, encryption_salt row), d)))
  = match filter (key_of owner "hyperliquid") (encrypted_keys d) with
    | [row] => Pg.Ok ((encrypted_blob row, encryption_salt row), d)
    | _ => Pg.Raise "PGRST116"
    end.
Proof.
  destruct (filter (key_of owner "hyperliquid") (encrypted_keys d)) as [|row [|row' more]];
    reflexivity.
Qed.

Ltac keys_unchanged :=
  match goal with
  | Hdone : Pg.bind ?m _ = Pg.Ok _ |- _ =>
      unfold Pg.bind in Hdone; destruct m; inversion Hdone; reflexivity
  end.

Ltac run_recorded which :=
  match goal with |- context [send ?rq ?st ?w0] =>
    destruct (send_cases rq st w0)
      as [(? & -> & _)|(? & ? & _ & ? & ->)] end;
  (eexists; eexists; eexists; (split; [reflexivity|]); simpl;
   (split; [rewrite <- ?app_assoc; reflexivity|]);
   (split; [reflexivity|]); (split; [first [reflexivity | keys_unchanged]|]);
   (split; [reflexivity|]); (split; [reflexivity|]); which).

(** What [executeSchedule] does, by the answer to its first request. *)
Lemma executeSchedule_spec schedule w :
  let owner := CronSchedules.due_user_id schedule in
  let sid := CronSchedules.schedule_id schedule in
  exists result w' new,
    executeSchedule schedule w = (Return result, w')
    /\ sent w' = sent w ++ new
    /\ env w' = env w
    /\ encrypted_keys (db w') = encrypted_keys (db w)
    /\ scheduleId result = sid /\ userId result = owner
    /\ ((~ (lost (next_fate w) = false /\ key_found (db w) owner)
         /\ new = [SelectEncryptedBlob owner "hyperliquid";
                   Rpc_record_schedule_error sid "No encrypted key found for user"]
         /\ success result = false
         /\ error result = Some "No encrypted key found for user")
        \/ (lost (next_fate w) = false /\ key_found (db w) owner
            /\ CronSchedules.due_coins schedule = None
            /\ (exists message,
                   new = [SelectEncryptedBlob owner "hyperliquid";
                          SelectDealerSettings owner;
                          Rpc_record_schedule_error sid message]
                   /\ error result = Some message)
            /\ success result = false)
        \/ (lost (next_fate w) = false /\ key_found (db w) owner
            /\ CronSchedules.due_coins schedule <> None
            /\ new = [SelectEncryptedBlob owner "hyperliquid";
                      SelectDealerSettings owner;
                      Rpc_record_schedule_success sid]
            /\ success result = true /\ error result = None)).
Proof.
  intros owner sid.
  unfold executeSchedule, select_encrypted_blob, select_dealer_settings,
    rpc_record_schedule_success, rpc_record_schedule_error.
  fold owner sid. unfold_M.
  match goal with |- context [send (SelectEncryptedBlob owner "hyperliquid") ?st w] =>
    destruct (send_cases (SelectEncryptedBlob owner "hyperliquid") st w)
      as [(failure & -> & Hwhy)|(found & d & Hlost & Hst & ->)] end.
  - (* the key record is not read *)
    run_recorded ltac:(
      left; split; [|auto];
      intros (Hl & row & Hrow);
      destruct Hwhy as [Hwhy|Hwhy]; [congruence|];
      rewrite key_blob_statement, Hrow in Hwhy; discriminate).
  - (* the key record is read *)
    rewrite key_blob_statement in Hst.
    assert (Hfound : key_found (db w) owner /\ d = db w).
    { unfold key_found.
      destruct (filter (key_of owner "hyperliquid") (encrypted_keys (db w)))
        as [|row [|row' more]]; inversion Hst; eauto. }
    destruct Hfound as [Hfound ->]. clear Hst.
    match goal with |- context [send (SelectDealerSettings owner) ?st ?w0] =>
      destruct (send_cases (SelectDealerSettings owner) st w0)
        as [(failure & -> & _)|(settings & d & _ & Hset & ->)] end.
    + destruct (CronSchedules.due_coins schedule) as [coin_list|] eqn:Hcoins.
      * run_recorded ltac:(right; right; repeat split; auto; discriminate).
      * run_recorded ltac:(right; left; do 3 (split; [auto|]);
                           split; [eexists; split; reflexivity|reflexivity]).
    + assert (d = db w) as ->.
      { unfold Pg.bind in Hset.
        destruct (single _); inversion Hset. reflexivity. }
      clear Hset.
      destruct (CronSchedules.due_coins schedule) as [coin_list|] eqn:Hcoins.
      * run_recorded ltac:(right; right; repeat split; auto; discriminate).
      * run_recorded ltac:(right; left; do 3 (split; [auto|]);
                           split; [eexists; split; reflexivity|reflexivity]).
Qed.

Lemma executeSchedule_run schedule w :
  exists result w' new,
    executeSchedule schedule w = (Return result, w')
    /\ sent w' = sent w ++ new
    /\ run_of schedule new
    /\ outcome_recorded result new
    /\ scheduleId result = CronSchedules.schedule_id schedule
    /\ (success result = false -> exists message, error result = Some message)
    /\ (~ (lost (next_fate w) = false
           /\ key_found (db w) (CronSchedules.due_user_id schedule)) ->
        success result = false
        /\ error result = Some "No encrypted key found for user"
        /\ new = [SelectEncryptedBlob (CronSchedules.due_user_id schedule) "hyperliquid";
                  Rpc_record_schedule_error (CronSchedules.schedule_id schedule)
                    "No encrypted key found for user"]).
Proof.
  destruct (executeSchedule_spec schedule w)
    as (result & w' & new & Hrun & Hsent & _ & _ & Hid & _ & Hcases).
  exists result, w', new. split; [assumption|]. split; [assumption|].
  unfold run_of, outcome_recorded, recorded_outcome. rewrite Hid.
  destruct Hcases
    as [(Hnot & -> & Hs & He)
       |[(Hl & Hk & _ & (message & -> & He) & Hs)
        |(Hl & Hk & _ & -> & Hs & He)]];
    rewrite Hs, ?He.
  - split; [now left|].
    split; [exists [SelectEncryptedBlob (CronSchedules.due_user_id schedule) "hyperliquid"];
            reflexivity|].
    split; [reflexivity|]. split; [eauto|]. auto.
  - split; [right; left; eauto|].
    split; [exists [SelectEncryptedBlob (CronSchedules.due_user_id schedule) "hyperliquid";
                    SelectDealerSettings (CronSchedules.due_user_id schedule)];
            reflexivity|].
    split; [reflexivity|]. split; [eauto|].
    intros Hnot. exfalso. apply Hnot. auto.
  - split; [right; right; reflexivity|].
    split; [exists [SelectEncryptedBlob (CronSchedules.due_user_id schedule) "hyperliquid";
                    SelectDealerSettings (CronSchedules.due_user_id schedule)];
            reflexivity|].
    split; [reflexivity|]. split; [discriminate|].
    intros Hnot. exfalso. apply Hnot. auto.
Qed.

Lemma execute_each_spec dueSchedules :
  forall w,
  exists results w' runs,
    execute_each dueSchedules w = (Return results, w')
    /\ sent w' = sent w ++ concat runs
    /\ Forall2 run_of dueSchedules runs
    /\ Forall2 outcome_recorded results runs
    /\ map scheduleId results = map CronSchedules.schedule_id dueSchedules
    /\ Forall (fun r => success r = false -> exists message, error r = Some message) results.
Proof.
  induction dueSchedules as [|schedule rest IH]; intros w.
  - exists [], w, []. simpl. rewrite app_nil_r. repeat split; constructor.
  - destruct (executeSchedule_run schedule w)
      as (result & w1 & new & Hrun & Hsent & Hof & Hout & Hid & Herr & _).
    destruct (IH w1) as (results & w' & runs & Hrest & Hsent' & Hofs & Houts & Hids & Herrs).
    exists (result :: results), w', (new :: runs).
    split.
    { cbn [execute_each]. unfold Supabase.bind at 1. rewrite Hrun.
      unfold Supabase.bind at 1. rewrite Hrest. reflexivity. }
    split; [rewrite Hsent', Hsent; simpl; now rewrite app_assoc|].
    split; [now constructor|]. split; [now constructor|].
    split; [cbn [map]; rewrite Hid, Hids; reflexivity|]. now constructor.
Qed.

Lemma run_of_clean schedule requests :
  run_of schedule requests ->
  Forall (fun rq => resolves_credentials rq = false) requests
  /\ ~ In Rpc_get_due_schedules requests.
Proof.
  intros [->|[(message & ->)| ->]]; split;
    try (repeat constructor);
    simpl; intuition discriminate.
Qed.

Lemma runs_clean dueSchedules runs :
  Forall2 run_of dueSchedules runs ->
  Forall (fun rq => resolves_credentials rq = false) (concat runs)
  /\ ~ In Rpc_get_due_schedules (concat runs).
Proof.
  induction 1 as [|schedule requests l l' Hrun _ [IH1 IH2]]; simpl.
  - split; [constructor|tauto].
  - destruct (run_of_clean _ _ Hrun) as [H1 H2]. split.
    + apply Forall_app; auto.
    + rewrite in_app_iff. tauto.
Qed.

Section Handler.
Context {Cors : Type}.
Variable handleCors : trigger_request -> option Cors.

Ltac nothing_sent :=
  eexists; eexists; exists []; (split; [reflexivity|]);
  (split; [now rewrite app_nil_r|]); (split; [now left|]);
  (split; [constructor|]).

Lemma serve_spec req w :
  exists response w' new,
    serve handleCors req w = (Return response, w')
    /\ sent w' = sent w ++ new
    /\ (new = []
        \/ exists rest, new = Rpc_get_due_schedules :: rest
                        /\ ~ In Rpc_get_due_schedules rest)
    /\ Forall (fun rq => resolves_credentials rq = false) new
    /\ (authorized handleCors req w ->
        lost (next_fate w) = false ->
        let due := CronSchedules.get_due_schedules (cron_schedules (db w)) (arrival w) in
        exists runs results,
          new = Rpc_get_due_schedules :: concat runs
          /\ Forall2 run_of due runs
          /\ Forall2 outcome_recorded results runs
          /\ map scheduleId results = map CronSchedules.schedule_id due
          /\ (due = [] -> response = NoSchedulesDue)
          /\ (due <> [] ->
              response = Executed (Z.of_nat (length results))
                                  (count success results)
                                  (count (fun r => negb (success r)) results)
                                  results)).
Proof.
  unfold serve.
  destruct (handleCors req) as [corsResponse|] eqn:Hcors.
  { unfold ret. nothing_sent. intros Ha. destruct Ha as (Hc & _). congruence. }
  unfold rpc_get_due_schedules. unfold_M.
  destruct (falsy_secret (x_cron_secret req)
            || differs (x_cron_secret req) (CRON_SECRET (env w))) eqn:Hsecret.
  { nothing_sent. intros Ha. destruct Ha as (_ & H1 & H2 & _).
    rewrite H1, H2 in Hsecret. discriminate. }
  destruct (createSupabaseClient_cases w) as [[Hcfg ->]|[Hcfg ->]].
  2: { nothing_sent. intros Ha. destruct Ha as (_ & _ & _ & Hc). contradiction. }
  match goal with |- context [send Rpc_get_due_schedules ?st w] =>
    destruct (send_cases Rpc_get_due_schedules st w)
      as [(failure & -> & Hwhy)|(due & d & Hlost & Hst & ->)] end.
  { eexists; eexists; exists [Rpc_get_due_schedules].
    split; [reflexivity|]. split; [reflexivity|].
    split; [right; exists []; split; [reflexivity|tauto]|].
    split; [repeat constructor|].
    intros _ Hl. destruct Hwhy as [Hwhy|Hwhy]; [congruence|discriminate]. }
  inversion Hst; subst due d; clear Hst.
  destruct (CronSchedules.get_due_schedules (cron_schedules (db w)) (arrival w))
    as [|schedule more] eqn:Hdue.
  { eexists; eexists; exists [Rpc_get_due_schedules].
    split; [reflexivity|]. split; [reflexivity|].
    split; [right; exists []; split; [reflexivity|tauto]|].
    split; [repeat constructor|].
    intros _ _. exists [], []. simpl.
    repeat split; try constructor. intros H; now destruct H. }
  destruct (execute_each_spec (schedule :: more)
              (answered Rpc_get_due_schedules (db w) w))
    as (results & w' & runs & Heach & Hsent & Hruns & Houts & Hids & _).
  rewrite Heach.
  destruct (runs_clean _ _ Hruns) as [Hclean Honce].
  eexists; eexists; exists (Rpc_get_due_schedules :: concat runs).
  split; [reflexivity|].
  split; [rewrite Hsent; simpl; now rewrite <- app_assoc|].
  split; [right; eauto|].
  split; [constructor; [reflexivity|assumption]|].
  intros _ _. exists runs, results. repeat split; auto. discriminate.
Qed.

(** C9, as the code has it.  Every invocation of the trigger returns
    a response.  It fetches the due schedules at most once, and
    exactly once, first of all, when the request passes the checks
    (CORS, the cron secret, the configuration of the client).  It
    sends no request that resolves credentials: [executeSchedule]
    does not call [getExecutionPassword].  When the schedules are
    fetched, each due schedule is run in turn: its run first reads
    the encrypted key record [hyperliquid] of its owner, and last
    records its outcome, with [record_schedule_success] or
    [record_schedule_error], a record for each schedule.  And a run
    whose key record cannot be read records the error
    [No encrypted key found for user] and reports a failure, without
    the analysis. *)
Theorem orchestration_as_built :
  (forall req w,
      exists response w' new,
        serve handleCors req w = (Return response, w')
        /\ sent w' = sent w ++ new
        /\ (new = []
            \/ exists rest, new = Rpc_get_due_schedules :: rest
                            /\ ~ In Rpc_get_due_schedules rest)
        /\ Forall (fun rq => resolves_credentials rq = false) new
        /\ (authorized handleCors req w ->
            lost (next_fate w) = false ->
            let due :=
              CronSchedules.get_due_schedules (cron_schedules (db w)) (arrival w) in
            exists runs results,
              new = Rpc_get_due_schedules :: concat runs
              /\ Forall2 run_of due runs
              /\ Forall2 outcome_recorded results runs
              /\ map scheduleId results = map CronSchedules.schedule_id due
              /\ (due = [] -> response = NoSchedulesDue)
              /\ (due <> [] ->
                  response = Executed (Z.of_nat (length results))
                                      (count success results)
                                      (count (fun r => negb (success r)) results)
                                      results)))
  /\ (forall schedule w,
         exists result w' new,
           executeSchedule schedule w = (Return result, w')
           /\ sent w' = sent w ++ new
           /\ run_of schedule new
           /\ outcome_recorded result new
           /\ (~ (lost (next_fate w) = false
                  /\ key_found (db w) (CronSchedules.due_user_id schedule)) ->
               success result = false
               /\ error result = Some "No encrypted key found for user"
               /\ new = [SelectEncryptedBlob (CronSchedules.due_user_id schedule)
                           "hyperliquid";
                         Rpc_record_schedule_error (CronSchedules.schedule_id schedule)
                           "No encrypted key found for user"])).
Proof.
  split.
  - apply serve_spec.
  - intros schedule w.
    destruct (executeSchedule_run schedule w)
      as (result & w' & new & Hrun & Hsent & Hof & Hout & _ & _ & Hkey).
    exists result, w', new. auto.
Qed.

End Handler.

End OrchestrationFacts.

Module OrchestrationWitnesses.
Import Js Supabase CronTrigger CustodySpec OrchestrationSpec OrchestrationFacts SampleCustody.

Example due_schedule_is_analysed :
  fst (serve preflight trigger due_without_credentials)
  = Return (Executed 1 1 0
              [ {| scheduleId := "sched-1"; userId := "alice"; success := true;
                   error := None; executedAt := 1000 |} ])
  /\ sent (snd (serve preflight trigger due_without_credentials))
     = [Rpc_get_due_schedules; SelectEncryptedBlob "alice" "hyperliquid";
        SelectDealerSettings "alice"; Rpc_record_schedule_success "sched-1"].
Proof. split; vm_compute; reflexivity. Qed.

Example wrong_secret_is_refused :
  fst (serve preflight {| http_method := "POST"; x_cron_secret := Some "guess" |}
             due_without_credentials)
  = Return (ErrorResponse "Unauthorized" 401)
  /\ sent (snd (serve preflight {| http_method := "POST"; x_cron_secret := Some "guess" |}
                      due_without_credentials)) = [].
Proof. split; vm_compute; reflexivity. Qed.

(** The claim C9 fails on a due schedule whose owner has a key record
    but neither a persistent password nor a session: her credentials do
    not resolve, the trigger does not try to resolve them, and it
    records a success for the schedule. *)
Lemma credentials_are_not_resolved :
  ~ claimed_orchestration web preflight trigger due_without_credentials.
Proof.
  intros Hclaim.
  destruct (Hclaim {| CronSchedules.schedule_id := "sched-1";
                      CronSchedules.due_user_id := "alice";
                      CronSchedules.due_coins := Some ["BTC"];
                      CronSchedules.due_interval_seconds := 60 |})
    as [_ Herror].
  { vm_compute. left. reflexivity. }
  destruct (Herror {| ExecutionSession.resolved_password := Null;
                      ExecutionSession.resolved_tier := ExecutionSession.none;
                      ExecutionSession.resolved_error := Some "No active session found" |})
    as [message Hin].
  { vm_compute. reflexivity. }
  { reflexivity. }
  vm_compute in Hin.
  repeat (destruct Hin as [Hin|Hin]; [discriminate Hin|]). exact Hin.
Qed.

(** Witness of C9: the trigger on the schedule of Alice. *)
Lemma orchestration_as_built_witness :
  authorized preflight trigger due_without_credentials
  /\ exists runs,
      sent (snd (serve preflight trigger due_without_credentials))
      = Rpc_get_due_schedules :: concat runs
      /\ Forall2 run_of
           (CronSchedules.get_due_schedules
              (cron_schedules (db due_without_credentials))
              (arrival due_without_credentials))
           runs.
Proof.
  assert (Hauthorized : authorized preflight trigger due_without_credentials).
  { split; [reflexivity|]. split; [reflexivity|]. split; [reflexivity|].
    split; reflexivity. }
  split; [exact Hauthorized|].
  destruct (orchestration_as_built preflight) as [Hserve _].
  destruct (Hserve trigger due_without_credentials)
    as (response & w' & new & Hrun & Hsent & _ & _ & Hfetched).
  destruct (Hfetched Hauthorized eq_refl) as (runs & results & -> & Hruns & _).
  exists runs. rewrite Hrun. simpl. split; [exact Hsent|exact Hruns].
Defined.

End OrchestrationWitnesses.

(* ===================================================================== *)
(** * Properties of the store under the edge functions *)
(* ===================================================================== *)

Module ServerFacts.
Import Pg Js Supabase ExecutionSession CronTrigger ScheduleSpec ServerSpec PgFacts.

(** A relation on stores that every statement of the server respects
    is respected by every function of the server: by induction on the
    function bodies. *)
Section Keeps.

Variable R : database -> database -> Prop.
Hypothesis R_refl : forall d, R d d.
Hypothesis R_trans : forall a b c, R a b -> R b c -> R a c.

Lemma keeps_ret {A} (a : A) : keeps R (ret a).
Proof. intros w. apply R_refl. Qed.

Lemma keeps_throw {A} e : keeps R (@throw A e).
Proof. intros w. apply R_refl. Qed.

Lemma keeps_lift {A} (o : outcome A) : keeps R (lift o).
Proof. intros w. apply R_refl. Qed.

Lemma keeps_get_env : keeps R get_env.
Proof. intros w. apply R_refl. Qed.

Lemma keeps_Date_now : keeps R Supabase.Date_now.
Proof. intros w. apply R_refl. Qed.

Lemma keeps_bind {A B} (m : M A) (k : A -> M B) :
  keeps R m -> (forall a, keeps R (k a)) -> keeps R (Supabase.bind m k).
Proof.
  intros Hm Hk w. unfold Supabase.bind.
  specialize (Hm w). destruct (m w) as [[a|e] w1]; simpl in *; [|assumption].
  eapply R_trans; [exact Hm | apply Hk].
Qed.

Lemma keeps_try_catch {A} (body : M A) handler :
  keeps R body -> (forall e, keeps R (handler e)) ->
  keeps R (Supabase.try_catch body handler).
Proof.
  intros Hm Hk w. unfold Supabase.try_catch.
  specialize (Hm w). destruct (body w) as [[a|e] w1]; simpl in *; [assumption|].
  eapply R_trans; [exact Hm | apply Hk].
Qed.

Lemma keeps_send {A} rq
      (statement : database -> timestamptz -> result (A * database)) :
  (forall d now a d', statement d now = Ok (a, d') -> R d d') ->
  keeps R (send rq statement).
Proof.
  intros Hst w. unfold send.
  destruct (lost _); simpl; [apply R_refl|].
  destruct (statement _ _) as [[a d']|e] eqn:E; simpl; [|apply R_refl].
  eapply Hst; exact E.
Qed.

Lemma keeps_createSupabaseClient : keeps R createSupabaseClient.
Proof.
  unfold createSupabaseClient. apply keeps_bind; [apply keeps_get_env|].
  intros e. destruct (_ || _); [apply keeps_throw|apply keeps_ret].
Qed.

(** The requests that read. *)
Lemma keeps_select_encrypted_password u k : keeps R (select_encrypted_password u k).
Proof.
  apply keeps_send. intros d now a d' H.
  destruct (single _); simpl in H; inversion H; subst. apply R_refl.
Qed.

Lemma keeps_select_encrypted_blob u k : keeps R (select_encrypted_blob u k).
Proof.
  apply keeps_send. intros d now a d' H.
  destruct (single _); simpl in H; inversion H; subst. apply R_refl.
Qed.

Lemma keeps_select_dealer_settings u : keeps R (select_dealer_settings u).
Proof.
  apply keeps_send. intros d now a d' H.
  destruct (single _); simpl in H; inversion H; subst. apply R_refl.
Qed.

Lemma keeps_rpc_get_active_session u : keeps R (rpc_get_active_session u).
Proof.
  apply keeps_send. intros d now a d' H. inversion H; subst. apply R_refl.
Qed.

Lemma keeps_rpc_get_due_schedules : keeps R rpc_get_due_schedules.
Proof.
  apply keeps_send. intros d now a d' H. inversion H; subst. apply R_refl.
Qed.

(** The requests that write sessions. *)
Hypothesis R_revoke :
  forall d sid t,
    ExecutionSessions.update_revoked (execution_sessions d) sid = Ok t ->
    R d (with_sessions d t).
Hypothesis R_usage :
  forall d now sid t,
    ExecutionSessions.record_session_usage (execution_sessions d) now sid = Ok t ->
    R d (with_sessions d t).

Lemma keeps_update_revoked sid : keeps R (Supabase.update_revoked sid).
Proof.
  apply keeps_send. intros d now a d' H.
  destruct (ExecutionSessions.update_revoked _ _) eqn:E; simpl in H;
    inversion H; subst.
  eapply R_revoke; exact E.
Qed.

Lemma keeps_rpc_record_session_usage sid : keeps R (rpc_record_session_usage sid).
Proof.
  apply keeps_send. intros d now a d' H.
  destruct (ExecutionSessions.record_session_usage _ _ _) eqn:E; simpl in H;
    inversion H; subst.
  eapply R_usage; exact E.
Qed.

(** The requests that write schedules. *)
Hypothesis R_success :
  forall d now sid t,
    CronSchedules.record_schedule_success (cron_schedules d) now sid = Ok t ->
    R d (with_schedules d t).
Hypothesis R_error :
  forall d now sid msg t,
    CronSchedules.record_schedule_error (cron_schedules d) now sid msg = Ok t ->
    R d (with_schedules d t).

Lemma keeps_rpc_record_schedule_success sid : keeps R (rpc_record_schedule_success sid).
Proof.
  apply keeps_send. intros d now a d' H.
  destruct (CronSchedules.record_schedule_success _ _ _) eqn:E; simpl in H;
    inversion H; subst.
  eapply R_success; exact E.
Qed.

Lemma keeps_rpc_record_schedule_error sid msg :
  keeps R (rpc_record_schedule_error sid msg).
Proof.
  apply keeps_send. intros d now a d' H.
  destruct (CronSchedules.record_schedule_error _ _ _ _) eqn:E; simpl in H;
    inversion H; subst.
  eapply R_error; exact E.
Qed.

Ltac keeps_step :=
  first
    [ apply keeps_ret | apply keeps_throw | apply keeps_lift
    | apply keeps_get_env | apply keeps_Date_now
    | apply keeps_createSupabaseClient
    | apply keeps_select_encrypted_password
    | apply keeps_select_encrypted_blob
    | apply keeps_select_dealer_settings
    | apply keeps_rpc_get_active_session
    | apply keeps_rpc_get_due_schedules
    | apply keeps_update_revoked
    | apply keeps_rpc_record_session_usage
    | apply keeps_rpc_record_schedule_success
    | apply keeps_rpc_record_schedule_error
    | apply keeps_bind; [|intro]
    | apply keeps_try_catch; [|intro]
    | match goal with
      | |- keeps _ (match ?x with _ => _ end) => destruct x
      | |- keeps _ (if ?b then _ else _) => destruct b
      end ].

(** ** The custodian *)

Variable W : WebPlatform.

Lemma keeps_validateExecutionSession userId :
  keeps R (validateExecutionSession W userId).
Proof. unfold validateExecutionSession. cbv zeta. repeat keeps_step. Qed.

Lemma keeps_check_tier_b userId : keeps R (check_tier_b W userId).
Proof.
  unfold check_tier_b. apply keeps_bind; [apply keeps_validateExecutionSession|].
  intro. repeat keeps_step.
Qed.

Lemma keeps_getExecutionPassword userId : keeps R (getExecutionPassword W userId).
Proof.
  unfold getExecutionPassword, decryptStoredPassword.
  repeat first [apply keeps_check_tier_b | keeps_step].
Qed.

Lemma keeps_revokeSession sid : keeps R (revokeSession sid).
Proof. unfold revokeSession. repeat keeps_step. Qed.

Lemma keeps_hasExecutionCapability userId : keeps R (hasExecutionCapability W userId).
Proof.
  unfold hasExecutionCapability.
  apply keeps_bind; [apply keeps_getExecutionPassword|]. intro. apply keeps_ret.
Qed.

(** ** The orchestrator *)

Lemma keeps_executeSchedule schedule : keeps R (executeSchedule schedule).
Proof. unfold executeSchedule. cbv zeta. repeat keeps_step. Qed.

Lemma keeps_execute_each due : keeps R (execute_each due).
Proof.
  induction due as [|schedule rest IH]; simpl.
  - apply keeps_ret.
  - apply keeps_bind; [apply keeps_executeSchedule|]. intro.
    apply keeps_bind; [exact IH|]. intro. apply keeps_ret.
Qed.

Lemma keeps_serve {Cors} (handleCors : trigger_request -> option Cors) req :
  keeps R (serve handleCors req).
Proof.
  unfold serve. cbv zeta.
  repeat first [apply keeps_execute_each | keeps_step].
Qed.


Lemma keeps_perform {Cors} (handleCors : trigger_request -> option Cors) op :
  forall w, R (db w) (db (perform W handleCors op w)).
Proof.
  destruct op; simpl.
  - apply keeps_validateExecutionSession.
  - apply keeps_getExecutionPassword.
  - apply keeps_hasExecutionCapability.
  - apply keeps_revokeSession.
  - apply keeps_serve.
Qed.

Lemma keeps_follows {Cors} (handleCors : trigger_request -> option Cors) w w' :
  follows W handleCors w w' -> R (db w) (db w').
Proof.
  induction 1 as [|w' op _ IH|w' w'' _ IH Hdb].
  - apply R_refl.
  - eapply R_trans; [exact IH|apply keeps_perform].
  - rewrite Hdb. exact IH.
Qed.

End Keeps.

(** ** The schedules under the edge functions *)

Lemma schedules_stay_disabled_refl d : schedules_stay_disabled d d.
Proof. apply Forall2_refl, ScheduleFacts.stays_disabled_refl. Qed.

Lemma schedules_stay_disabled_trans a b c :
  schedules_stay_disabled a b -> schedules_stay_disabled b c ->
  schedules_stay_disabled a c.
Proof. apply Forall2_trans, ScheduleFacts.stays_disabled_trans. Qed.

Lemma success_stays_disabled d now sid t :
  CronSchedules.record_schedule_success (cron_schedules d) now sid = Ok t ->
  schedules_stay_disabled d (with_schedules d t).
Proof.
  intros H.
  pose proof (ScheduleFacts.exec_stays_disabled
                now (CronSchedules.RecordSuccess sid) (cron_schedules d)) as Hs.
  simpl in Hs. rewrite H in Hs. exact Hs.
Qed.

Lemma error_stays_disabled d now sid msg t :
  CronSchedules.record_schedule_error (cron_schedules d) now sid msg = Ok t ->
  schedules_stay_disabled d (with_schedules d t).
Proof.
  intros H.
  pose proof (ScheduleFacts.exec_stays_disabled
                now (CronSchedules.RecordError sid msg) (cron_schedules d)) as Hs.
  simpl in Hs. rewrite H in Hs. exact Hs.
Qed.

Lemma follows_stays_disabled {Cors} W (handleCors : trigger_request -> option Cors) w w' :
  follows W handleCors w w' -> schedules_stay_disabled (db w) (db w').
Proof.
  apply keeps_follows.
  - exact schedules_stay_disabled_refl.
  - exact schedules_stay_disabled_trans.
  - intros d sid t _. exact (schedules_stay_disabled_refl d).
  - intros d now sid t _. exact (schedules_stay_disabled_refl d).
  - exact success_stays_disabled.
  - exact error_stays_disabled.
Qed.

(** ** The sessions under the edge functions *)

Lemma sessions_stay_revoked_trans sid a b c :
  sessions_stay_revoked sid a b -> sessions_stay_revoked sid b c ->
  sessions_stay_revoked sid a c.
Proof. unfold sessions_stay_revoked. auto. Qed.

Lemma revoke_stays_revoked sid d s t :
  ExecutionSessions.update_revoked (execution_sessions d) s = Ok t ->
  sessions_stay_revoked sid d (with_sessions d t).
Proof.
  intros H Hall.
  pose proof (SessionFacts.exec_keeps_revoked
                0 (ExecutionSessions.RevokeSession s) sid _ Hall) as Hs.
  simpl in Hs. rewrite H in Hs. exact Hs.
Qed.

Lemma usage_stays_revoked sid d now s t :
  ExecutionSessions.record_session_usage (execution_sessions d) now s = Ok t ->
  sessions_stay_revoked sid d (with_sessions d t).
Proof.
  intros H Hall.
  pose proof (SessionFacts.exec_keeps_revoked
                now (ExecutionSessions.RecordSessionUsage s) sid _ Hall) as Hs.
  simpl in Hs. rewrite H in Hs. exact Hs.
Qed.

Lemma follows_stays_revoked {Cors} W (handleCors : trigger_request -> option Cors)
      sid w w' :
  follows W handleCors w w' -> sessions_stay_revoked sid (db w) (db w').
Proof.
  apply keeps_follows.
  - intros d H. exact H.
  - apply sessions_stay_revoked_trans.
  - intros d s t. apply revoke_stays_revoked.
  - intros d now s t. apply usage_stays_revoked.
  - intros d now s t _ H. exact H.
  - intros d now s msg t _ H. exact H.
Qed.

(** [revokeSession] returns [true] only when the update went through. *)
Lemma revokeSession_revokes sid w w' :
  revokeSession sid w = (Return true, w') ->
  Forall (SessionSpec.revoked_for_good sid) (execution_sessions (db w')).
Proof.
  unfold revokeSession, Supabase.update_revoked. CustodyFacts.unfold_M.
  destruct (CustodyFacts.createSupabaseClient_cases w) as [[_ ->]|[_ ->]];
    [|discriminate].
  match goal with |- context [send ?rq ?st ?w0] =>
    destruct (CustodyFacts.send_cases rq st w0)
      as [(failure & -> & _)|(done & d & _ & Hst & ->)] end;
    [discriminate|].
  intros Hdone. inversion Hdone; subst w'. clear Hdone.
  destruct (ExecutionSessions.update_revoked (execution_sessions (db w)) sid)
    as [t|e] eqn:E; simpl in Hst; inversion Hst; subst. simpl.
  eapply SessionFacts.update_revoked_revokes; exact E.
Qed.

(** A revoked session does not validate. *)
Lemma revoked_not_validated W sid userId w result :
  Forall (SessionSpec.revoked_for_good sid) (execution_sessions (db w)) ->
  fst (validateExecutionSession W userId w) = Return result ->
  sessionId result <> Some sid.
Proof.
  intros Hall Hrun Hsid.
  destruct (CustodyFacts.validateExecutionSession_spec W userId w)
    as (result' & w' & Hspec & _ & _ & Hinvalid & Hvalid).
  rewrite Hspec in Hrun. simpl in Hrun. inversion Hrun; subst result'.
  destruct (valid result) eqn:Hv.
  - destruct (Hvalid eq_refl) as (_ & _ & first & rest & Hfound & _ & _ & _ & Hid & _).
    assert (Hin : In first (ExecutionSessions.get_active_session
                              (execution_sessions (db w)) userId (CustodySpec.arrival w)))
      by (rewrite Hfound; now left).
    apply SessionFacts.get_active_session_In in Hin
      as (es & Hes & <- & (_ & Hrev & _) & _).
    rewrite Forall_forall in Hall. specialize (Hall es Hes).
    rewrite Hid in Hsid. inversion Hsid as [Heq].
    simpl in Heq. specialize (Hall Heq). congruence.
  - destruct (Hinvalid eq_refl) as (_ & Hnone & _). congruence.
Qed.

(** C1. No server-side operation sets [enabled] to true.  The column
    default is [false].  Whatever calls to [get_due_schedules],
    [record_schedule_success] and [record_schedule_error] are made, one
    at a time or in any sequence, completed or raised, a row whose
    [enabled] was false keeps it false, so that [record_schedule_error]
    moves [enabled] from true to false only.  And whatever the trigger
    handler and the functions of the session custodian do, once or any
    number of times, every schedule that was disabled is still
    disabled. *)
Theorem enabled_never_set_true :
  (forall fresh now c,
      CronSchedules.ins_enabled c = None ->
      CronSchedules.enabled (CronSchedules.new_row fresh now c) = false)
  /\ (forall now c tbl, Forall2 stays_disabled tbl (CronSchedules.exec now c tbl))
  /\ (forall calls tbl, Forall2 stays_disabled tbl (CronSchedules.run calls tbl))
  /\ (forall tbl now sid msg tbl',
         CronSchedules.record_schedule_error tbl now sid msg = Ok tbl' ->
         Forall2 (fun cs cs' => CronSchedules.enabled cs' = true ->
                                CronSchedules.enabled cs = true) tbl tbl')
  /\ (forall Cors W (handleCors : trigger_request -> option Cors) op w,
         schedules_stay_disabled (db w) (db (perform W handleCors op w)))
  /\ (forall Cors W (handleCors : trigger_request -> option Cors) w w',
         follows W handleCors w w' -> schedules_stay_disabled (db w) (db w')).
Proof.
  split; [|split; [|split; [|split; [|split]]]].
  - intros fresh now c H. unfold CronSchedules.new_row; simpl. now rewrite H.
  - apply ScheduleFacts.exec_stays_disabled.
  - apply ScheduleFacts.run_stays_disabled.
  - intros tbl now sid msg tbl' H.
    pose proof (ScheduleFacts.exec_stays_disabled
                  now (CronSchedules.RecordError sid msg) tbl) as Hs.
    simpl in Hs. rewrite H in Hs. simpl in Hs.
    eapply Forall2_impl; [|exact Hs].
    intros cs cs' [_ Hd] He. destruct (CronSchedules.enabled cs); auto.
    rewrite Hd in He; auto.
  - intros Cors W handleCors op w.
    apply (follows_stays_disabled W handleCors).
    apply follows_operation, follows_now.
  - intros Cors W handleCors w w'. apply follows_stays_disabled.
Qed.

(** C6. [get_active_session] returns at most one row; a returned row is
    a row of the owner with [revoked = false] and [expires_at] strictly
    after [NOW()], and no such row of the owner expires later; some row
    is returned whenever the owner has such a row; so a session whose
    [expires_at] is not after [NOW()] is never returned, revoked or not.
    The update that [revokeSession(id)] sends completes, and from then
    on, whatever the server calls afterwards, no owner and no time
    resolve the session with that id; and once [revokeSession(id)] has
    returned [true], whatever the server does afterwards, no
    validation, for any owner, gives the session with that id. *)
Theorem get_active_session_only_usable :
  (forall tbl owner now,
      (length (ExecutionSessions.get_active_session tbl owner now) <= 1)%nat
      /\ (forall s, In s (ExecutionSessions.get_active_session tbl owner now) ->
            exists es,
              In es tbl /\ ExecutionSessions.active_columns es = s
              /\ SessionSpec.usable owner now es
              /\ forall es', In es' tbl -> SessionSpec.usable owner now es' ->
                             ExecutionSessions.expires_at es'
                             <= ExecutionSessions.expires_at es)
      /\ ((exists es, In es tbl /\ SessionSpec.usable owner now es) ->
          ExecutionSessions.get_active_session tbl owner now <> [])
      /\ (forall s, In s (ExecutionSessions.get_active_session tbl owner now) ->
                    now < ExecutionSessions.active_expires_at s))
  /\ (forall tbl sid,
         exists tbl',
           ExecutionSessions.update_revoked tbl sid = Ok tbl'
           /\ forall later anyone T s,
               In s (ExecutionSessions.get_active_session
                       (ExecutionSessions.run later tbl') anyone T) ->
               ExecutionSessions.session_id s <> sid)
  /\ (forall Cors W (handleCors : trigger_request -> option Cors)
             sid w w_revoked w_later userId result,
         revokeSession sid w = (Return true, w_revoked) ->
         follows W handleCors w_revoked w_later ->
         fst (validateExecutionSession W userId w_later) = Return result ->
         sessionId result <> Some sid).
Proof.
  split; [|split].
  - intros tbl owner now.
    split; [apply SessionFacts.get_active_session_at_most_one|].
    split; [apply SessionFacts.get_active_session_In|].
    split; [apply SessionFacts.get_active_session_found|].
    intros s Hs.
    apply SessionFacts.get_active_session_In in Hs
      as (es & _ & <- & (_ & _ & Hlt) & _).
    exact Hlt.
  - intros tbl sid.
    destruct (SessionFacts.update_revoked_total tbl sid) as [tbl' Htbl'].
    exists tbl'. split; [assumption|].
    intros later anyone T s Hs Hsid.
    apply SessionFacts.get_active_session_In in Hs
      as (es & Hin & <- & (_ & Hrev & _) & _).
    pose proof (SessionFacts.run_keeps_revoked later sid tbl'
                  (SessionFacts.update_revoked_revokes _ _ _ Htbl')) as Hall.
    rewrite Forall_forall in Hall. specialize (Hall es Hin Hsid). congruence.
  - intros Cors W handleCors sid w w_revoked w_later userId result Hrevoke Hlater.
    apply revoked_not_validated.
    apply (follows_stays_revoked W handleCors sid w_revoked w_later Hlater).
    eapply revokeSession_revokes; exact Hrevoke.
Qed.

End ServerFacts.

Module ServerWitnesses.
Import Js Supabase CronTrigger ExecutionSession ServerSpec ServerFacts SampleCustody.

(** No owner has a key record: the trigger records an error for the
    two schedules that are due, and leaves the schedule that its owner
    has not enabled as it was, though its [next_run_at] has passed. *)
Example trigger_skips_disabled_schedule :
  map (fun cs => (CronSchedules.id cs, CronSchedules.enabled cs,
                  CronSchedules.consecutive_errors cs, CronSchedules.next_run_at cs))
      (cron_schedules
         (db (snd (serve preflight trigger (world_of [] [] ScheduleExamples.schedules)))))
  = [("s1", true, Some 1, Some 61000000); ("s2", false, Some 0, Some 1);
     ("s3", true, Some 1, Some 301000000)].
Proof. vm_compute. reflexivity. Qed.

(** The session of Alice validates until it is revoked. *)
Example revoked_session_fails_closed :
  fst (validateExecutionSession web "alice" session_only)
  = Return {| valid := true; password := Str "hunter2"; error := None;
              sessionId := Some "s-alice" |}
  /\ fst (revokeSession "s-alice" session_only) = Return true
  /\ fst (validateExecutionSession web "alice"
            (snd (revokeSession "s-alice" session_only)))
     = Return {| valid := false; password := Undefined;
                 error := Some "No active session found"; sessionId := None |}.
Proof. repeat split; vm_compute; reflexivity. Qed.

(** Witness of C1: the trigger, run twice on the sample schedules. *)
Lemma enabled_never_set_true_witness :
  let w := world_of [] [] ScheduleExamples.schedules in
  let w' := perform web preflight (Trigger trigger)
              (perform web preflight (Trigger trigger) w) in
  follows web preflight w w'
  /\ schedules_stay_disabled (db w) (db w').
Proof.
  intros w w'.
  assert (Hfollows : follows web preflight w w')
    by (apply follows_operation, follows_operation, follows_now).
  split; [exact Hfollows|].
  destruct enabled_never_set_true as (_ & _ & _ & _ & _ & Hserver).
  exact (Hserver _ web preflight w w' Hfollows).
Defined.

(** Witness of C6: the session of Alice is revoked, the trigger runs,
    and the session does not validate. *)
Lemma get_active_session_only_usable_witness :
  let w := snd (revokeSession "s-alice" session_only) in
  let w' := perform web preflight (Trigger trigger) w in
  revokeSession "s-alice" session_only = (Return true, w)
  /\ follows web preflight w w'
  /\ fst (validateExecutionSession web "alice" w')
     = Return (invalid "No active session found")
  /\ sessionId (invalid "No active session found") <> Some "s-alice".
Proof.
  intros w w'.
  assert (Hrevoked : revokeSession "s-alice" session_only = (Return true, w))
    by (vm_compute; reflexivity).
  assert (Hfollows : follows web preflight w w')
    by (apply follows_operation, follows_now).
  assert (Hresult : fst (validateExecutionSession web "alice" w')
                    = Return (invalid "No active session found"))
    by (vm_compute; reflexivity).
  split; [exact Hrevoked|]. split; [exact Hfollows|]. split; [exact Hresult|].
  destruct get_active_session_only_usable as (_ & _ & Hclosed).
  exact (Hclosed _ web preflight "s-alice" session_only w w' "alice" _
                 Hrevoked Hfollows Hresult).
Defined.

End ServerWitnesses.

(* ===================================================================== *)
(** * More properties of the two tables *)
(* ===================================================================== *)

Module SessionStoreFacts.
Import Pg ExecutionSessions SessionSpec ScheduleSpec SessionStoreSpec PgFacts SessionFacts.

Lemma same_resolution_refl es : same_resolution es es.
Proof. repeat split. Qed.

Lemma same_resolution_columns es es' :
  same_resolution es es' -> active_columns es' = active_columns es.
Proof.
  intros (Hi & _ & Ht & He & _). unfold active_columns. now rewrite Hi, Ht, He.
Qed.

Lemma usage_set_outcome now es s :
  usage_set now es = Ok s -> usage_outcome now es s.
Proof.
  unfold usage_set, int4pl_null, int4pl. intros H.
  destruct (use_count es) as [n|] eqn:Hn; simpl in H.
  - destruct (int4_in_range (n + 1)); simpl in H; inversion H; subst.
    unfold usage_outcome, same_resolution; simpl. rewrite Hn.
    repeat split.
  - inversion H; subst. unfold usage_outcome, same_resolution; simpl.
    rewrite Hn. repeat split.
Qed.

Lemma record_session_usage_resolution tbl now sid tbl' :
  record_session_usage tbl now sid = Ok tbl' -> Forall2 same_resolution tbl tbl'.
Proof.
  intros H. apply update_Forall2 in H.
  eapply Forall2_impl; [|exact H]. intros es es' Hes. cbv beta in Hes.
  destruct (is_true (id_is sid es)).
  - destruct Hes as (s & Hs & ->).
    apply usage_set_outcome in Hs. destruct Hs as (_ & _ & _ & Hs). exact Hs.
  - subst. apply same_resolution_refl.
Qed.

Lemma record_session_usage_by_id tbl now sid :
  Forall (fun es => id es = sid -> fits_increment (use_count es)) tbl ->
  exists tbl',
    record_session_usage tbl now sid = Ok tbl'
    /\ Forall2 (fun es es' => if String.eqb (id es) sid
                              then usage_outcome now es es' else es' = es) tbl tbl'.
Proof.
  intros Hfit.
  assert (Htotal : exists tbl', record_session_usage tbl now sid = Ok tbl').
  { apply update_total. eapply Forall_impl; [|exact Hfit].
    intros es Hes Hid. apply session_id_is_true in Hid.
    unfold usage_set. rewrite (int4pl_null_succ _ (Hes Hid)). simpl. eauto. }
  destruct Htotal as [tbl' Hok]. exists tbl'. split; [assumption|].
  pose proof (update_Forall2 _ _ _ _ _ Hok) as H.
  eapply Forall2_impl; [|exact H]. intros es es' Hes. cbv beta in Hes.
  unfold id_is, sql_texteq, strict2 in Hes. rewrite is_true_Some in Hes.
  destruct (String.eqb (id es) sid); [|assumption].
  destruct Hes as (s & Hs & ->). now apply usage_set_outcome.
Qed.

Lemma same_resolution_usable owner T es es' :
  same_resolution es es' -> (usable owner T es' <-> usable owner T es).
Proof.
  intros (_ & Hu & _ & He & Hr). unfold usable. now rewrite Hu, He, Hr.
Qed.

Lemma same_resolution_sym es es' : same_resolution es es' -> same_resolution es' es.
Proof. intros (? & ? & ? & ? & ?). repeat split; congruence. Qed.

Lemma may_resolve_carries tbl tbl' owner T answer :
  Forall2 same_resolution tbl tbl' ->
  may_resolve tbl owner T answer -> may_resolve tbl' owner T answer.
Proof.
  intros Hrows (es & Hin & Husable & Hlast & Hanswer).
  destruct (Forall2_In_l _ _ _ _ Hrows Hin) as (es' & Hin' & Hsame).
  exists es'. split; [exact Hin'|]. split; [|split].
  - now apply (same_resolution_usable owner T es es' Hsame).
  - intros other' Hother' Husable'.
    destruct (Forall2_In_r _ _ _ _ Hrows Hother') as (other & Hother & Hsame').
    apply (same_resolution_usable owner T other other' Hsame') in Husable'.
    pose proof (Hlast other Hother Husable') as Hle.
    destruct Hsame as (_ & _ & _ & -> & _).
    destruct Hsame' as (_ & _ & _ & -> & _). exact Hle.
  - rewrite <- Hanswer. now apply same_resolution_columns.
Qed.

Lemma Forall2_same_resolution_sym tbl tbl' :
  Forall2 same_resolution tbl tbl' -> Forall2 same_resolution tbl' tbl.
Proof.
  induction 1; constructor; [now apply same_resolution_sym|assumption].
Qed.

Lemma may_resolve_same_resolution tbl tbl' owner T answer :
  Forall2 same_resolution tbl tbl' ->
  (may_resolve tbl' owner T answer <-> may_resolve tbl owner T answer).
Proof.
  intros Hrows. split; apply may_resolve_carries;
    [now apply Forall2_same_resolution_sym|assumption].
Qed.

(** The query answers when, and only when, the owner has a session to
    use. *)
Lemma get_active_session_answers tbl owner T :
  get_active_session tbl owner T = []
  <-> ~ exists es, In es tbl /\ usable owner T es.
Proof.
  split.
  - intros Hnone Hsome.
    now apply (get_active_session_found tbl owner T Hsome).
  - intros Hnone.
    destruct (get_active_session tbl owner T) as [|s rest] eqn:Hanswer;
      [reflexivity|].
    exfalso. apply Hnone.
    destruct (get_active_session_In tbl owner T s) as (es & Hin & _ & Husable & _);
      [rewrite Hanswer; now left|].
    exists es. auto.
Qed.

Lemma exec_usage_same_resolution tbl now sid :
  Forall2 same_resolution tbl (exec now (RecordSessionUsage sid) tbl).
Proof.
  simpl. destruct (record_session_usage tbl now sid) as [tbl'|e] eqn:E; simpl.
  - eapply record_session_usage_resolution; exact E.
  - apply Forall2_refl. apply same_resolution_refl.
Qed.

(** The effect of [record_session_usage] on what the query may
    answer, whatever the choice among sessions that expire together. *)
Lemma usage_keeps_answers tbl now sid :
  let after := exec now (RecordSessionUsage sid) tbl in
  (forall owner T answer,
      may_resolve after owner T answer <-> may_resolve tbl owner T answer)
  /\ (forall owner T answer,
         In answer (get_active_session after owner T) ->
         may_resolve tbl owner T answer)
  /\ (forall owner T,
         get_active_session after owner T = []
         <-> get_active_session tbl owner T = []).
Proof.
  cbv zeta.
  pose proof (exec_usage_same_resolution tbl now sid) as Hrows.
  split; [|split].
  - intros owner T answer. now apply may_resolve_same_resolution.
  - intros owner T answer Hanswer.
    apply (may_resolve_same_resolution _ _ owner T answer Hrows).
    destruct (get_active_session_In _ owner T answer Hanswer)
      as (es & Hin & Hcolumns & Husable & Hlast).
    exists es. auto.
  - intros owner T. rewrite !get_active_session_answers.
    split; intros Hnone (es & Hin & Husable); apply Hnone.
    + destruct (Forall2_In_l _ _ _ _ Hrows Hin) as (es' & Hin' & Hsame).
      exists es'. split; [exact Hin'|].
      now apply (same_resolution_usable owner T es es' Hsame).
    + destruct (Forall2_In_r _ _ _ _ Hrows Hin) as (es' & Hin' & Hsame).
      exists es'. split; [exact Hin'|].
      now apply (same_resolution_usable owner T es' es Hsame).
Qed.

(** X1. Recording the use of a session changes nothing in what
    [get_active_session] may answer: whatever the session id,
    completed or raised, for every owner and every time the sessions
    that may be returned (the usable sessions of the owner that no
    usable session of the owner outlasts) are the same, with the same
    columns; the answer after the call is one of them; and the query
    answers after the call exactly when it answered before.  When the
    incremented [use_count] of the session is still an [INTEGER], the
    call completes, sets [last_used_at] of the session with that id to
    [NOW()] and adds 1 to its [use_count], and leaves its other columns
    and every other session as they were. *)
Theorem record_session_usage_keeps_resolution :
  forall tbl now sid,
    let after := exec now (RecordSessionUsage sid) tbl in
    (forall owner T answer,
        may_resolve after owner T answer <-> may_resolve tbl owner T answer)
    /\ (forall owner T answer,
           In answer (get_active_session after owner T) ->
           may_resolve tbl owner T answer)
    /\ (forall owner T,
           get_active_session after owner T = []
           <-> get_active_session tbl owner T = [])
    /\ (Forall (fun es => id es = sid -> fits_increment (use_count es)) tbl ->
        exists tbl',
          record_session_usage tbl now sid = Ok tbl'
          /\ Forall2 (fun es es' => if String.eqb (id es) sid
                                    then usage_outcome now es es' else es' = es)
                     tbl tbl').
Proof.
  intros tbl now sid after. subst after.
  destruct (usage_keeps_answers tbl now sid) as (Hmay & Hanswer & Hnone).
  split; [exact Hmay|]. split; [exact Hanswer|]. split; [exact Hnone|].
  apply record_session_usage_by_id.
Qed.

(** ** cleanup_expired_sessions *)

Lemma cleanup_where_swept now es :
  is_true (cleanup_where now es) = true <-> swept now es.
Proof.
  unfold cleanup_where, swept, sql_or, sql_lt, sql_booleq, strict2.
  destruct (Z.ltb_spec (expires_at es) (now - seven_days)) as [Hlt|Hge];
    destruct (revoked es) as [[|]|]; simpl; split; intros H;
    try reflexivity; try discriminate;
    try (left; assumption); try (right; reflexivity);
    destruct H as [H|H]; solve [lia | discriminate].
Qed.

Lemma filter_filter {A} (p q : A -> bool) l :
  (forall x, p x = true -> q x = true) ->
  filter p (filter q l) = filter p l.
Proof.
  intros H. induction l as [|x xs IH]; simpl; [reflexivity|].
  destruct (q x) eqn:Hq; simpl.
  - now rewrite IH.
  - destruct (p x) eqn:Hp; [|assumption].
    rewrite (H x Hp) in Hq. discriminate.
Qed.

Lemma filter_length_split {A} (p : A -> bool) l :
  (length l = length (filter p l) + length (filter (fun x => negb (p x)) l))%nat.
Proof.
  induction l as [|x xs IH]; simpl; [reflexivity|].
  destruct (p x); simpl; lia.
Qed.

(** X2. [cleanup_expired_sessions] deletes the sessions that expired
    more than seven days before [NOW()] and the revoked ones, and no
    other; it returns the number of rows it deleted; a second sweep at
    the same time deletes nothing; and it changes no answer of
    [get_active_session] for any owner at any time from seven days
    before [NOW()] on. *)
Theorem cleanup_expired_sessions_sweeps :
  forall tbl now,
    let kept := fst (cleanup_expired_sessions tbl now) in
    let deleted_count := snd (cleanup_expired_sessions tbl now) in
    (forall es, In es kept <-> In es tbl /\ ~ swept now es)
    /\ deleted_count
       = Z.of_nat (length (filter (fun es => is_true (cleanup_where now es)) tbl))
    /\ cleanup_expired_sessions kept now = (kept, 0)
    /\ (forall owner T,
           now - seven_days <= T ->
           get_active_session kept owner T = get_active_session tbl owner T).
Proof.
  intros tbl now kept deleted_count. subst kept deleted_count.
  unfold cleanup_expired_sessions. cbn [fst snd].
  split; [|split; [|split]].
  - intros es. rewrite filter_In, <- cleanup_where_swept.
    destruct (is_true (cleanup_where now es)); simpl; intuition congruence.
  - rewrite (filter_length_split (fun es => is_true (cleanup_where now es)) tbl).
    lia.
  - rewrite filter_filter by auto. f_equal. lia.
  - intros owner T HT. unfold get_active_session.
    rewrite filter_filter; [reflexivity|].
    intros es Hes. apply active_where_usable in Hes as (_ & Hrev & Hexp).
    destruct (is_true (cleanup_where now es)) eqn:Hc; [|reflexivity].
    apply cleanup_where_swept in Hc as [Hold|Hr]; [lia|congruence].
Qed.

End SessionStoreFacts.

Module SessionStoreWitnesses.
Import Pg ExecutionSessions SessionSpec ScheduleSpec SessionStoreSpec SessionStoreFacts SessionExamples.

(** Witness of X1: the long session of Alice is used at time 100, and
    is still what the query answers. *)
Lemma record_session_usage_keeps_resolution_witness :
  Forall (fun es => id es = "a-long" -> fits_increment (use_count es)) sessions
  /\ may_resolve (exec 100 (RecordSessionUsage "a-long") sessions) "alice" 100
       {| session_id := "a-long"; active_token := "tok2";
          active_expires_at := 900 |}
  /\ exists tbl',
      record_session_usage sessions 100 "a-long" = Ok tbl'
      /\ map (fun es => (id es, use_count es, last_used_at es)) tbl'
         = [("a-short", Some 0, None); ("a-long", Some 1, Some 100);
            ("a-revoked", Some 0, None); ("a-expired", Some 0, None);
            ("b-only", Some 0, None)].
Proof.
  assert (Hfit : Forall (fun es => id es = "a-long" -> fits_increment (use_count es))
                        sessions).
  { repeat constructor; intros _ n Hn; inversion Hn; subst; reflexivity. }
  destruct (record_session_usage_keeps_resolution sessions 100 "a-long")
    as (Hsame & _ & _ & Heffect).
  split; [exact Hfit|]. split.
  { apply Hsame. exists (session "a-long" "alice" "tok2" 900 (Some false)).
    split; [right; left; reflexivity|].
    split; [repeat split; reflexivity|]. split; [|reflexivity].
    intros other Hin (_ & Hrevoked & _).
    repeat (destruct Hin as [<-|Hin]; [first [discriminate Hrevoked | simpl; lia]|]).
    destruct Hin. }
  destruct (Heffect Hfit) as (tbl' & Hok & _).
  exists tbl'. split; [exact Hok|].
  vm_compute in Hok. inversion Hok. reflexivity.
Defined.

(** Witness of X2: a sweep at time 2000 of the sample sessions, asked
    for at time 600. *)
Lemma cleanup_expired_sessions_sweeps_witness :
  2000 - seven_days <= 600
  /\ get_active_session (fst (cleanup_expired_sessions sessions 2000)) "alice" 600
     = get_active_session sessions "alice" 600
  /\ snd (cleanup_expired_sessions sessions 2000) = 1.
Proof.
  assert (Hrecent : 2000 - seven_days <= 600) by (vm_compute; discriminate).
  destruct (cleanup_expired_sessions_sweeps sessions 2000)
    as (_ & Hcount & _ & Hsame).
  split; [exact Hrecent|]. split; [exact (Hsame "alice" 600 Hrecent)|].
  rewrite Hcount. reflexivity.
Defined.

End SessionStoreWitnesses.

Module ScheduleStoreFacts.
Import Pg CronSchedules ScheduleSpec ScheduleStoreSpec PgFacts ScheduleFacts.

Lemma exec_same_configuration now c tbl :
  Forall2 same_configuration tbl (exec now c tbl).
Proof.
  assert (Hrefl : forall cs, same_configuration cs cs) by (intros cs; repeat split).
  destruct c as [|sid|sid msg]; simpl.
  - now apply Forall2_refl.
  - destruct (record_schedule_success tbl now sid) as [tbl'|e] eqn:E; simpl;
      [|now apply Forall2_refl].
    apply update_Forall2 in E. eapply Forall2_impl; [|exact E].
    intros cs cs' H. cbv beta in H. destruct (is_true (id_is sid cs)).
    + destruct H as (s & Hs & ->). apply success_set_outcome in Hs.
      destruct Hs as (_ & _ & _ & _ & _ & _ & Hs). exact Hs.
    + subst. apply Hrefl.
  - destruct (record_schedule_error tbl now sid msg) as [tbl'|e] eqn:E; simpl;
      [|now apply Forall2_refl].
    apply update_Forall2 in E. eapply Forall2_impl; [|exact E].
    intros cs cs' H. cbv beta in H. destruct (is_true (id_is sid cs)).
    + destruct H as (s & Hs & ->). apply error_set_outcome in Hs.
      destruct Hs as (_ & _ & _ & _ & _ & _ & _ & Hs). exact Hs.
    + subst. apply Hrefl.
Qed.

Lemma Forall2_map_eq {A B} (f : A -> B) (R : A -> A -> Prop) l l' :
  (forall x y, R x y -> f y = f x) -> Forall2 R l l' -> map f l' = map f l.
Proof.
  intros H. induction 1 as [|x y l l' Hxy _ IH]; simpl; [reflexivity|].
  now rewrite (H x y Hxy), IH.
Qed.

Lemma exec_well_keyed now c tbl : well_keyed tbl -> well_keyed (exec now c tbl).
Proof.
  intros [Hid Hname]. pose proof (exec_same_configuration now c tbl) as H.
  split.
  - rewrite (Forall2_map_eq id same_configuration tbl); [assumption| |assumption].
    intros x y (Hi & _). exact Hi.
  - rewrite (Forall2_map_eq (fun cs => (user_id cs, schedule_name cs))
               same_configuration tbl); [assumption| |assumption].
    intros x y (_ & Hu & Hn & _). now rewrite Hu, Hn.
Qed.

Lemma run_well_keyed calls tbl : well_keyed tbl -> well_keyed (run calls tbl).
Proof.
  revert tbl. induction calls as [|[now c] rest IH]; intros tbl H; simpl; auto.
  apply IH. now apply exec_well_keyed.
Qed.

Lemma same_configuration_trans a b c :
  same_configuration a b -> same_configuration b c -> same_configuration a c.
Proof.
  intros (? & ? & ? & ? & ? & ? & ?) (? & ? & ? & ? & ? & ? & ?).
  repeat split; congruence.
Qed.

Lemma run_same_configuration calls tbl :
  Forall2 same_configuration tbl (run calls tbl).
Proof.
  revert tbl. induction calls as [|[now c] rest IH]; intros tbl; simpl.
  - apply Forall2_refl. intros cs. repeat split.
  - eapply Forall2_trans;
      [exact same_configuration_trans|apply exec_same_configuration|apply IH].
Qed.

(** X3. The helper functions keep the rows and the keys of
    [cron_schedules]: whatever the calls, completed or raised, the
    table holds the same rows in the same order, each with the [id],
    [user_id], [schedule_name], [interval_seconds], [coins],
    [max_consecutive_errors] and [created_at] it had; so a table that
    satisfies [PRIMARY KEY (id)] and [UNIQUE (user_id, schedule_name)]
    still does.  And a row that took the [DEFAULT] of [enabled] is
    returned by [get_due_schedules] at no time, whatever calls came
    after. *)
Theorem helpers_keep_keys :
  forall tbl calls,
    Forall2 same_configuration tbl (run calls tbl)
    /\ (well_keyed tbl -> well_keyed (run calls tbl))
    /\ (forall fresh now c,
           NoDup (map id tbl) ->
           In (new_row fresh now c) tbl ->
           ins_enabled c = None ->
           forall T d,
             In d (get_due_schedules (run calls tbl) T) ->
             schedule_id d <> id (new_row fresh now c)).
Proof.
  intros tbl calls.
  split; [apply run_same_configuration|].
  split; [apply run_well_keyed|].
  intros fresh now c Hpk Hin Hdefault T d Hd Hsame.
  apply get_due_schedules_In in Hd as (cs' & Hin' & <- & (Hen & _)).
  change (id cs' = id (new_row fresh now c)) in Hsame.
  destruct (Forall2_In_r _ _ _ _ (run_stays_disabled calls tbl) Hin')
    as (cs & Hcs & Hid & Hstays).
  assert (cs = new_row fresh now c) as ->.
  { apply (NoDup_map_eq id tbl); auto. congruence. }
  rewrite Hstays in Hen; [discriminate|].
  unfold new_row. simpl. now rewrite Hdefault.
Qed.

(** ** Back-off *)

Lemma not_due_before (cs' : row) t next :
  next_run_at cs' = Some next -> Due t cs' -> next <= t.
Proof.
  intros Hn (_ & _ & [Hnone|(x & Hx & Hle)]); congruence.
Qed.

(** X4. After [record_schedule_success] or [record_schedule_error] at
    time [T], the schedule is returned by [get_due_schedules] at no time
    before [T + interval_seconds] seconds; and after a success, a
    schedule that is enabled and allows at least one error is returned
    at every time from then on. *)
Theorem schedule_backs_off :
  forall tbl T cs msg,
    NoDup (map id tbl) -> In cs tbl ->
    fits_increment (run_count cs) ->
    fits_increment (consecutive_errors cs) ->
    (exists tbl',
        record_schedule_success tbl T (id cs) = Ok tbl'
        /\ (forall t d, In d (get_due_schedules tbl' t) ->
                        schedule_id d = id cs ->
                        T + seconds (interval_seconds cs) <= t)
        /\ (forall t m,
               enabled cs = true -> max_consecutive_errors cs = Some m -> 0 < m ->
               T + seconds (interval_seconds cs) <= t ->
               In (due_columns cs) (get_due_schedules tbl' t)))
    /\ (exists tbl',
           record_schedule_error tbl T (id cs) msg = Ok tbl'
           /\ forall t d, In d (get_due_schedules tbl' t) ->
                          schedule_id d = id cs ->
                          T + seconds (interval_seconds cs) <= t).
Proof.
  intros tbl T cs msg Hpk Hin Hrc Hce. split.
  - destruct (record_schedule_success_by_id tbl T cs Hpk Hin Hrc)
      as (tbl' & Hok & Hrel).
    exists tbl'. split; [assumption|]. split.
    + intros t d Hd Hsid.
      apply get_due_schedules_In in Hd as (cs' & Hin' & <- & Hdue).
      change (id cs' = id cs) in Hsid.
      destruct (Forall2_In_r _ _ _ _ Hrel Hin') as (x & Hx & Hxx).
      assert (Hidx : id x = id cs).
      { destruct (String.eqb_spec (id x) (id cs)) as [He|Hne]; [assumption|].
        subst cs'. congruence. }
      rewrite Hidx, String.eqb_refl in Hxx.
      assert (x = cs) as -> by (apply (NoDup_map_eq id tbl); auto).
      destruct Hxx as (_ & Hnext & _).
      eapply not_due_before; eassumption.
    + intros t m Hen Hmax Hm Ht.
      destruct (by_id_image _ _ _ _ Hrel Hin)
        as (cs' & Hin' & _ & Hnext & _ & Hzero & _ & Hen' & Hcfg).
      apply get_due_schedules_In. exists cs'. split; [assumption|].
      destruct Hcfg as (Hi & Hu & _ & Hiv & Hco & Hmx & _).
      split; [unfold due_columns; now rewrite Hi, Hu, Hiv, Hco|].
      split; [congruence|]. split.
      * exists 0, m. repeat split; congruence || lia.
      * right. eexists. split; [exact Hnext|assumption].
  - destruct (record_schedule_error_by_id tbl T msg cs Hpk Hin Hce)
      as (tbl' & Hok & Hrel).
    exists tbl'. split; [assumption|].
    intros t d Hd Hsid.
    apply get_due_schedules_In in Hd as (cs' & Hin' & <- & Hdue).
    change (id cs' = id cs) in Hsid.
    destruct (Forall2_In_r _ _ _ _ Hrel Hin') as (x & Hx & Hxx).
    assert (Hidx : id x = id cs).
    { destruct (String.eqb_spec (id x) (id cs)) as [He|Hne]; [assumption|].
      subst cs'. congruence. }
    rewrite Hidx, String.eqb_refl in Hxx.
    assert (x = cs) as -> by (apply (NoDup_map_eq id tbl); auto).
    destruct Hxx as (_ & _ & _ & _ & Hnext & _).
    eapply not_due_before; eassumption.
Qed.

End ScheduleStoreFacts.

Module ScheduleStoreWitnesses.
Import Pg CronSchedules ScheduleSpec ScheduleStoreSpec ScheduleFacts ScheduleStoreFacts
       ScheduleExamples.

Lemma schedules_well_keyed : well_keyed schedules.
Proof.
  split; repeat constructor; simpl; intuition discriminate.
Defined.

(** Witness of X3: the sample schedules and one more, with the
    defaults, through the sample calls. *)
Lemma helpers_keep_keys_witness :
  let c := {| ins_id := None; ins_user_id := "u1";
              ins_schedule_name := Some "nightly"; ins_enabled := None;
              ins_interval_seconds := None; ins_coins := None;
              ins_last_run_at := None; ins_next_run_at := None;
              ins_run_count := None; ins_last_error := None;
              ins_consecutive_errors := None;
              ins_max_consecutive_errors := None;
              ins_created_at := None; ins_updated_at := None |} in
  let tbl := schedules ++ [new_row "s4" 500 c] in
  well_keyed tbl
  /\ well_keyed (run two_errors_success_three_errors tbl)
  /\ map (fun cs => (id cs, user_id cs, schedule_name cs))
         (run two_errors_success_three_errors tbl)
     = [("s1", "u1", "default"); ("s2", "u2", "default");
        ("s3", "u3", "default"); ("s4", "u1", "nightly")]
  /\ forall T d,
       In d (get_due_schedules (run two_errors_success_three_errors tbl) T) ->
       schedule_id d <> "s4".
Proof.
  intros c tbl.
  assert (Hkeys : well_keyed tbl).
  { split; repeat constructor; simpl; intuition discriminate. }
  destruct (helpers_keep_keys tbl two_errors_success_three_errors)
    as (_ & Hkept & Hdefault).
  split; [exact Hkeys|]. split; [exact (Hkept Hkeys)|].
  split; [reflexivity|].
  apply (Hdefault "s4" 500 c (proj1 Hkeys)); [|reflexivity].
  apply in_or_app. right. left. reflexivity.
Defined.

(** Witness of X4: the every-minute schedule after a success at time
    1000. *)
Lemma schedule_backs_off_witness :
  (NoDup (map id schedules) /\ In every_minute schedules
   /\ fits_increment (run_count every_minute)
   /\ fits_increment (consecutive_errors every_minute))
  /\ exists tbl',
      record_schedule_success schedules 1000 "s1" = Ok tbl'
      /\ In (due_columns every_minute) (get_due_schedules tbl' 60001000)
      /\ ~ In (due_columns every_minute) (get_due_schedules tbl' 60000999).
Proof.
  assert (Hin : In every_minute schedules) by (simpl; auto).
  assert (Hrc : fits_increment (run_count every_minute))
    by (intros n Hn; inversion Hn; subst; reflexivity).
  assert (Hce : fits_increment (consecutive_errors every_minute))
    by (intros n Hn; inversion Hn; subst; reflexivity).
  destruct schedules_well_keyed as [Hpk _].
  split; [auto|].
  destruct (schedule_backs_off schedules 1000 every_minute "boom" Hpk Hin Hrc Hce)
    as [(tbl' & Hok & Hbefore & Hafter) _].
  exists tbl'. split; [exact Hok|]. split.
  - apply (Hafter 60001000 5); reflexivity || (vm_compute; discriminate) || lia.
  - intros Hdue. specialize (Hbefore _ _ Hdue eq_refl).
    vm_compute in Hbefore. apply Hbefore. reflexivity.
Defined.

End ScheduleStoreWitnesses.


(* ===================================================================== *)
(** * More properties of the session custodian *)
(* ===================================================================== *)

Module CustodianFacts.
Import Js Supabase ExecutionSession CustodySpec CustodianSpec CustodyFacts.

Lemma sessions_only_refl d : sessions_only d d.
Proof. repeat split. Qed.

Ltac invalid_with :=
  unfold ret; eexists; eexists; (split; [reflexivity|]); left;
  eexists; (split; [reflexivity|]);
  (split; [unfold validation_errors; simpl; tauto|]);
  (split; [reflexivity|]);
  first [ left; symmetry; apply app_nil_r | left; reflexivity | right; reflexivity ].

Section WithWeb.

Variable W : WebPlatform.

(** The two ways of a validation. *)
Lemma validateExecutionSession_cases userId w :
  exists result w',
    validateExecutionSession W userId w = (Return result, w')
    /\ ((exists message,
            result = invalid message
            /\ In message validation_errors
            /\ db w' = db w
            /\ (sent w' = sent w
                \/ sent w' = sent w ++ [Rpc_get_active_session userId]))
        \/ (exists first rest,
               let asked := answered (Rpc_get_active_session userId) (db w) w in
               let sid := ExecutionSessions.session_id first in
               ExecutionSessions.get_active_session
                 (execution_sessions (db w)) userId (arrival w) = first :: rest
               /\ valid result = true /\ error result = None
               /\ sessionId result = Some sid
               /\ sent w' = sent w ++ [Rpc_get_active_session userId;
                                       Rpc_record_session_usage sid]
               /\ sessions_only (db w) (db w')
               /\ execution_sessions (db w')
                  = if lost (next_fate asked)
                    then execution_sessions (db w)
                    else ExecutionSessions.exec
                           (arrival asked) (ExecutionSessions.RecordSessionUsage sid)
                           (execution_sessions (db w)))).
Proof.
  unfold validateExecutionSession, rpc_get_active_session, rpc_record_session_usage.
  unfold_M.
  destruct (createSupabaseClient_cases w) as [[Hcfg ->]|[Hcfg ->]].
  2: { invalid_with. }
  match goal with |- context [send ?rq ?st ?w0] =>
    destruct (send_cases rq st w0)
      as [(failure & -> & _)|(found & d & Hlost & Hst & ->)] end.
  { invalid_with. }
  inversion Hst; subst found d; clear Hst.
  destruct (ExecutionSessions.get_active_session (execution_sessions (db w))
              userId (arrival w)) as [|first rest] eqn:Hfound.
  { invalid_with. }
  match goal with |- context [if ?c then _ else _] => destruct c end.
  { invalid_with. }
  destruct (truthy (decryptSessionToken W (ExecutionSessions.active_token first)))
    eqn:Htruthy; cbn [negb].
  2: { invalid_with. }
  destruct (prop_truthy _ "userId" Htruthy) as [owner Howner].
  destruct (prop_truthy _ "password" Htruthy) as [secret Hsecret].
  rewrite Howner.
  destruct (is_string owner userId) eqn:Hsame; cbn [negb].
  2: { invalid_with. }
  set (asked := answered (Rpc_get_active_session userId) (db w) w).
  match goal with |- context [send ?rq ?st ?w0] =>
    destruct (send_cases rq st w0)
      as [(failure & -> & Hwhy)|(done & d & Hl & Hst & ->)] end;
    rewrite Hsecret;
    (eexists; eexists; split; [reflexivity|]); right;
    exists first, rest; cbn zeta; fold asked;
    (split; [reflexivity|]); (split; [reflexivity|]); (split; [reflexivity|]);
    (split; [reflexivity|]);
    (split; [simpl; rewrite <- app_assoc; reflexivity|]).
  - split; [apply sessions_only_refl|]. simpl.
    destruct Hwhy as [->|Hwhy]; [reflexivity|].
    destruct (lost (next_fate asked)); [reflexivity|].
    unfold Pg.bind in Hwhy. change (db asked) with (db w) in Hwhy.
    destruct (ExecutionSessions.record_session_usage
                (execution_sessions (db w)) (arrival asked)
                (ExecutionSessions.session_id first)); [discriminate|reflexivity].
  - rewrite Hl. unfold Pg.bind in Hst. change (db asked) with (db w) in Hst.
    simpl.
    destruct (ExecutionSessions.record_session_usage
                (execution_sessions (db w)) (arrival asked)
                (ExecutionSessions.session_id first)) as [t|e];
      inversion Hst; subst. split; [repeat split|reflexivity].
Qed.

Lemma validation_errors_not_empty message :
  In message validation_errors -> String.eqb message "" = false.
Proof.
  unfold validation_errors. simpl.
  intros [<-|[<-|[<-|[<-|[<-|[<-|[]]]]]]]; reflexivity.
Qed.

Lemma check_tier_b_outcomes userId w :
  exists result w',
    check_tier_b W userId w = (Return result, w')
    /\ sessions_only (db w) (db w')
    /\ ((resolved_tier result = session
         /\ truthy (resolved_password result) = true
         /\ resolved_error result = None)
        \/ (resolved_tier result = none
            /\ resolved_password result = Null
            /\ exists message,
                resolved_error result = Some message
                /\ In message resolution_errors)).
Proof.
  destruct (validateExecutionSession_cases userId w)
    as (sessionResult & w' & Hrun & Hcases).
  unfold check_tier_b. unfold_M. rewrite Hrun.
  destruct Hcases
    as [(message & -> & Hin & Hdb & _)
       |(first & rest & _ & Hvalid & Herror & _ & _ & Honly & _)].
  - assert (Hin' : In message resolution_errors)
      by (apply in_or_app; now left).
    simpl. eexists; eexists. split; [reflexivity|].
    split; [rewrite Hdb; apply sessions_only_refl|].
    right. simpl. rewrite (validation_errors_not_empty _ Hin).
    split; [reflexivity|]. split; [reflexivity|].
    exists message. split; [reflexivity|exact Hin'].
  - rewrite Hvalid. cbn [andb].
    destruct (truthy (password sessionResult)) eqn:Hpw;
      eexists; eexists; (split; [reflexivity|]); (split; [assumption|]).
    + left. simpl. auto.
    + right. simpl. rewrite Herror.
      split; [reflexivity|]. split; [reflexivity|].
      eexists. split; [reflexivity|].
      unfold resolution_errors, validation_errors. simpl. tauto.
Qed.

Lemma getExecutionPassword_outcomes userId w :
  exists result w',
    getExecutionPassword W userId w = (Return result, w')
    /\ sessions_only (db w) (db w')
    /\ ((resolved_tier result <> none
         /\ truthy (resolved_password result) = true
         /\ resolved_error result = None)
        \/ (resolved_tier result = none
            /\ resolved_password result = Null
            /\ exists message,
                resolved_error result = Some message
                /\ In message resolution_errors))
    /\ (~ configured (env w) ->
        w' = w
        /\ result = {| resolved_password := Null;
                       resolved_tier := none;
                       resolved_error :=
                         Some "Missing SUPABASE_URL or SUPABASE_SERVICE_ROLE_KEY" |}).
Proof.
  assert (Htier_b : forall w1 : world,
             db w1 = db w -> configured (env w) ->
             exists result w',
               (let (o, w'0) := check_tier_b W userId w1 in
                match o with
                | Return a => (Return a, w'0)
                | Throw e => (Return {| resolved_password := Null;
                                        resolved_tier := none;
                                        resolved_error := Some (message_or_unknown e) |}, w'0)
                end) = (Return result, w')
               /\ sessions_only (db w) (db w')
               /\ ((resolved_tier result <> none
                    /\ truthy (resolved_password result) = true
                    /\ resolved_error result = None)
                   \/ (resolved_tier result = none
                       /\ resolved_password result = Null
                       /\ exists message,
                           resolved_error result = Some message
                           /\ In message resolution_errors))
               /\ (~ configured (env w) ->
                   w' = w
                   /\ result = {| resolved_password := Null;
                                  resolved_tier := none;
                                  resolved_error :=
                                    Some "Missing SUPABASE_URL or SUPABASE_SERVICE_ROLE_KEY" |})).
  { intros w1 Hdb Hcfg.
    destruct (check_tier_b_outcomes userId w1) as (result & w' & Hrun & Honly & Hcases).
    rewrite Hrun. exists result, w'. split; [reflexivity|].
    split; [rewrite <- Hdb; assumption|].
    split; [|intros Hno; contradiction].
    destruct Hcases as [(Ht & Hp & He)|Hnone]; [left|right; assumption].
    rewrite Ht. repeat split; auto. discriminate. }
  unfold getExecutionPassword, select_encrypted_password, decryptStoredPassword.
  unfold_M.
  destruct (createSupabaseClient_cases w) as [[Hcfg ->]|[Hcfg ->]].
  2: { eexists; eexists. split; [reflexivity|].
       split; [apply sessions_only_refl|]. simpl.
       split; [|intros _; split; reflexivity].
       right. split; [reflexivity|]. split; [reflexivity|].
       eexists. split; [reflexivity|].
       unfold resolution_errors, validation_errors. simpl. tauto. }
  match goal with |- context [send ?rq ?st ?w0] =>
    destruct (send_cases rq st w0)
      as [(failure & -> & Hwhy)|(found & d & Hlost & Hst & ->)] end.
  { apply Htier_b; [reflexivity|assumption]. }
  rewrite stored_password_statement in Hst.
  assert (d = db w) as ->.
  { destruct (filter (key_of userId "hyperliquid") (encrypted_keys (db w)))
      as [|row [|row' more]]; inversion Hst; auto. }
  clear Hst.
  destruct found as [encrypted|].
  2: { apply Htier_b; [reflexivity|assumption]. }
  destruct (String.eqb encrypted "").
  { apply Htier_b; [reflexivity|assumption]. }
  cbn [env answered].
  destruct (decrypt_stored W (env w) encrypted) as [stored|].
  2: { apply Htier_b; [reflexivity|assumption]. }
  destruct (String.eqb stored "") eqn:Hblank.
  { apply Htier_b; [reflexivity|assumption]. }
  eexists; eexists. split; [reflexivity|].
  split; [apply sessions_only_refl|].
  split; [|intros Hno; contradiction].
  left. simpl. rewrite Hblank. repeat split. discriminate.
Qed.

End WithWeb.

(** X6. A validation that fails leaves the store as it was, sends at
    most the query for the active session, and reports one of six
    fixed errors.  A validation that succeeds is of the session that
    [get_active_session] returned first; it has sent, after that query,
    one [record_session_usage] for that session and nothing else; the
    result is valid whether or not that record went through; nothing
    but the sessions is written; and for every owner and time the
    sessions that [get_active_session] may return afterwards are those
    it might return before. *)
Theorem validation_records_one_use :
  forall W userId w,
    exists result w',
      validateExecutionSession W userId w = (Return result, w')
      /\ (valid result = false ->
          db w' = db w
          /\ (sent w' = sent w
              \/ sent w' = sent w ++ [Rpc_get_active_session userId])
          /\ exists message,
              error result = Some message /\ In message validation_errors)
      /\ (valid result = true ->
          exists first rest,
            let asked := answered (Rpc_get_active_session userId) (db w) w in
            let sid := ExecutionSessions.session_id first in
            ExecutionSessions.get_active_session
              (execution_sessions (db w)) userId (arrival w) = first :: rest
            /\ sessionId result = Some sid
            /\ sent w' = sent w ++ [Rpc_get_active_session userId;
                                    Rpc_record_session_usage sid]
            /\ sessions_only (db w) (db w')
            /\ execution_sessions (db w')
               = (if lost (next_fate asked)
                  then execution_sessions (db w)
                  else ExecutionSessions.exec
                         (arrival asked) (ExecutionSessions.RecordSessionUsage sid)
                         (execution_sessions (db w)))
            /\ forall owner T answer,
                SessionStoreSpec.may_resolve
                  (execution_sessions (db w')) owner T answer
                <-> SessionStoreSpec.may_resolve
                      (execution_sessions (db w)) owner T answer).
Proof.
  intros W userId w.
  destruct (validateExecutionSession_cases W userId w)
    as (result & w' & Hrun & Hcases).
  exists result, w'. split; [assumption|].
  destruct Hcases
    as [(message & -> & Hin & Hdb & Hsent)
       |(first & rest & Hfound & Hvalid & Herror & Hsid & Hsent & Honly & Hstore)].
  - split; [|discriminate].
    intros _. split; [assumption|]. split; [assumption|].
    exists message. split; [reflexivity|assumption].
  - split; [congruence|]. intros _. exists first, rest. cbn zeta.
    do 5 (split; [assumption|]).
    intros owner T answer. rewrite Hstore.
    destruct (lost _); [reflexivity|].
    apply (SessionStoreFacts.usage_keeps_answers (execution_sessions (db w))).
Qed.

(** X7. [getExecutionPassword] returns, and writes nothing but the
    sessions.  A result of a tier other than [none] carries a password
    and no error; a result of tier [none] carries no password and one
    of seven fixed errors; and when the client is not configured the
    result is of tier [none], with the error of the client, and nothing
    is sent. *)
Theorem getExecutionPassword_fails_closed :
  forall W userId w,
    exists result w',
      getExecutionPassword W userId w = (Return result, w')
      /\ sessions_only (db w) (db w')
      /\ (resolved_tier result <> none ->
          truthy (resolved_password result) = true
          /\ resolved_error result = None)
      /\ (resolved_tier result = none ->
          resolved_password result = Null
          /\ exists message,
              resolved_error result = Some message
              /\ In message resolution_errors)
      /\ (~ configured (env w) ->
          w' = w
          /\ resolved_tier result = none
          /\ resolved_error result
             = Some "Missing SUPABASE_URL or SUPABASE_SERVICE_ROLE_KEY").
Proof.
  intros W userId w.
  destruct (getExecutionPassword_outcomes W userId w)
    as (result & w' & Hrun & Honly & Hcases & Hcfg).
  exists result, w'. do 2 (split; [assumption|]).
  split; [|split].
  - intros Htier. destruct Hcases as [(_ & Hp & He)|(Hn & _)]; [auto|contradiction].
  - intros Htier. destruct Hcases as [(Hn & _)|(_ & Hp & He)]; [contradiction|auto].
  - intros Hno. destruct (Hcfg Hno) as [-> ->]. auto.
Qed.

(** X8. [hasExecutionCapability] returns, and reports [canExecute]
    exactly when the tier it reports is not [none]; the tier is the
    tier of [getExecutionPassword]. *)
Theorem hasExecutionCapability_iff_tier :
  forall W userId w,
    exists canExecute reported w',
      hasExecutionCapability W userId w = (Return (canExecute, reported), w')
      /\ (canExecute = true <-> reported <> none)
      /\ (exists result,
             getExecutionPassword W userId w = (Return result, w')
             /\ reported = resolved_tier result
             /\ (canExecute = true <-> truthy (resolved_password result) = true)).
Proof.
  intros W userId w.
  destruct (getExecutionPassword_outcomes W userId w)
    as (result & w' & Hrun & _ & Hcases & _).
  unfold hasExecutionCapability. unfold_M. rewrite Hrun.
  eexists; eexists; eexists. split; [reflexivity|].
  destruct Hcases as [(Ht & Hp & _)|(Ht & Hp & _)].
  - assert (Hcan : match resolved_password result with
                   | Null => false | _ => true end = true)
      by (destruct (resolved_password result); try reflexivity; discriminate).
    rewrite Hcan. split; [tauto|].
    exists result. split; [reflexivity|]. split; [reflexivity|]. tauto.
  - rewrite Hp. split; [rewrite Ht; split; [discriminate|congruence]|].
    exists result. split; [reflexivity|]. split; [reflexivity|].
    rewrite Hp. simpl. tauto.
Qed.

End CustodianFacts.

Module CustodianWitnesses.
Import Js Supabase ExecutionSession CustodySpec CustodianSpec CustodianFacts SampleCustody.

(** Witness of X6: the session of Alice validates, and one use of it
    is recorded. *)
Lemma validation_records_one_use_witness :
  exists result w',
    validateExecutionSession web "alice" session_only = (Return result, w')
    /\ valid result = true
    /\ sent w' = [Rpc_get_active_session "alice"; Rpc_record_session_usage "s-alice"]
    /\ map ExecutionSessions.use_count (execution_sessions (db w')) = [Some 1].
Proof.
  destruct (validation_records_one_use web "alice" session_only)
    as (result & w' & Hrun & _ & Hvalid).
  exists result, w'.
  assert (Hresult : valid result = true).
  { assert (H : valid (match fst (validateExecutionSession web "alice" session_only) with
                       | Return r => r
                       | Throw _ => invalid ""
                       end) = true) by (vm_compute; reflexivity).
    rewrite Hrun in H. exact H. }
  split; [exact Hrun|]. split; [exact Hresult|].
  destruct (Hvalid Hresult) as (first & rest & Hfound & _ & Hsent & _ & Hstore & _).
  vm_compute in Hfound. inversion Hfound; subst first rest.
  split; [exact Hsent|]. rewrite Hstore. reflexivity.
Defined.

(** Witness of X7: without a persistent password and without a
    session, nothing resolves. *)
Lemma getExecutionPassword_fails_closed_witness :
  exists result w',
    getExecutionPassword web "alice" due_without_credentials = (Return result, w')
    /\ resolved_tier result = none
    /\ resolved_password result = Null
    /\ exists message,
        resolved_error result = Some message /\ In message resolution_errors.
Proof.
  destruct (getExecutionPassword_fails_closed web "alice" due_without_credentials)
    as (result & w' & Hrun & _ & _ & Hnone & _).
  exists result, w'.
  assert (Htier : resolved_tier result = none).
  { assert (H : match fst (getExecutionPassword web "alice" due_without_credentials) with
                | Return r => resolved_tier r
                | Throw _ => persistent
                end = none) by (vm_compute; reflexivity).
    rewrite Hrun in H. exact H. }
  split; [exact Hrun|]. split; [exact Htier|]. exact (Hnone Htier).
Defined.

(** Witness of X8: Alice, with both tiers, can execute. *)
Lemma hasExecutionCapability_iff_tier_witness :
  exists canExecute reported w',
    hasExecutionCapability web "alice" both_tiers = (Return (canExecute, reported), w')
    /\ (canExecute = true <-> reported <> none)
    /\ fst (hasExecutionCapability web "alice" both_tiers) = Return (true, persistent).
Proof.
  destruct (hasExecutionCapability_iff_tier web "alice" both_tiers)
    as (canExecute & reported & w' & Hrun & Hiff & _).
  exists canExecute, reported, w'.
  split; [exact Hrun|]. split; [exact Hiff|]. vm_compute. reflexivity.
Defined.

End CustodianWitnesses.

Module RevocationFacts.
Import Js Supabase ExecutionSession CustodySpec CustodianSpec CustodyFacts SliceFacts.

Lemma update_revoked_by_id tbl sid :
  exists tbl',
    ExecutionSessions.update_revoked tbl sid = Pg.Ok tbl'
    /\ Forall2 (fun es es' => if String.eqb (ExecutionSessions.id es) sid
                              then revoke_outcome es es' else es' = es) tbl tbl'.
Proof.
  destruct (SessionFacts.update_revoked_total tbl sid) as [tbl' Hok].
  exists tbl'. split; [assumption|].
  apply PgFacts.update_Forall2 in Hok.
  eapply PgFacts.Forall2_impl; [|exact Hok].
  intros es es' H. cbv beta in H.
  unfold ExecutionSessions.id_is, Pg.sql_texteq, Pg.strict2 in H.
  rewrite PgFacts.is_true_Some in H.
  destruct (String.eqb (ExecutionSessions.id es) sid); [|assumption].
  destruct H as (s & Hs & ->). unfold ExecutionSessions.revoke_set in Hs.
  inversion Hs; subst. repeat split.
Qed.

(** X9. [revokeSession] never throws, and writes nothing but the
    sessions.  When it returns [true] the client is configured and it
    has sent the one update, which has set [revoked] of the session
    with that id and changed no other column and no other session.
    When the client is not configured it returns [false] and nothing
    is sent; when the request is lost on the way it returns [false]
    and the store is as it was. *)
Theorem revokeSession_effect :
  forall sessionId w,
    exists ok w',
      revokeSession sessionId w = (Return ok, w')
      /\ sessions_only (db w) (db w')
      /\ (ok = true ->
          configured (env w)
          /\ sent w' = sent w ++ [UpdateRevoked sessionId]
          /\ Forall2 (fun es es' =>
                        if String.eqb (ExecutionSessions.id es) sessionId
                        then revoke_outcome es es' else es' = es)
                     (execution_sessions (db w)) (execution_sessions (db w')))
      /\ (~ configured (env w) -> ok = false /\ w' = w)
      /\ (configured (env w) -> lost (next_fate w) = true ->
          ok = false /\ db w' = db w
          /\ sent w' = sent w ++ [UpdateRevoked sessionId]).
Proof.
  intros sessionId w.
  unfold revokeSession, Supabase.update_revoked. unfold_M.
  destruct (createSupabaseClient_cases w) as [[Hcfg ->]|[Hcfg ->]].
  2: { eexists; eexists. split; [reflexivity|].
       split; [repeat split|]. split; [discriminate|].
       split; [intros _; split; reflexivity|]. intros Hyes. contradiction. }
  match goal with |- context [send ?rq ?st ?w0] =>
    destruct (send_cases rq st w0)
      as [(failure & -> & Hwhy)|(done & d & Hl & Hst & ->)] end.
  - eexists; eexists. split; [reflexivity|]. simpl.
    split; [repeat split|]. split; [discriminate|].
    split; [intros Hno; contradiction|].
    intros _ _. repeat split.
  - eexists; eexists. split; [reflexivity|]. simpl.
    destruct (update_revoked_by_id (execution_sessions (db w)) sessionId)
      as (tbl' & Hok & Hrel).
    rewrite Hok in Hst. simpl in Hst. inversion Hst; subst.
    split; [repeat split|].
    split; [intros _; split; [exact Hcfg|split; [reflexivity|exact Hrel]]|].
    split; [intros Hno; contradiction|].
    intros _ Hlost. congruence.
Qed.

(** ** decryptStoredPassword *)

Lemma slice_rest {A} (l : list A) (n : nat) :
  slice (Z.of_nat n) None l = skipn n l.
Proof.
  unfold slice, relative_index.
  destruct (Z.ltb_spec (Z.of_nat n) 0); [lia|].
  destruct (Nat.le_gt_cases n (length l)) as [Hle|Hgt].
  - replace (Z.to_nat (Z.min (Z.of_nat n) (Z.of_nat (length l)))) with n by lia.
    apply firstn_all2. rewrite length_skipn. lia.
  - replace (Z.to_nat (Z.min (Z.of_nat n) (Z.of_nat (length l))))
      with (length l) by lia.
    rewrite skipn_all, (skipn_all2 (n := n) l) by lia. apply firstn_nil.
Qed.

(** X10. [decryptStoredPassword] never throws and changes nothing.  It
    reads the first 12 bytes of the decoded value as the iv and all the
    rest as the ciphertext (a value of 12 bytes or fewer has an empty
    ciphertext), derives the key from [ENCRYPTION_SECRET] with the
    fixed salt and 100000 iterations, and returns the decoded
    plaintext, or [null] when the value does not decode from Base64,
    the key is not derived or the decryption fails.  When
    [ENCRYPTION_SECRET] is not set, or is empty, the key is derived
    from the fixed placeholder. *)
Theorem decryptStoredPassword_reads :
  forall W encrypted w,
    decryptStoredPassword W encrypted w
    = (Return (decrypt_stored W (env w) encrypted), w)
    /\ (forall e, decode_base64 W encrypted = Throw e ->
                  decrypt_stored W (env w) encrypted = None)
    /\ (forall combined,
           decode_base64 W encrypted = Return combined ->
           combined = firstn 12 combined ++ skipn 12 combined
           /\ ((length combined <= 12)%nat -> skipn 12 combined = [])
           /\ (forall secret,
                  ENCRYPTION_SECRET (env w) = Some secret -> secret <> "" ->
                  decrypt_stored W (env w) encrypted
                  = stored_plaintext W secret combined)
           /\ (ENCRYPTION_SECRET (env w) = None
               \/ ENCRYPTION_SECRET (env w) = Some "" ->
               decrypt_stored W (env w) encrypted
               = stored_plaintext W placeholder_secret combined)).
Proof.
  intros W encrypted w. split; [reflexivity|]. split.
  - intros e H. unfold decrypt_stored. now rewrite H.
  - intros combined H.
    assert (Hread : forall secret,
               server_secret (env w) = secret ->
               decrypt_stored W (env w) encrypted
               = stored_plaintext W secret combined).
    { intros secret Hs. unfold decrypt_stored, stored_plaintext.
      rewrite H. simpl Js.bind at 1. rewrite Hs.
      change 12 with (Z.of_nat 12).
      now rewrite slice_prefix, slice_rest. }
    split; [symmetry; apply firstn_skipn|].
    split; [intros Hshort; now apply skipn_all2|]. split.
    + intros secret Hs Hne. apply Hread. unfold server_secret. rewrite Hs.
      apply String.eqb_neq in Hne. now rewrite Hne.
    + intros [Hs|Hs]; apply Hread; unfold server_secret; now rewrite Hs.
Qed.

End RevocationFacts.

Module RevocationWitnesses.
Import Js Supabase ExecutionSession CustodySpec CustodianSpec RevocationFacts SampleCustody.

(** Witness of X10: the stored password of Alice. *)
Lemma decryptStoredPassword_reads_witness :
  decode_base64 web (sealed "correct horse")
  = Return (iv ++ list_byte_of_string "correct horse" ++ tag)
  /\ ENCRYPTION_SECRET (env both_tiers) = Some "server-secret"
  /\ decrypt_stored web (env both_tiers) (sealed "correct horse")
     = stored_plaintext web "server-secret"
         (iv ++ list_byte_of_string "correct horse" ++ tag).
Proof.
  assert (Hdecoded : decode_base64 web (sealed "correct horse")
                     = Return (iv ++ list_byte_of_string "correct horse" ++ tag))
    by (vm_compute; reflexivity).
  split; [exact Hdecoded|]. split; [reflexivity|].
  destruct (decryptStoredPassword_reads web (sealed "correct horse") both_tiers)
    as (_ & _ & Hread).
  destruct (Hread _ Hdecoded) as (_ & _ & Hsecret & _).
  apply Hsecret; [reflexivity|discriminate].
Defined.

(** Witness of X9: the session of Alice is revoked. *)
Lemma revokeSession_effect_witness :
  exists w',
    revokeSession "s-alice" session_only = (Return true, w')
    /\ sent w' = [UpdateRevoked "s-alice"]
    /\ map ExecutionSessions.revoked (execution_sessions (db w')) = [Some true].
Proof.
  destruct (revokeSession_effect "s-alice" session_only)
    as (ok & w' & Hrun & _ & Hdone & _).
  assert (Hok : ok = true).
  { assert (H : fst (revokeSession "s-alice" session_only) = Return true)
      by (vm_compute; reflexivity).
    rewrite Hrun in H. now inversion H. }
  subst ok. exists w'. split; [exact Hrun|].
  destruct (Hdone eq_refl) as (_ & Hsent & _). split; [exact Hsent|].
  assert (Hw : w' = snd (revokeSession "s-alice" session_only))
    by (now rewrite Hrun).
  rewrite Hw. vm_compute. reflexivity.
Defined.

End RevocationWitnesses.


(* ===================================================================== *)
(** * More properties of the exchange adapter *)
(* ===================================================================== *)

Module AssetFacts.
Import Js HyperliquidAdapter AdapterSpec AssetSpec AdapterFacts.

Lemma find_index_found coin universe index i :
  first_named coin universe i ->
  find_index coin universe index = Return (Some (index + Z.of_nat i)).
Proof.
  intros (before & a & after & -> & <- & Hbefore & a_name & Hname & Hsame).
  revert index. induction Hbefore as [|b before (b_name & Hb & Hdiff) _ IH];
    intros index; simpl.
  - rewrite Hname. simpl. rewrite Hsame. do 2 f_equal. lia.
  - rewrite Hb. simpl. rewrite Hdiff. rewrite IH. do 2 f_equal. lia.
Qed.

Lemma find_index_absent coin universe index :
  Forall (other_asset coin) universe ->
  find_index coin universe index = Return None.
Proof.
  intros H. revert index. induction H as [|b l (b_name & Hb & Hdiff) _ IH];
    intros index; simpl; [reflexivity|].
  rewrite Hb. simpl. now rewrite Hdiff.
Qed.

Lemma find_index_unreadable coin universe index :
  unreadable_first coin universe ->
  exists e, find_index coin universe index = Throw e.
Proof.
  intros (before & a & after & -> & Hbefore & e & He).
  revert index. induction Hbefore as [|b before (b_name & Hb & Hdiff) _ IH];
    intros index; simpl.
  - rewrite He. simpl. eauto.
  - rewrite Hb. simpl. rewrite Hdiff. apply IH.
Qed.

(** Every list of assets is of one of the three kinds. *)
Lemma universe_cases coin universe :
  (exists i, first_named coin universe i)
  \/ Forall (other_asset coin) universe
  \/ unreadable_first coin universe.
Proof.
  induction universe as [|a l IH].
  - right. left. constructor.
  - destruct (prop a "name") as [a_name|e] eqn:Hname.
    + destruct (is_string a_name coin) eqn:Hsame.
      * left. exists 0%nat, [], a, l. repeat split; eauto.
      * assert (Ha : other_asset coin a) by (exists a_name; auto).
        destruct IH as [(i & before & x & after & -> & <- & Hb & Hx)|[Hall|Hbad]].
        -- left. exists (S (length before)), (a :: before), x, after.
           repeat split; auto.
        -- right. left. now constructor.
        -- right. right.
           destruct Hbad as (before & x & after & -> & Hb & Hx).
           exists (a :: before), x, after. repeat split; auto.
    + right. right. exists [], a, l. repeat split; eauto.
Qed.

(** ** floatToWire *)

Lemma drop_zeros_repeat n rest :
  drop_zeros (repeat "0"%char n ++ rest) = drop_zeros rest.
Proof. induction n as [|n IH]; simpl; auto. Qed.

Lemma drop_zeros_significant c rest :
  c <> "0"%char -> drop_zeros (c :: rest) = c :: rest.
Proof.
  intros Hc. simpl.
  destruct c as [[|] [|] [|] [|] [|] [|] [|] [|]]; try reflexivity.
  contradiction.
Qed.

Lemma rev_repeat {A} (x : A) n : rev (repeat x n) = repeat x n.
Proof.
  induction n as [|n IH]; simpl; [reflexivity|].
  rewrite IH. clear IH. induction n as [|n IH]; simpl; [reflexivity|].
  now rewrite IH.
Qed.

Lemma string_of_list_ascii_app a b :
  string_of_list_ascii (a ++ b)
  = (string_of_list_ascii a ++ string_of_list_ascii b)%string.
Proof. induction a as [|c a IH]; simpl; [reflexivity|]. now rewrite IH. Qed.

(** [strip_trailing_zeros], with its two tests written out. *)
Lemma strip_trailing_zeros_tests str :
  strip_trailing_zeros str
  = match rev (list_ascii_of_string str) with
    | c :: rest =>
        if Ascii.eqb c "0"
        then match drop_zeros rest with
             | d :: before =>
                 if Ascii.eqb d "."
                 then string_of_list_ascii (rev before)
                 else string_of_list_ascii (rev (d :: before))
             | [] => ""
             end
        else str
    | [] => str
    end.
Proof.
  unfold strip_trailing_zeros.
  destruct (rev (list_ascii_of_string str)) as [|c rest]; [reflexivity|].
  destruct c as [[|] [|] [|] [|] [|] [|] [|] [|]]; try reflexivity.
  destruct (drop_zeros rest) as [|d before]; [reflexivity|].
  destruct d as [[|] [|] [|] [|] [|] [|] [|] [|]]; reflexivity.
Qed.

Lemma strip_nothing str c rest :
  rev (list_ascii_of_string str) = c :: rest -> c <> "0"%char ->
  strip_trailing_zeros str = str.
Proof.
  intros Hrev Hc. rewrite strip_trailing_zeros_tests, Hrev.
  apply Ascii.eqb_neq in Hc. now rewrite Hc.
Qed.

Lemma strip_zeros str rest d before :
  rev (list_ascii_of_string str) = "0"%char :: rest ->
  drop_zeros rest = d :: before -> d <> "."%char ->
  strip_trailing_zeros str = string_of_list_ascii (rev (d :: before)).
Proof.
  intros Hrev Hdrop Hd. rewrite strip_trailing_zeros_tests, Hrev, Hdrop.
  apply Ascii.eqb_neq in Hd. now rewrite Hd.
Qed.

Lemma strip_zeros_and_point str rest before :
  rev (list_ascii_of_string str) = "0"%char :: rest ->
  drop_zeros rest = "."%char :: before ->
  strip_trailing_zeros str = string_of_list_ascii (rev before).
Proof.
  intros Hrev Hdrop. now rewrite strip_trailing_zeros_tests, Hrev, Hdrop.
Qed.

Lemma rev_decimals whole kept n :
  rev (whole ++ "."%char :: kept ++ repeat "0"%char n)
  = repeat "0"%char n ++ rev kept ++ "."%char :: rev whole.
Proof.
  rewrite rev_app_distr. simpl rev. rewrite rev_app_distr, rev_repeat.
  now rewrite <- !app_assoc.
Qed.

(** A whole number of which only zeros follow the point. *)
Lemma strip_trailing_zeros_whole whole n :
  strip_trailing_zeros
    (string_of_list_ascii (whole ++ "."%char :: repeat "0"%char (S n)))
  = string_of_list_ascii whole.
Proof.
  rewrite <- (rev_involutive whole) at 2.
  apply (strip_zeros_and_point _ (repeat "0"%char n ++ "."%char :: rev whole)).
  - rewrite list_ascii_of_string_of_list_ascii.
    change ("."%char :: repeat "0"%char (S n))
      with ("."%char :: [] ++ repeat "0"%char (S n)).
    rewrite rev_decimals. reflexivity.
  - rewrite drop_zeros_repeat. reflexivity.
Qed.

(** Decimals that end with a significant digit, then [n] zeros. *)
Lemma strip_trailing_zeros_decimals whole kept n :
  ends_significant kept ->
  strip_trailing_zeros
    (string_of_list_ascii (whole ++ "."%char :: kept ++ repeat "0"%char n))
  = string_of_list_ascii (whole ++ "."%char :: kept).
Proof.
  intros (front & c & -> & Hzero & Hpoint).
  assert (Hrev : rev (whole ++ "."%char :: (front ++ [c]) ++ repeat "0"%char n)
                 = repeat "0"%char n ++ c :: rev front ++ "."%char :: rev whole).
  { rewrite rev_decimals, rev_app_distr. reflexivity. }
  assert (Hback : rev (c :: rev front ++ "."%char :: rev whole)
                  = whole ++ "."%char :: front ++ [c]).
  { simpl. rewrite rev_app_distr. simpl. rewrite !rev_involutive.
    now rewrite <- !app_assoc. }
  destruct n as [|n].
  - simpl repeat. rewrite app_nil_r.
    apply (strip_nothing _ c (rev front ++ "."%char :: rev whole)); [|assumption].
    rewrite list_ascii_of_string_of_list_ascii.
    rewrite <- (app_nil_r (front ++ [c])) at 1. exact Hrev.
  - rewrite <- Hback.
    apply (strip_zeros _ (repeat "0"%char n ++ c :: rev front ++ "."%char :: rev whole));
      [|rewrite drop_zeros_repeat; now apply drop_zeros_significant|assumption].
    rewrite list_ascii_of_string_of_list_ascii. exact Hrev.
Qed.

Section WithPlatform.

Context {Wallet : Type}.
Variable P : Platform Wallet.

Lemma own_entry_other coin :
  coin <> "BTC" -> coin <> "ETH" -> coin <> "SOL" ->
  own_entry coin asset_map = None.
Proof.
  intros Hbtc Heth Hsol. unfold asset_map. cbn [own_entry].
  destruct (String.eqb_spec "BTC" coin); [now subst|].
  destruct (String.eqb_spec "ETH" coin); [now subst|].
  destruct (String.eqb_spec "SOL" coin); [now subst|].
  reflexivity.
Qed.

Lemma defined_iff (v : value) : defined v = false <-> v = Undefined.
Proof. destruct v; simpl; split; congruence. Qed.

(** X11. [getAssetIndex] never throws.  BTC, ETH and SOL have the
    indices 0, 1 and 4 of the built-in table, whatever the network
    does.  Any other coin that names a member of [Object.prototype]
    gives that member, and no request is made.  For every other coin
    the listed assets are fetched: the result is the position of the
    first asset named as the coin when the names before it can be
    read, and -1 when no asset has that name, when a name before it
    cannot be read, when the list is not an array, and when the
    request or its body fails. *)
Theorem getAssetIndex_finds :
  forall coin,
    (exists assetIndex, getAssetIndex P coin = Return assetIndex)
    /\ (coin = "BTC" -> getAssetIndex P coin = Return (Num 0))
    /\ (coin = "ETH" -> getAssetIndex P coin = Return (Num 1))
    /\ (coin = "SOL" -> getAssetIndex P coin = Return (Num 4))
    /\ (coin <> "BTC" -> coin <> "ETH" -> coin <> "SOL" ->
        (Object_prototype P coin <> Undefined ->
         getAssetIndex P coin = Return (Object_prototype P coin))
        /\ (Object_prototype P coin = Undefined ->
            (forall e, fetch P (meta_request P) = Throw e ->
                       getAssetIndex P coin = Return (Num (-1)))
            /\ (forall res,
                   fetch P (meta_request P) = Return res ->
                   (forall e, json res = Throw e ->
                              getAssetIndex P coin = Return (Num (-1)))
                   /\ (forall meta,
                          json res = Return meta ->
                          (forall e, prop meta "universe" = Throw e ->
                                     getAssetIndex P coin = Return (Num (-1)))
                          /\ (forall universe,
                                 prop meta "universe" = Return universe ->
                                 (forall items,
                                     universe = Arr items ->
                                     (forall i, first_named coin items i ->
                                                getAssetIndex P coin
                                                = Return (Num (number_of_Z (Z.of_nat i))))
                                     /\ (Forall (other_asset coin) items ->
                                         getAssetIndex P coin = Return (Num (-1)))
                                     /\ (unreadable_first coin items ->
                                         getAssetIndex P coin = Return (Num (-1))))
                                 /\ ((forall items, universe <> Arr items) ->
                                     getAssetIndex P coin = Return (Num (-1)))))))).
Proof.
  intros coin. split; [apply getAssetIndex_total|].
  split; [intros ->; reflexivity|].
  split; [intros ->; reflexivity|].
  split; [intros ->; reflexivity|].
  intros Hbtc Heth Hsol.
  pose proof (own_entry_other coin Hbtc Heth Hsol) as Hnone.
  unfold getAssetIndex, map_entry. rewrite Hnone. split.
  { intros Hmember.
    destruct (defined (Object_prototype P coin)) eqn:Hdefined; [reflexivity|].
    apply defined_iff in Hdefined. contradiction. }
  intros Hmember. rewrite Hmember. cbn [defined].
  fold (meta_request P).
  split; [intros e He; now rewrite He|].
  intros res Hres. rewrite Hres. cbn [bind].
  split; [intros e He; now rewrite He|].
  intros meta Hmeta. rewrite Hmeta. cbn [bind].
  split; [intros e He; now rewrite He|].
  intros universe Huniverse. rewrite Huniverse. cbn [bind].
  split.
  - intros items ->. split; [|split].
    + intros i Hi. rewrite (find_index_found coin items 0 i Hi). reflexivity.
    + intros Hall. rewrite (find_index_absent coin items 0 Hall). reflexivity.
    + intros Hbad. destruct (find_index_unreadable coin items 0 Hbad) as [e ->].
      reflexivity.
  - intros Hnot. destruct universe; try reflexivity.
    exfalso. eapply Hnot. reflexivity.
Qed.

(** X12. [floatToWire] writes zero as ["0"], and otherwise takes
    from the text of [toFixed(8)] nothing but its trailing zeros, and
    the point with them when no other decimal is left: a text of which
    only zeros follow the point gives its whole part, and decimals
    that end with a significant digit, followed by zeros, are kept up
    to that digit. *)
Theorem floatToWire_trims_zeros :
  forall x,
    (PrimFloat.eqb x 0 = true -> floatToWire P x = "0")
    /\ (PrimFloat.eqb x 0 = false ->
        (forall whole n,
            toFixed P x 8
            = string_of_list_ascii (whole ++ "."%char :: repeat "0"%char (S n)) ->
            floatToWire P x = string_of_list_ascii whole)
        /\ (forall whole kept n,
               toFixed P x 8
               = string_of_list_ascii (whole ++ "."%char :: kept ++ repeat "0"%char n) ->
               ends_significant kept ->
               floatToWire P x = string_of_list_ascii (whole ++ "."%char :: kept))).
Proof.
  intros x. unfold floatToWire. split.
  - intros ->. reflexivity.
  - intros ->. split.
    + intros whole n ->. apply strip_trailing_zeros_whole.
    + intros whole kept n -> Hkept. now apply strip_trailing_zeros_decimals.
Qed.

(** X13. The options [orderType] and [price] of [executeTrade] have
    no effect: two calls whose options agree on [reduceOnly] (not
    given counting as [false]) and on [cloid] give the same result,
    the order being always a limit order, good till cancelled, at the
    price of the call. *)
Theorem executeTrade_ignores_order_type :
  forall wallet coin isBuy size price options options',
    same_order_options options options' ->
    (forall assetIndex,
        order_action P assetIndex isBuy size price options
        = order_action P assetIndex isBuy size price options')
    /\ executeTrade P wallet coin isBuy size price options
       = executeTrade P wallet coin isBuy size price options'
    /\ (forall assetIndex,
           opt_prop (opt_first (opt_prop
                      (order_action P assetIndex isBuy size price options) "orders")) "t"
           = Obj [("limit", Obj [("tif", Str "Gtc")])]
           /\ opt_prop (opt_first (opt_prop
                         (order_action P assetIndex isBuy size price options) "orders")) "p"
              = Str (floatToWire P price)).
Proof.
  intros wallet coin isBuy size price options options' [Hreduce Hcloid].
  assert (Haction : forall assetIndex,
             order_action P assetIndex isBuy size price options
             = order_action P assetIndex isBuy size price options').
  { intros assetIndex. unfold order_action. rewrite Hcloid.
    assert (Hr : match reduceOnly options with Some true => true | _ => false end
                 = match reduceOnly options' with Some true => true | _ => false end).
    { destruct (reduceOnly options) as [[|]|], (reduceOnly options') as [[|]|];
        try reflexivity; exfalso;
        solve [ assert (H : Some true = Some true) by reflexivity;
                (apply Hreduce in H || apply (proj2 Hreduce) in H); discriminate ]. }
    now rewrite Hr. }
  split; [apply Haction|]. split.
  - unfold executeTrade. destruct (getAssetIndex P coin) as [assetIndex|e];
      [|reflexivity].
    cbn [bind]. now rewrite (Haction assetIndex).
  - intros assetIndex. split; reflexivity.
Qed.

End WithPlatform.

End AssetFacts.

Module AssetWitnesses.
Import Js HyperliquidAdapter AdapterSpec AssetSpec AssetFacts SampleExchange SampleListing.

(** Witness of X11: DOGE is the second asset listed, BTC is of the
    table, and [toString] names a member of [Object.prototype]. *)
Lemma getAssetIndex_finds_witness :
  first_named "DOGE"
    [Obj [("name", Str "BTC"); ("szDecimals", Num 5%float)];
     Obj [("name", Str "DOGE"); ("szDecimals", Num 0%float)]] 1
  /\ getAssetIndex lists_doge "DOGE" = Return (Num 1)
  /\ getAssetIndex lists_doge "BTC" = Return (Num 0)
  /\ getAssetIndex lists_doge "toString" = Return (Fun "toString").
Proof.
  assert (Hnamed : first_named "DOGE"
                     [Obj [("name", Str "BTC"); ("szDecimals", Num 5%float)];
                      Obj [("name", Str "DOGE"); ("szDecimals", Num 0%float)]] 1).
  { exists [Obj [("name", Str "BTC"); ("szDecimals", Num 5%float)]],
           (Obj [("name", Str "DOGE"); ("szDecimals", Num 0%float)]), [].
    split; [reflexivity|]. split; [reflexivity|]. split.
    - constructor; [|constructor]. exists (Str "BTC"). split; reflexivity.
    - exists (Str "DOGE"). split; reflexivity. }
  destruct (getAssetIndex_finds lists_doge "DOGE") as (_ & _ & _ & _ & Hother).
  destruct (getAssetIndex_finds lists_doge "BTC") as (_ & Hknown & _).
  destruct (getAssetIndex_finds lists_doge "toString")
    as (_ & _ & _ & _ & Hinherited).
  split; [exact Hnamed|]. split; [|split].
  - destruct Hother as (_ & Hfetched); try discriminate.
    destruct (Hfetched eq_refl) as (_ & Hres).
    destruct (Hres _ eq_refl) as (_ & Hmeta).
    destruct (Hmeta _ eq_refl) as (_ & Huniverse).
    destruct (Huniverse _ eq_refl) as (Hitems & _).
    destruct (Hitems _ eq_refl) as (Hfound & _).
    exact (Hfound 1%nat Hnamed).
  - apply Hknown. reflexivity.
  - destruct Hinherited as (Hmember & _); try discriminate.
    apply Hmember. discriminate.
Defined.

(** Witness of X12: 1.50000000 is written 1.5. *)
Lemma floatToWire_trims_zeros_witness :
  PrimFloat.eqb 1.5 0 = false
  /\ toFixed accepts 1.5 8
     = string_of_list_ascii (["1"%char] ++ "."%char :: ["5"%char] ++ repeat "0"%char 7)
  /\ ends_significant ["5"%char]
  /\ floatToWire accepts 1.5 = "1.5".
Proof.
  assert (Hkept : ends_significant ["5"%char]).
  { exists [], "5"%char. repeat split; discriminate. }
  split; [reflexivity|]. split; [reflexivity|]. split; [exact Hkept|].
  destruct (floatToWire_trims_zeros accepts 1.5%float) as [_ Htrim].
  destruct (Htrim eq_refl) as [_ Hdecimals].
  exact (Hdecimals ["1"%char] ["5"%char] 7%nat eq_refl Hkept).
Defined.

(** Witness of X13: asking for a market order changes nothing. *)
Lemma executeTrade_ignores_order_type_witness :
  same_order_options market_order no_options
  /\ executeTrade accepts "wallet" "BTC" true 1.5%float 1.5%float market_order
     = executeTrade accepts "wallet" "BTC" true 1.5%float 1.5%float no_options.
Proof.
  assert (Hsame : same_order_options market_order no_options).
  { split; [split; discriminate|reflexivity]. }
  split; [exact Hsame|].
  destruct (executeTrade_ignores_order_type accepts "wallet" "BTC" true
              1.5%float 1.5%float market_order no_options Hsame) as (_ & Hequal & _).
  exact Hequal.
Defined.

End AssetWitnesses.


(* ===================================================================== *)
(** * More properties of the trigger *)
(* ===================================================================== *)

Module TriggerFacts.
Import Js Supabase CronTrigger CustodySpec OrchestrationSpec TriggerSpec
       CustodyFacts OrchestrationFacts ServerSpec ServerFacts.

Lemma secret_passes cronSecret expectedSecret :
  falsy_secret cronSecret || differs cronSecret expectedSecret = false
  <-> passes cronSecret expectedSecret.
Proof.
  unfold falsy_secret, differs, passes.
  destruct cronSecret as [given|], expectedSecret as [expected|]; simpl.
  - destruct (String.eqb_spec given "") as [->|Hne]; simpl.
    + split; [discriminate|]. intros (s & Hs & Hn & _). inversion Hs. congruence.
    + destruct (String.eqb_spec given expected) as [->|Hd]; simpl.
      * split; [eauto|reflexivity].
      * split; [discriminate|]. intros (s & Hs & _ & He). congruence.
  - rewrite orb_true_r. split; [discriminate|]. intros (s & _ & _ & He). discriminate.
  - split; [discriminate|]. intros (s & Hs & _). discriminate.
  - split; [discriminate|]. intros (s & Hs & _). discriminate.
Qed.

Lemma run_app calls calls' tbl :
  CronSchedules.run (calls ++ calls') tbl
  = CronSchedules.run calls' (CronSchedules.run calls tbl).
Proof.
  revert tbl. induction calls as [|[now c] rest IH]; intros tbl; simpl; auto.
Qed.

Lemma runs_only_refl ids d : runs_only ids d d.
Proof.
  do 3 (split; [reflexivity|]). exists []. split; [reflexivity|constructor].
Qed.

Lemma runs_only_trans ids a b c :
  runs_only ids a b -> runs_only ids b c -> runs_only ids a c.
Proof.
  intros (K1 & U1 & S1 & calls1 & R1 & F1) (K2 & U2 & S2 & calls2 & R2 & F2).
  split; [congruence|]. split; [congruence|]. split; [congruence|].
  exists (calls1 ++ calls2). split.
  - now rewrite run_app, <- R1.
  - apply Forall_app. auto.
Qed.

Lemma runs_only_incl ids ids' d d' :
  incl ids ids' -> runs_only ids d d' -> runs_only ids' d d'.
Proof.
  intros Hincl (K & U & S & calls & R & F).
  do 3 (split; [assumption|]). exists calls. split; [assumption|].
  eapply Forall_impl; [|exact F]. intros timed (sid & Hin & Hrec). eauto.
Qed.

Ltac keeps_only ids :=
  repeat first
    [ apply keeps_ret; apply runs_only_refl
    | apply keeps_throw; apply runs_only_refl
    | apply keeps_Date_now; apply runs_only_refl
    | apply keeps_get_env; apply runs_only_refl
    | apply keeps_select_encrypted_blob; apply runs_only_refl
    | apply keeps_select_dealer_settings; apply runs_only_refl
    | apply keeps_bind; [apply runs_only_trans| |intro]
    | apply keeps_try_catch; [apply runs_only_trans| |intro]
    | match goal with
      | |- keeps _ (match ?x with _ => _ end) => destruct x
      | |- keeps _ (if ?b then _ else _) => destruct b
      end ].

Lemma keeps_record_success_only ids sid :
  In sid ids -> keeps (runs_only ids) (rpc_record_schedule_success sid).
Proof.
  intros Hin. apply keeps_send; [apply runs_only_refl|].
  intros d now a d' H.
  destruct (CronSchedules.record_schedule_success (cron_schedules d) now sid)
    as [t|e] eqn:E; simpl in H; inversion H; subst.
  do 3 (split; [reflexivity|]).
  exists [(now, CronSchedules.RecordSuccess sid)]. split.
  - simpl. now rewrite E.
  - constructor; [|constructor]. exists sid. split; [assumption|]. now left.
Qed.

Lemma keeps_record_error_only ids sid message :
  In sid ids -> keeps (runs_only ids) (rpc_record_schedule_error sid message).
Proof.
  intros Hin. apply keeps_send; [apply runs_only_refl|].
  intros d now a d' H.
  destruct (CronSchedules.record_schedule_error (cron_schedules d) now sid message)
    as [t|e] eqn:E; simpl in H; inversion H; subst.
  do 3 (split; [reflexivity|]).
  exists [(now, CronSchedules.RecordError sid message)]. split.
  - simpl. now rewrite E.
  - constructor; [|constructor]. exists sid. split; [assumption|]. right. exists message. reflexivity.
Qed.

Lemma keeps_executeSchedule_only ids schedule :
  In (CronSchedules.schedule_id schedule) ids ->
  keeps (runs_only ids) (executeSchedule schedule).
Proof.
  intros Hin. unfold executeSchedule. cbv zeta.
  repeat first
    [ apply keeps_record_success_only; exact Hin
    | apply keeps_record_error_only; exact Hin
    | progress keeps_only ids ].
Qed.

Lemma keeps_execute_each_only ids dueSchedules :
  incl (map CronSchedules.schedule_id dueSchedules) ids ->
  keeps (runs_only ids) (execute_each dueSchedules).
Proof.
  induction dueSchedules as [|schedule rest IH]; intros Hincl; simpl.
  - apply keeps_ret, runs_only_refl.
  - apply keeps_bind; [apply runs_only_trans| |intro].
    + apply keeps_executeSchedule_only. apply Hincl. now left.
    + apply keeps_bind; [apply runs_only_trans| |intro].
      * apply IH. intros x Hx. apply Hincl. now right.
      * apply keeps_ret, runs_only_refl.
Qed.

Lemma run_other_schedules calls tbl cs :
  Forall (fun timed => ScheduleSpec.targets (CronSchedules.id cs) (snd timed) = false)
         calls ->
  In cs tbl -> In cs (CronSchedules.run calls tbl).
Proof.
  intros H. revert tbl. induction H as [|[now c] rest Hc _ IH]; intros tbl Hin;
    simpl; [assumption|].
  apply IH. now apply ScheduleFacts.exec_other_schedule.
Qed.

Section Handler.
Context {Cors : Type}.
Variable handleCors : trigger_request -> option Cors.

(** The store after the handler. *)
Lemma serve_store req w :
  runs_only
    (map CronSchedules.schedule_id
         (CronSchedules.get_due_schedules (cron_schedules (db w)) (arrival w)))
    (db w) (db (snd (serve handleCors req w))).
Proof.
  unfold serve.
  destruct (handleCors req) as [corsResponse|]; [apply runs_only_refl|].
  unfold rpc_get_due_schedules. unfold_M.
  destruct (falsy_secret (x_cron_secret req)
            || differs (x_cron_secret req) (CRON_SECRET (env w)));
    [apply runs_only_refl|].
  destruct (createSupabaseClient_cases w) as [[Hcfg ->]|[Hcfg ->]];
    [|apply runs_only_refl].
  match goal with |- context [send Rpc_get_due_schedules ?st w] =>
    destruct (send_cases Rpc_get_due_schedules st w)
      as [(failure & -> & Hwhy)|(due & d & Hlost & Hst & ->)] end;
    [apply runs_only_refl|].
  inversion Hst; subst due d; clear Hst.
  destruct (CronSchedules.get_due_schedules (cron_schedules (db w)) (arrival w))
    as [|schedule more] eqn:Hdue; [apply runs_only_refl|].
  pose proof (keeps_execute_each_only
                (map CronSchedules.schedule_id (schedule :: more))
                (schedule :: more) (incl_refl _)
                (answered Rpc_get_due_schedules (db w) w)) as Hkept.
  change (db (answered Rpc_get_due_schedules (db w) w)) with (db w) in Hkept.
  destruct (execute_each (schedule :: more)
              (answered Rpc_get_due_schedules (db w) w)) as [[results|e] w'];
    exact Hkept.
Qed.

(** X14. A request that [handleCors] lets through and whose
    [x-cron-secret] header is missing, empty, or not the [CRON_SECRET]
    of the environment is answered [Unauthorized], 401, and nothing
    happens: no request is sent and the store, the clock and the log
    are as they were.  When [CRON_SECRET] is not set, every request is
    refused so. *)
Theorem serve_refuses_without_secret :
  forall req w,
    handleCors req = None ->
    (~ passes (x_cron_secret req) (CRON_SECRET (env w)) ->
     serve handleCors req w = (Return (ErrorResponse "Unauthorized" 401), w))
    /\ (CRON_SECRET (env w) = None ->
        serve handleCors req w = (Return (ErrorResponse "Unauthorized" 401), w))
    /\ (x_cron_secret req = None \/ x_cron_secret req = Some "" ->
        serve handleCors req w = (Return (ErrorResponse "Unauthorized" 401), w)).
Proof.
  intros req w Hcors.
  assert (Hrefused : ~ passes (x_cron_secret req) (CRON_SECRET (env w)) ->
                     serve handleCors req w
                     = (Return (ErrorResponse "Unauthorized" 401), w)).
  { intros Hno. unfold serve. rewrite Hcors. unfold_M.
    destruct (falsy_secret (x_cron_secret req)
              || differs (x_cron_secret req) (CRON_SECRET (env w))) eqn:E;
      [reflexivity|].
    apply secret_passes in E. contradiction. }
  split; [exact Hrefused|]. split.
  - intros Hunset. apply Hrefused. intros (s & _ & _ & He). congruence.
  - intros Hmissing. apply Hrefused. intros (s & Hs & Hne & _).
    destruct Hmissing as [Hm|Hm]; rewrite Hm in Hs; inversion Hs. congruence.
Qed.

(** X15. A request with the right secret that cannot read the due
    schedules, the client not being configured or the query failing,
    is answered [INTERNAL_ERROR: Internal server error], 500, whatever
    the cause, which the answer does not tell; no schedule is run and
    the store is as it was. *)
Theorem serve_fails_without_schedules :
  forall req w,
    handleCors req = None ->
    passes (x_cron_secret req) (CRON_SECRET (env w)) ->
    (~ configured (env w) ->
     serve handleCors req w = (Return internal_error, w))
    /\ (configured (env w) -> lost (next_fate w) = true ->
        serve handleCors req w
        = (Return internal_error, answered Rpc_get_due_schedules (db w) w)).
Proof.
  intros req w Hcors Hpasses. apply secret_passes in Hpasses.
  unfold serve. rewrite Hcors. unfold rpc_get_due_schedules. unfold_M.
  rewrite Hpasses. split.
  - intros Hno.
    destruct (createSupabaseClient_cases w) as [[Hcfg _]|[_ ->]];
      [contradiction|reflexivity].
  - intros Hcfg Hlost. rewrite (createSupabaseClient_configured w Hcfg).
    rewrite send_lost by assumption. reflexivity.
Qed.

(** X16. A request that passes the checks, its query answered, is
    answered [No schedules due] when no schedule is due, and otherwise
    with one result for each due schedule, in their order: [executed]
    is the number of due schedules, and [successCount] and
    [failureCount] add up to it; a result that is no success carries
    an error. *)
Theorem serve_counts_every_schedule :
  forall req w,
    authorized handleCors req w -> lost (next_fate w) = false ->
    let due :=
      CronSchedules.get_due_schedules (cron_schedules (db w)) (arrival w) in
    (due = [] -> fst (serve handleCors req w) = Return NoSchedulesDue)
    /\ (due <> [] ->
        exists results,
          fst (serve handleCors req w)
          = Return (Executed (Z.of_nat (length due))
                             (count success results)
                             (count (fun r => negb (success r)) results)
                             results)
          /\ count success results + count (fun r => negb (success r)) results
             = Z.of_nat (length due)
          /\ map scheduleId results = map CronSchedules.schedule_id due
          /\ Forall (fun r => success r = false ->
                              exists message, error r = Some message) results).
Proof.
  intros req w Hauth Hlost due.
  pose proof Hauth as (Hcors & Hfalsy & Hdiffers & Hcfg).
  unfold serve. rewrite Hcors. unfold rpc_get_due_schedules. unfold_M.
  rewrite Hfalsy, Hdiffers. cbn [orb].
  rewrite (createSupabaseClient_configured w Hcfg).
  erewrite send_completed; [|exact Hlost|reflexivity].
  fold due. destruct due as [|schedule more] eqn:Hdue.
  { split; [reflexivity|]. intros H. now destruct H. }
  split; [discriminate|]. intros _.
  destruct (execute_each_spec (schedule :: more)
              (answered Rpc_get_due_schedules (db w) w))
    as (results & w' & runs & Heach & _ & _ & _ & Hids & Herrors).
  rewrite Heach. exists results.
  assert (Hlen : length results = length (schedule :: more)).
  { rewrite <- (length_map scheduleId results), Hids. apply length_map. }
  rewrite Hlen. split; [reflexivity|]. split; [|split; assumption].
  unfold count. rewrite <- Hlen.
  rewrite (SessionStoreFacts.filter_length_split success results). lia.
Qed.

(** X17. Whatever the request, the handler writes nothing but
    [cron_schedules], and what it writes there is the work of calls of
    [record_schedule_success] and [record_schedule_error], each on a
    schedule that [get_due_schedules] returned when it was asked; so a
    row that is not due then is in the table afterwards, as it was. *)
Theorem serve_writes_due_schedules_only :
  forall req w,
    let due :=
      CronSchedules.get_due_schedules (cron_schedules (db w)) (arrival w) in
    let after := db (snd (serve handleCors req w)) in
    encrypted_keys after = encrypted_keys (db w)
    /\ user_settings after = user_settings (db w)
    /\ execution_sessions after = execution_sessions (db w)
    /\ (exists calls,
           cron_schedules after = CronSchedules.run calls (cron_schedules (db w))
           /\ Forall (fun timed =>
                        exists schedule,
                          In schedule due
                          /\ records (CronSchedules.schedule_id schedule) (snd timed))
                     calls)
    /\ (NoDup (map CronSchedules.id (cron_schedules (db w))) ->
        forall cs,
          In cs (cron_schedules (db w)) ->
          ~ ScheduleSpec.Due (arrival w) cs ->
          In cs (cron_schedules after)).
Proof.
  intros req w due after.
  destruct (serve_store req w) as (Hkeys & Hsettings & Hsessions & calls & Hrun & Hcalls).
  fold due in Hcalls. fold after in Hkeys, Hsettings, Hsessions, Hrun.
  do 3 (split; [assumption|]).
  assert (Hdue : Forall (fun timed =>
                           exists schedule,
                             In schedule due
                             /\ records (CronSchedules.schedule_id schedule) (snd timed))
                        calls).
  { eapply Forall_impl; [|exact Hcalls]. intros timed (sid & Hin & Hrec).
    apply in_map_iff in Hin as (schedule & <- & Hin). eauto. }
  split; [exists calls; auto|].
  intros Hpk cs Hin Hnot. rewrite Hrun.
  apply run_other_schedules; [|assumption].
  eapply Forall_impl; [|exact Hdue].
  intros timed (schedule & Hs & Hrec).
  destruct (ScheduleSpec.targets (CronSchedules.id cs) (snd timed)) eqn:Ht;
    [|reflexivity].
  exfalso. apply Hnot.
  apply ScheduleFacts.get_due_schedules_In in Hs as (row & Hrow & <- & Hdue').
  assert (Hid : CronSchedules.id row = CronSchedules.id cs).
  { destruct Hrec as [Hrec|(message & Hrec)]; rewrite Hrec in Ht; simpl in Ht;
      now apply String.eqb_eq in Ht. }
  assert (row = cs) as <- by (apply (PgFacts.NoDup_map_eq CronSchedules.id _ _ _ Hpk); auto).
  exact Hdue'.
Qed.

(** X18. A schedule that is disabled is not run again: whatever the
    handler and the custodian do afterwards, any number of times,
    [get_due_schedules] returns it at no time. *)
Theorem disabled_schedule_stays_out :
  forall (W : ExecutionSession.WebPlatform) w w' cs,
    NoDup (map CronSchedules.id (cron_schedules (db w))) ->
    In cs (cron_schedules (db w)) ->
    CronSchedules.enabled cs = false ->
    follows W handleCors w w' ->
    forall T d,
      In d (CronSchedules.get_due_schedules (cron_schedules (db w')) T) ->
      CronSchedules.schedule_id d <> CronSchedules.id cs.
Proof.
  intros W w w' cs Hpk Hin Hoff Hfollows T d Hd Hsame.
  apply ScheduleFacts.get_due_schedules_In in Hd as (cs' & Hin' & <- & (Hon & _)).
  change (CronSchedules.id cs' = CronSchedules.id cs) in Hsame.
  pose proof (follows_stays_disabled W handleCors w w' Hfollows) as Hstay.
  destruct (PgFacts.Forall2_In_r _ _ _ _ Hstay Hin')
    as (x & Hx & Hid & Hkeep).
  assert (x = cs) as ->
    by (apply (PgFacts.NoDup_map_eq CronSchedules.id _ _ _ Hpk); auto; congruence).
  rewrite (Hkeep Hoff) in Hon. discriminate.
Qed.

End Handler.

End TriggerFacts.

Module TriggerWitnesses.
Import Js Supabase CronTrigger CustodySpec OrchestrationSpec TriggerSpec ServerSpec
       TriggerFacts SampleCustody SampleTrigger.

(** Witness of X14: a guessed secret. *)
Lemma serve_refuses_without_secret_witness :
  preflight guess = None
  /\ ~ passes (x_cron_secret guess) (CRON_SECRET (env due_without_credentials))
  /\ serve preflight guess due_without_credentials
     = (Return (ErrorResponse "Unauthorized" 401), due_without_credentials).
Proof.
  assert (Hwrong : ~ passes (x_cron_secret guess)
                     (CRON_SECRET (env due_without_credentials))).
  { intros (s & Hs & _ & He). simpl in Hs, He. congruence. }
  split; [reflexivity|]. split; [exact Hwrong|].
  destruct (serve_refuses_without_secret preflight guess due_without_credentials eq_refl)
    as (Hrefused & _).
  exact (Hrefused Hwrong).
Defined.

(** Witness of X15: the client is not configured. *)
Lemma serve_fails_without_schedules_witness :
  (preflight trigger = None
   /\ passes (x_cron_secret trigger) (CRON_SECRET (env unconfigured))
   /\ ~ configured (env unconfigured))
  /\ serve preflight trigger unconfigured = (Return internal_error, unconfigured).
Proof.
  assert (Hpasses : passes (x_cron_secret trigger) (CRON_SECRET (env unconfigured))).
  { exists "cron-secret". repeat split. discriminate. }
  assert (Hno : ~ configured (env unconfigured)).
  { intros [Hurl _]. discriminate Hurl. }
  split; [repeat split; assumption|].
  destruct (serve_fails_without_schedules preflight trigger unconfigured eq_refl Hpasses)
    as (Hfails & _).
  exact (Hfails Hno).
Defined.

(** Witness of X16: two of the three sample schedules are due, and
    both runs fail for want of a key record. *)
Lemma serve_counts_every_schedule_witness :
  (authorized preflight trigger three_schedules
   /\ lost (next_fate three_schedules) = false)
  /\ exists results,
      fst (serve preflight trigger three_schedules)
      = Return (Executed 2 (count success results)
                         (count (fun r => negb (success r)) results) results)
      /\ map scheduleId results = ["s1"; "s3"].
Proof.
  assert (Hauthorized : authorized preflight trigger three_schedules).
  { split; [reflexivity|]. split; [reflexivity|]. split; [reflexivity|].
    split; reflexivity. }
  split; [split; [exact Hauthorized|reflexivity]|].
  destruct (serve_counts_every_schedule preflight trigger three_schedules
              Hauthorized eq_refl) as [_ Hsome].
  destruct Hsome as (results & Hresponse & _ & Hids & _).
  { vm_compute. discriminate. }
  exists results. split; [exact Hresponse|exact Hids].
Defined.

(** Witness of X17: the schedule that is not enabled is not due, and
    is in the table after the trigger as it was. *)
Lemma serve_writes_due_schedules_only_witness :
  NoDup (map CronSchedules.id (cron_schedules (db three_schedules)))
  /\ ~ ScheduleSpec.Due (arrival three_schedules) ScheduleExamples.never_enabled
  /\ In ScheduleExamples.never_enabled
        (cron_schedules (db (snd (serve preflight trigger three_schedules)))).
Proof.
  assert (Hpk : NoDup (map CronSchedules.id (cron_schedules (db three_schedules))))
    by exact ScheduleWitnesses.schedules_primary_key.
  assert (Hnot : ~ ScheduleSpec.Due (arrival three_schedules)
                   ScheduleExamples.never_enabled).
  { intros (Hon & _). discriminate Hon. }
  split; [exact Hpk|]. split; [exact Hnot|].
  destruct (serve_writes_due_schedules_only preflight trigger three_schedules)
    as (_ & _ & _ & _ & Huntouched).
  apply (Huntouched Hpk); [simpl; auto|exact Hnot].
Defined.

(** Witness of X18: after two triggers the schedule that is not
    enabled is still not due. *)
Lemma disabled_schedule_stays_out_witness :
  let w' := perform web preflight (Trigger trigger)
              (perform web preflight (Trigger trigger) three_schedules) in
  follows web preflight three_schedules w'
  /\ forall d,
      In d (CronSchedules.get_due_schedules (cron_schedules (db w')) 900000000) ->
      CronSchedules.schedule_id d <> "s2".
Proof.
  intros w'.
  assert (Hfollows : follows web preflight three_schedules w')
    by (apply follows_operation, follows_operation, follows_now).
  split; [exact Hfollows|].
  intros d.
  apply (disabled_schedule_stays_out preflight web three_schedules w'
           ScheduleExamples.never_enabled
           ScheduleWitnesses.schedules_primary_key);
    [simpl; auto|reflexivity|exact Hfollows].
Defined.

End TriggerWitnesses.


(* ===================================================================== *)
(** * Properties of crypto.ts and of the dealer cycle *)
(* ===================================================================== *)

Module DealerFacts.
Import Js ExecutionSession HyperliquidAdapter Crypto DealerCycle DealerSpec.

Lemma decryptBlob_cases W encryptedBlob secret salt :
  (exists key, decryptBlob W encryptedBlob secret salt = Return key
               /\ opens W encryptedBlob secret salt key)
  \/ decryptBlob W encryptedBlob secret salt = Throw decryption_failed.
Proof.
  unfold decryptBlob, opens.
  destruct (decode_base64 W encryptedBlob) as [encryptedData|] eqn:Hblob;
    simpl; [|now right].
  destruct (decode_base64 W salt) as [saltBytes|] eqn:Hsalt; simpl; [|now right].
  destruct (pbkdf2_sha256 W (list_byte_of_string secret) saltBytes 100000)
    as [derivedKey|] eqn:Hkey; simpl; [|now right].
  destruct (aes_gcm_decrypt W derivedKey (slice 0 (Some 12) encryptedData)
              (slice 12 None encryptedData)) as [decrypted|] eqn:Hplain;
    simpl; [|now right].
  left. exists (text_decode W decrypted). split; [reflexivity|].
  exists encryptedData, saltBytes, derivedKey, decrypted. auto.
Qed.

Lemma opens_decrypts W encryptedBlob secret salt key :
  opens W encryptedBlob secret salt key ->
  decryptBlob W encryptedBlob secret salt = Return key.
Proof.
  intros (encryptedData & saltBytes & derivedKey & decrypted
          & Hblob & Hsalt & Hkey & Hplain & ->).
  unfold decryptBlob. rewrite Hblob. simpl. rewrite Hsalt. simpl.
  rewrite Hkey. simpl. rewrite Hplain. reflexivity.
Qed.

Lemma withDecryptedKey_runs {T} W encryptedBlob secret salt
      (operation : string -> outcome T) :
  withDecryptedKey W encryptedBlob secret salt operation
  = bind (decryptBlob W encryptedBlob secret salt) operation.
Proof.
  unfold withDecryptedKey.
  destruct (decryptBlob W encryptedBlob secret salt) as [key|e]; simpl.
  - destruct (negb (String.eqb key "")); simpl;
      destruct (operation key); reflexivity.
  - reflexivity.
Qed.

(** X5. [decryptBlob] returns the text only when every step succeeds:
    both arguments decode from Base64, the key is derived from the
    password and the decoded salt with 100000 rounds, and the bytes
    after the first twelve decrypt under the first twelve as nonce.
    Whatever else happens it throws one and the same error.
    [withDecryptedKey] completes as the operation does on the decrypted
    text, and without that text it throws the error of [decryptBlob]
    whatever the operation is. *)
Theorem withDecryptedKey_needs_the_key :
  forall (W : WebPlatform) (T : Type) encryptedBlob secret salt
         (operation : string -> outcome T),
    (forall key,
        decryptBlob W encryptedBlob secret salt = Return key
        <-> opens W encryptedBlob secret salt key)
    /\ ((exists key,
            opens W encryptedBlob secret salt key
            /\ withDecryptedKey W encryptedBlob secret salt operation
               = operation key)
        \/ ((forall key, ~ opens W encryptedBlob secret salt key)
            /\ decryptBlob W encryptedBlob secret salt = Throw decryption_failed
            /\ forall (T' : Type) (other : string -> outcome T'),
                 withDecryptedKey W encryptedBlob secret salt other
                 = Throw decryption_failed)).
Proof.
  intros W T encryptedBlob secret salt operation.
  assert (Hiff : forall key,
             decryptBlob W encryptedBlob secret salt = Return key
             <-> opens W encryptedBlob secret salt key).
  { intros key. split; [|apply opens_decrypts].
    intros Hkey.
    destruct (decryptBlob_cases W encryptedBlob secret salt)
      as [(key' & Hkey' & Hopens)|Hfails]; [|congruence].
    rewrite Hkey in Hkey'. now inversion Hkey'; subst. }
  split; [exact Hiff|].
  destruct (decryptBlob_cases W encryptedBlob secret salt)
    as [(key & Hkey & Hopens)|Hfails].
  - left. exists key. split; [exact Hopens|].
    rewrite withDecryptedKey_runs, Hkey. reflexivity.
  - right. split; [|split].
    + intros key Hopens. apply Hiff in Hopens. congruence.
    + exact Hfails.
    + intros T' other. rewrite withDecryptedKey_runs, Hfails. reflexivity.
Qed.

Section WithCycle.

Context {Wallet : Type}.
Variable W : WebPlatform.
Variable P : Platform Wallet.
Variable new_Wallet : string -> outcome Wallet.
Variable getMarketContext : string -> outcome MarketContext.
Variable analyzeMarket : MarketContext -> value -> outcome AIAnalysisResult.

Lemma action_of_cases analysis :
  (exists isBuy, strong analysis isBuy /\ action_of analysis = side isBuy)
  \/ ((forall isBuy, ~ strong analysis isBuy) /\ action_of analysis = "HOLD").
Proof.
  unfold action_of, strong.
  destruct (PrimFloat.ltb strong_confidence (analysis_confidence analysis));
    [|right; rewrite !andb_false_r; split; [intros b (H & _); discriminate|reflexivity]].
  rewrite !andb_true_r.
  destruct (String.eqb_spec (signal analysis) "BEARISH") as [Hbear|Hbear].
  - left. exists false. rewrite Hbear. auto.
  - destruct (String.eqb_spec (signal analysis) "BULLISH") as [Hbull|Hbull].
    + left. exists true. auto.
    + right. split; [|reflexivity].
      intros b (_ & [(H & _)|(H & _)]); contradiction.
Qed.

Lemma side_is_buy isBuy : String.eqb (side isBuy) "BUY" = isBuy.
Proof. now destruct isBuy. Qed.

Lemma side_not_hold isBuy : String.eqb (side isBuy) "HOLD" = false.
Proof. now destruct isBuy. Qed.

Lemma strong_side analysis a b : strong analysis a -> strong analysis b -> a = b.
Proof.
  intros (_ & [(Ha & ->)|(Ha & ->)]) (_ & [(Hb & ->)|(Hb & ->)]);
    try reflexivity; rewrite Ha in Hb; discriminate.
Qed.

Lemma opens_once encryptedBlob secret salt a b :
  opens W encryptedBlob secret salt a -> opens W encryptedBlob secret salt b ->
  a = b.
Proof.
  intros Ha Hb. apply opens_decrypts in Ha. apply opens_decrypts in Hb.
  rewrite Ha in Hb. now inversion Hb.
Qed.

Lemma answered_once body key secret coin isBuy price a b :
  answered W P new_Wallet body key secret coin isBuy price a ->
  answered W P new_Wallet body key secret coin isBuy price b ->
  a = b.
Proof.
  intros (ka & wa & Hka & Hwa & Ha) (kb & wb & Hkb & Hwb & Hb).
  assert (ka = kb) by (eapply opens_once; eassumption). subst kb.
  rewrite Hwa in Hwb. inversion Hwb; subst wb.
  rewrite Ha in Hb. now inversion Hb.
Qed.

(** The four ways out of step 3. *)
Lemma execute_outcomes body key secret decision coin action price :
  (exists result,
      answered W P new_Wallet body key secret coin (String.eqb action "BUY")
               price result
      /\ success result = true
      /\ execute W P new_Wallet body key secret decision coin action price
         = with_order decision (HyperliquidAdapter.orderId result))
  \/ (exists result,
         answered W P new_Wallet body key secret coin (String.eqb action "BUY")
                  price result
         /\ success result = false
         /\ execute W P new_Wallet body key secret decision coin action price
            = with_error decision (HyperliquidAdapter.error result))
  \/ ((forall privateKey,
          ~ opens W key secret (text_or (encryptionSalt body) "") privateKey)
      /\ execute W P new_Wallet body key secret decision coin action price
         = with_error decision
             (Some (Str "Decryption failed: Invalid password or corrupted data")))
  \/ (exists privateKey e,
         opens W key secret (text_or (encryptionSalt body) "") privateKey
         /\ new_Wallet privateKey = Throw e
         /\ execute W P new_Wallet body key secret decision coin action price
            = with_error decision
                (Some (Str (message_or e "Trade execution failed")))).
Proof.
  unfold execute. cbv zeta. rewrite withDecryptedKey_runs.
  destruct (decryptBlob_cases W key secret (text_or (encryptionSalt body) ""))
    as [(privateKey & Hkey & Hopens)|Hfails].
  - rewrite Hkey. simpl.
    destruct (new_Wallet privateKey) as [wallet|e] eqn:Hwallet; simpl.
    + destruct (AdapterFacts.executeTrade_returns P wallet coin
                  (String.eqb action "BUY") (position_size body price) price
                  (limit_at price)) as (result & Hresult & _).
      rewrite Hresult. simpl.
      destruct (success result) eqn:Hsuccess.
      * left. exists result. split; [|split; [exact Hsuccess|reflexivity]].
        exists privateKey, wallet. auto.
      * right; left. exists result. split; [|split; [exact Hsuccess|reflexivity]].
        exists privateKey, wallet. auto.
    + right; right; right. exists privateKey, e. auto.
  - right; right; left. rewrite Hfails. simpl. split; [|reflexivity].
    intros privateKey Hopens. apply opens_decrypts in Hopens. congruence.
Qed.

Lemma armed_flags body key secret :
  armed body key secret ->
  truthy_flag (executeTradesIfSignal body) = true
  /\ truthy_text (encryptedKey body) = true
  /\ truthy_text (executionPassword body) = true.
Proof.
  intros (-> & -> & Hkey & -> & Hsecret). simpl.
  apply String.eqb_neq in Hkey. apply String.eqb_neq in Hsecret.
  unfold truthy. rewrite Hkey, Hsecret. auto.
Qed.

Lemma flags_armed body :
  truthy_flag (executeTradesIfSignal body) = true ->
  truthy_text (encryptedKey body) = true ->
  truthy_text (executionPassword body) = true ->
  exists key secret, armed body key secret.
Proof.
  unfold armed, truthy_flag, truthy_text.
  destruct (executeTradesIfSignal body) as [[|]|]; try discriminate.
  destruct (encryptedKey body) as [key|]; try discriminate.
  destruct (executionPassword body) as [secret|]; try discriminate.
  simpl. intros _ Hkey Hsecret. exists key, secret.
  repeat split; try reflexivity; intros ->; discriminate.
Qed.

Lemma unarmed_flags body :
  unarmed body ->
  truthy_flag (executeTradesIfSignal body)
  && truthy_text (encryptedKey body)
  && truthy_text (executionPassword body) = false.
Proof.
  unfold unarmed, truthy_flag, truthy_text.
  intros [Hflag|[Hkey|[Hkey|[Hsecret|Hsecret]]]].
  - destruct (executeTradesIfSignal body) as [[|]|]; try reflexivity.
    now contradiction Hflag.
  - rewrite Hkey. now rewrite andb_false_r.
  - rewrite Hkey. simpl. now rewrite andb_false_r.
  - rewrite Hsecret. now rewrite andb_false_r.
  - rewrite Hsecret. simpl. now rewrite andb_false_r.
Qed.


(** The decision of a coin whose market data and analysis arrive. *)
Lemma analyse_analysed body c context analysis :
  getMarketContext c = Return context ->
  analyzeMarket context (aiConfig body) = Return analysis ->
  analyse W P new_Wallet getMarketContext analyzeMarket body c
  = if truthy_flag (executeTradesIfSignal body)
       && negb (String.eqb (action_of analysis) "HOLD")
       && truthy_text (encryptedKey body)
       && truthy_text (executionPassword body)
    then match encryptedKey body, executionPassword body with
         | Some key, Some secret =>
             execute W P new_Wallet body key secret (analysed c context analysis)
                     c (action_of analysis) (price_of context)
         | _, _ => analysed c context analysis
         end
    else analysed c context analysis.
Proof.
  intros Hcontext Hanalysis. unfold analyse.
  rewrite Hcontext. simpl. rewrite Hanalysis. simpl.
  destruct (truthy_flag (executeTradesIfSignal body)
            && negb (String.eqb (action_of analysis) "HOLD")
            && truthy_text (encryptedKey body)
            && truthy_text (executionPassword body)); [|reflexivity].
  destruct (encryptedKey body), (executionPassword body); reflexivity.
Qed.

Lemma analyse_armed body c context analysis key secret isBuy :
  getMarketContext c = Return context ->
  analyzeMarket context (aiConfig body) = Return analysis ->
  armed body key secret ->
  strong analysis isBuy ->
  analyse W P new_Wallet getMarketContext analyzeMarket body c
  = execute W P new_Wallet body key secret (analysed c context analysis)
            c (side isBuy) (price_of context)
  /\ action_of analysis = side isBuy.
Proof.
  intros Hcontext Hanalysis Harmed Hstrong.
  rewrite (analyse_analysed body c context analysis Hcontext Hanalysis).
  destruct (action_of_cases analysis) as [(b & Hb & Haction)|(Hweak & _)];
    [|now destruct (Hweak isBuy)].
  assert (b = isBuy) by (eapply strong_side; eassumption). subst b.
  rewrite Haction, side_not_hold.
  destruct (armed_flags body key secret Harmed) as (-> & -> & ->).
  destruct Harmed as (_ & -> & _ & -> & _). auto.
Qed.

Lemma analyse_idle body c context analysis :
  getMarketContext c = Return context ->
  analyzeMarket context (aiConfig body) = Return analysis ->
  unarmed body \/ (forall isBuy, ~ strong analysis isBuy) ->
  analyse W P new_Wallet getMarketContext analyzeMarket body c
  = analysed c context analysis.
Proof.
  intros Hcontext Hanalysis Hidle.
  rewrite (analyse_analysed body c context analysis Hcontext Hanalysis).
  assert (Hoff : truthy_flag (executeTradesIfSignal body)
                 && negb (String.eqb (action_of analysis) "HOLD")
                 && truthy_text (encryptedKey body)
                 && truthy_text (executionPassword body) = false).
  { destruct Hidle as [Hunarmed|Hweak].
    - apply unarmed_flags in Hunarmed.
      destruct (truthy_flag (executeTradesIfSignal body)),
        (truthy_text (encryptedKey body)),
        (truthy_text (executionPassword body)),
        (negb (String.eqb (action_of analysis) "HOLD"));
        try reflexivity; discriminate.
    - destruct (action_of_cases analysis) as [(b & Hb & _)|(_ & ->)];
        [now destruct (Hweak b)|].
      simpl. now rewrite andb_false_r. }
  now rewrite Hoff.
Qed.

Lemma analyse_without_data body c e :
  getMarketContext c = Throw e ->
  analyse W P new_Wallet getMarketContext analyzeMarket body c
  = held c (message_or e "Analysis failed").
Proof. intros Hcontext. unfold analyse. now rewrite Hcontext. Qed.

Lemma analyse_without_analysis body c context e :
  getMarketContext c = Return context ->
  analyzeMarket context (aiConfig body) = Throw e ->
  analyse W P new_Wallet getMarketContext analyzeMarket body c
  = held c (message_or e "Analysis failed").
Proof.
  intros Hcontext Hanalysis. unfold analyse.
  rewrite Hcontext. simpl. now rewrite Hanalysis.
Qed.


(** X19. The cycle reports an order for a coin exactly when the request
    asks for trades and carries a key and a password, the analysis of
    the coin is bullish or bearish with a confidence above 0.7, the key
    decrypts, a wallet is made of it, and [executeTrade] reports
    success for a limit order at the current price, a buy exactly when
    the signal is bullish.  The decision then carries the order id of
    that result. *)
Theorem trades_on_strong_signal_only :
  forall body c,
    (executed (analyse W P new_Wallet getMarketContext analyzeMarket body c)
     = Some true ->
     exists key secret context analysis isBuy result,
       armed body key secret
       /\ getMarketContext c = Return context
       /\ analyzeMarket context (aiConfig body) = Return analysis
       /\ strong analysis isBuy
       /\ answered W P new_Wallet body key secret c isBuy (price_of context) result
       /\ success result = true)
    /\ (forall key secret context analysis isBuy result,
          armed body key secret ->
          getMarketContext c = Return context ->
          analyzeMarket context (aiConfig body) = Return analysis ->
          strong analysis isBuy ->
          answered W P new_Wallet body key secret c isBuy (price_of context) result ->
          success result = true ->
          analyse W P new_Wallet getMarketContext analyzeMarket body c
          = with_order (with_action (analysed c context analysis) (side isBuy))
                       (HyperliquidAdapter.orderId result)).
Proof.
  intros body c. split.
  - intros Hexecuted.
    destruct (getMarketContext c) as [context|e] eqn:Hcontext;
      [|rewrite (analyse_without_data body c e Hcontext) in Hexecuted;
        discriminate].
    destruct (analyzeMarket context (aiConfig body)) as [analysis|e] eqn:Hanalysis;
      [|rewrite (analyse_without_analysis body c context e Hcontext Hanalysis)
          in Hexecuted; discriminate].
    rewrite (analyse_analysed body c context analysis Hcontext Hanalysis)
      in Hexecuted.
    destruct (truthy_flag (executeTradesIfSignal body)) eqn:Hflag;
      [|discriminate].
    destruct (String.eqb (action_of analysis) "HOLD") eqn:Hhold;
      [discriminate|].
    destruct (truthy_text (encryptedKey body)) eqn:Hkey; [|discriminate].
    destruct (truthy_text (executionPassword body)) eqn:Hsecret;
      [|discriminate].
    destruct (flags_armed body Hflag Hkey Hsecret) as (key & secret & Harmed).
    destruct (action_of_cases analysis) as [(isBuy & Hstrong & Haction)|(_ & Haction)];
      [|rewrite Haction in Hhold; discriminate].
    pose proof Harmed as (_ & Hk & _ & Hs & _).
    rewrite Hk, Hs in Hexecuted. simpl in Hexecuted.
    rewrite Haction in Hexecuted.
    destruct (execute_outcomes body key secret (analysed c context analysis) c
                (side isBuy) (price_of context))
      as [(r & Hr & Hok & Heq)|[(r & _ & _ & Heq)|[(_ & Heq)|(k & e & _ & _ & Heq)]]];
      rewrite Heq in Hexecuted; try discriminate.
    rewrite side_is_buy in Hr.
    exists key, secret, context, analysis, isBuy, r. auto 7.
  - intros key secret context analysis isBuy result
           Harmed Hcontext Hanalysis Hstrong Hanswered Hok.
    destruct (analyse_armed body c context analysis key secret isBuy
                Hcontext Hanalysis Harmed Hstrong) as (-> & Haction).
    destruct (execute_outcomes body key secret (analysed c context analysis) c
                (side isBuy) (price_of context))
      as [(r & Hr & _ & ->)|[(r & Hr & Hno & _)|[(Hshut & _)|(k & e & Hk & He & _)]]].
    + rewrite side_is_buy in Hr.
      rewrite (answered_once _ _ _ _ _ _ _ _ Hanswered Hr).
      unfold with_order, with_action, analysed. simpl. now rewrite Haction.
    + rewrite side_is_buy in Hr.
      rewrite (answered_once _ _ _ _ _ _ _ _ Hanswered Hr) in Hok. congruence.
    + destruct Hanswered as (k & _ & Hk & _). now destruct (Hshut k).
    + destruct Hanswered as (k' & w & Hk' & Hw & _).
      rewrite (opens_once _ _ _ _ _ Hk Hk') in He. congruence.
Qed.

End WithCycle.

(** X20. A request that does not ask for trades, or lacks the key or
    the password, only analyses: no decision reports an order, an order
    id or an error, and the decisions are the same whatever the
    exchange, the key store and the wallets are. *)
Theorem analysis_only_when_unarmed :
  forall (Wallet : Type) (W : WebPlatform) (P : Platform Wallet) new_Wallet
         getMarketContext analyzeMarket body,
    unarmed body ->
    Forall (fun decision =>
              executed decision <> Some true
              /\ orderId decision = None /\ error decision = None)
           (decisions W P new_Wallet getMarketContext analyzeMarket body)
    /\ forall (Wallet' : Type) (W' : WebPlatform) (P' : Platform Wallet')
              new_Wallet',
         decisions W' P' new_Wallet' getMarketContext analyzeMarket body
         = decisions W P new_Wallet getMarketContext analyzeMarket body.
Proof.
  intros Wallet W P new_Wallet getMarketContext analyzeMarket body Hunarmed.
  assert (Hform : forall (Wallet' : Type) (W' : WebPlatform)
                         (P' : Platform Wallet') new_Wallet' c,
             analyse W' P' new_Wallet' getMarketContext analyzeMarket body c
             = match getMarketContext c with
               | Return context =>
                   match analyzeMarket context (aiConfig body) with
                   | Return analysis => analysed c context analysis
                   | Throw e => held c (message_or e "Analysis failed")
                   end
               | Throw e => held c (message_or e "Analysis failed")
               end).
  { intros Wallet' W' P' new_Wallet' c.
    destruct (getMarketContext c) as [context|e] eqn:Hcontext;
      [|now apply analyse_without_data].
    destruct (analyzeMarket context (aiConfig body)) as [analysis|e] eqn:Hanalysis;
      [|now apply (analyse_without_analysis W' P' new_Wallet' getMarketContext
                     analyzeMarket body c context e)].
    apply analyse_idle; auto. }
  split.
  - unfold decisions. apply Forall_forall. intros decision Hin.
    apply in_map_iff in Hin. destruct Hin as (c & <- & _).
    rewrite Hform.
    destruct (getMarketContext c) as [context|e];
      [destruct (analyzeMarket context (aiConfig body))|];
      simpl; repeat split; try reflexivity; discriminate.
  - intros Wallet' W' P' new_Wallet'. unfold decisions.
    apply map_ext. intros c. now rewrite !Hform.
Qed.

Section Reports.

Context {Wallet : Type}.
Variable W : WebPlatform.
Variable P : Platform Wallet.
Variable new_Wallet : string -> outcome Wallet.
Variable getMarketContext : string -> outcome MarketContext.
Variable analyzeMarket : MarketContext -> value -> outcome AIAnalysisResult.


End Reports.

End DealerFacts.

Module DealerWitnesses.
Import Js ExecutionSession HyperliquidAdapter Crypto DealerCycle DealerSpec.
Import SampleCustody SampleExchange SampleDealer.

(** Witness of X5: the sealed key opens, and text that is not Base64
    does not. *)
Lemma withDecryptedKey_needs_the_key_witness :
  withDecryptedKey web (sealed "0xkey") "hunter2" "c2FsdA==" wallet_of
  = Return "0xkey"
  /\ withDecryptedKey web "****" "hunter2" "c2FsdA==" wallet_of
     = Throw decryption_failed.
Proof.
  split.
  - destruct (DealerFacts.withDecryptedKey_needs_the_key web string
                (sealed "0xkey") "hunter2" "c2FsdA==" wallet_of)
      as (Hiff & [(key & Hopens & ->)|(_ & Hfails & _)]).
    + apply Hiff in Hopens. vm_compute in Hopens.
      inversion Hopens; subst key. reflexivity.
    + vm_compute in Hfails. discriminate.
  - destruct (DealerFacts.withDecryptedKey_needs_the_key web string
                "****" "hunter2" "c2FsdA==" wallet_of)
      as (Hiff & [(key & Hopens & _)|(_ & _ & Hany)]).
    + apply Hiff in Hopens. vm_compute in Hopens. discriminate.
    + apply Hany.
Defined.

(** Witness of X19: a bullish signal on BTC, with the key and the
    password, places a buy. *)
Lemma trades_on_strong_signal_only_witness :
  executed (analyse web accepts wallet_of context_of bullish
              (cycle_request (Some true) (Some "hunter2")) "BTC") = Some true
  /\ exists key secret context analysis isBuy result,
       armed (cycle_request (Some true) (Some "hunter2")) key secret
       /\ context_of "BTC" = Return context
       /\ bullish context (aiConfig (cycle_request (Some true) (Some "hunter2")))
          = Return analysis
       /\ strong analysis isBuy
       /\ answered web accepts wallet_of
            (cycle_request (Some true) (Some "hunter2")) key secret "BTC" isBuy
            (price_of context) result
       /\ success result = true.
Proof.
  assert (Hexecuted :
            executed (analyse web accepts wallet_of context_of bullish
                        (cycle_request (Some true) (Some "hunter2")) "BTC")
            = Some true) by (vm_compute; reflexivity).
  split; [exact Hexecuted|].
  exact (proj1 (DealerFacts.trades_on_strong_signal_only web accepts wallet_of
                  context_of bullish
                  (cycle_request (Some true) (Some "hunter2")) "BTC") Hexecuted).
Defined.

(** Witness of X20: the same request without the flag only analyses. *)
Lemma analysis_only_when_unarmed_witness :
  unarmed (cycle_request None (Some "hunter2"))
  /\ Forall (fun decision =>
               executed decision <> Some true
               /\ orderId decision = None /\ error decision = None)
            (decisions web accepts wallet_of context_of bullish
               (cycle_request None (Some "hunter2")))
  /\ decisions web rejects wallet_of context_of bullish
       (cycle_request None (Some "hunter2"))
     = decisions web accepts wallet_of context_of bullish
         (cycle_request None (Some "hunter2")).
Proof.
  assert (Hunarmed : unarmed (cycle_request None (Some "hunter2")))
    by (left; discriminate).
  split; [exact Hunarmed|].
  destruct (DealerFacts.analysis_only_when_unarmed string web accepts wallet_of
              context_of bullish (cycle_request None (Some "hunter2")) Hunarmed)
    as (Hnone & Hsame).
  split; [exact Hnone|]. apply Hsame.
Defined.


End DealerWitnesses.

